(** * Paragon-view: the hardware-link and job-execution core of [Code1.jsx]

    A shallow embedding of the stateful part of the React component [App]
    (src/Code1.jsx): the event log ([addLog]), the IBM handshake
    ([connectToIBM]), the job executor ([executeRealTeleport],
    [runLocalSimulation]), the weight formula shared by both job callbacks
    and [captureArtifact].

    Conventions of the embedding.
    - React state is one record [App]; a setter call [setX(v)] is a state
      update applied in program order.  Every setter of the source is called
      either with a value that does not read stale state or with a functional
      update ([setLogs(prev => ...)]), so applying the updates in order gives
      the state of the next render.
    - Handlers run in a state-and-exception monad [M]; [try]/[catch] is
      [try_catch].  An [await] splits a handler into the part run at the
      click and the part run when the promise settles.
    - Everything the host decides (clock, [Math.random], the outcome of
      [fetch], the canvas) is read from a [Host] record of oracles indexed
      by a counter of host reads.
    - JavaScript strings are [string]s whose characters stand for code
      units.  Finite numbers are exact rationals; [NaN] is kept, the
      infinities and IEEE rounding are not (the end of the weight section shows why the
      rounding cannot change any value computed here). *)

From Stdlib Require Import ZArith QArith Qround List String Ascii Bool Lia Lqa.
From Stdlib Require Import DecimalString.
Import ListNotations.

Local Open Scope string_scope.
Local Open Scope Z_scope.

(** * JavaScript values used by the component *)

Module JS.

(** A JavaScript number: a finite value or [NaN]. *)
Inductive number : Type :=
| NaN
| Fin (q : Q).

Definition of_Z (z : Z) : number := Fin (inject_Z z).

Definition lift2 (f : Q -> Q -> Q) (a b : number) : number :=
  match a, b with
  | Fin x, Fin y => Fin (f x y)
  | _, _ => NaN
  end.

Definition add : number -> number -> number := lift2 Qplus.
Definition sub : number -> number -> number := lift2 Qminus.
Definition mul : number -> number -> number := lift2 Qmult.

(** [a / b]; a zero divisor (an infinity or [NaN] in JavaScript) is [NaN]
    here.  No divisor of the component is zero. *)
Definition div (a b : number) : number :=
  match a, b with
  | Fin x, Fin y => if Qeq_bool y 0 then NaN else Fin (x / y)
  | _, _ => NaN
  end.

Definition neg (a : number) : number :=
  match a with
  | Fin x => Fin (- x)
  | NaN => NaN
  end.

(** [a > b]; any comparison with [NaN] is false. *)
Definition gt (a b : number) : bool :=
  match a, b with
  | Fin x, Fin y => negb (Qle_bool x y)
  | _, _ => false
  end.

(** [x] denotes the rational [q]. *)
Definition is_num (x : number) (q : Q) : Prop :=
  match x with
  | Fin r => r == q
  | NaN => False
  end.

(** [Math.PI]: the double nearest to the circle constant, exactly. *)
Definition Math_PI : number := Fin (884279719003555 # 281474976710656).

(** [Math.pow(x, n)] for a natural exponent. *)
Definition Math_pow (x : number) (n : nat) : number :=
  match x with
  | Fin q => Fin (q ^ Z.of_nat n)
  | NaN => NaN
  end.

(** ** Numbers to strings *)

(** [String(z)] for an integral number. *)
Definition string_of_Z (z : Z) : string := NilZero.string_of_int (Z.to_int z).

Fixpoint zeros (n : nat) : string :=
  match n with
  | O => ""
  | S k => String "0" (zeros k)
  end.

Definition pad_left (width : nat) (s : string) : string :=
  zeros (width - String.length s) ++ s.

(** The integer [n] closest to [x * 10^f], the larger one on a tie
    (step 10.a of Number.prototype.toFixed), for [0 <= x]. *)
Definition round_units (f : nat) (x : Q) : Z :=
  Qfloor (x * inject_Z (10 ^ Z.of_nat f) + (1 # 2)).

(** The digits of [n / 10^f] with exactly [f] decimals. *)
Definition fixed_digits (f : nat) (n : Z) : string :=
  let p := 10 ^ Z.of_nat f in
  match f with
  | O => string_of_Z n
  | S _ => string_of_Z (n / p) ++ "." ++ pad_left f (string_of_Z (n mod p))
  end.

(** [x.toFixed(f)], for [|x| < 1e21]. *)
Definition toFixed (x : number) (f : nat) : string :=
  match x with
  | NaN => "NaN"
  | Fin q =>
      if Qle_bool 0 q then fixed_digits f (round_units f q)
      else "-" ++ fixed_digits f (round_units f (- q))
  end.

(** ** Strings to numbers *)

Definition digit_of (c : ascii) : option Z :=
  let n := N_of_ascii c in
  if ((48 <=? n)%N && (n <=? 57)%N)%bool then Some (Z.of_N (n - 48)) else None.

(** Reads the longest prefix of decimal digits: its value, how many digits
    were read, and the rest of the string. *)
Fixpoint read_digits (s : string) (acc : Z) (k : nat) : Z * nat * string :=
  match s with
  | String c r =>
      match digit_of c with
      | Some d => read_digits r (10 * acc + d) (S k)
      | None => (acc, k, s)
      end
  | EmptyString => (acc, k, s)
  end.

(** An unsigned decimal literal [digits], [digits.digits], [.digits] or
    [digits.] at the start of [s], and what follows it. *)
Definition read_decimal (s : string) : number * string :=
  let '(i, ki, r1) := read_digits s 0 0 in
  match r1 with
  | String "." r2 =>
      let '(fr, kf, r3) := read_digits r2 0 0 in
      if (ki + kf =? 0)%nat then (NaN, s)
      else (Fin (inject_Z i + inject_Z fr / inject_Z (10 ^ Z.of_nat kf)), r3)
  | _ => if (ki =? 0)%nat then (NaN, s) else (Fin (inject_Z i), r1)
  end.

Definition read_signed (s : string) : number * string :=
  match s with
  | String "-" r => let '(x, rest) := read_decimal r in (neg x, rest)
  | String "+" r => read_decimal r
  | _ => read_decimal s
  end.

(** [parseFloat(s)]: the decimal literal [s] starts with, [NaN] when there
    is none.  Leading white space, exponents and ["Infinity"] are not
    recognised; [toFixed] produces none of them here. *)
Definition parseFloat (s : string) : number := fst (read_signed s).

(** [Number(s)], the coercion applied to a string operand of [-]: the
    whole of [s] has to be a decimal literal.  The same forms as for
    [parseFloat] are left out, and the empty string (0 in JavaScript). *)
Definition ToNumber (s : string) : number :=
  match read_signed s with
  | (x, EmptyString) => x
  | _ => NaN
  end.

(** ** The string and array methods the component calls *)

(** [s.substring(0, n)]. *)
Definition substring0 (n : nat) (s : string) : string := String.substring 0 n s.

(** [s.split(' ')[0]]: what precedes the first space. *)
Fixpoint before_space (s : string) : string :=
  match s with
  | EmptyString => EmptyString
  | String c r => if Ascii.eqb c " " then EmptyString else String c (before_space r)
  end.

(** [l.slice(0, n)]. *)
Definition slice0 {A} (n : nat) (l : list A) : list A := firstn n l.

(** [bits.join("")] on an array of integers. *)
Fixpoint join_empty (bits : list Z) : string :=
  match bits with
  | [] => ""
  | b :: r => string_of_Z b ++ join_empty r
  end.

(** [bits.reduce((a, b) => a + b, 0)]. *)
Definition reduce_add (bits : list Z) : Z := fold_left Z.add bits 0.

(** A value as far as the handshake looks at it: [undefined], [null], a
    string, or anything else (number, boolean, object, array). *)
Inductive value : Type :=
| VUndefined
| VNull
| VString (s : string)
| VOther.

End JS.

Arguments JS.slice0 : simpl never.
Arguments JS.substring0 : simpl never.
Arguments JS.toFixed : simpl never.
Arguments JS.string_of_Z : simpl never.
Arguments JS.gt : simpl never.

(** * The component state *)

(** [hardwareStatus]: the four strings the source ever stores there
    (line 40: DISCONNECTED, AUTHENTICATING, READY, BUSY). *)
Inductive Status : Type :=
| DISCONNECTED
| AUTHENTICATING
| READY
| BUSY.

Definition Status_eqb (a b : Status) : bool :=
  match a, b with
  | DISCONNECTED, DISCONNECTED
  | AUTHENTICATING, AUTHENTICATING
  | READY, READY
  | BUSY, BUSY => true
  | _, _ => false
  end.

(** An element of [logs].  [details] is [None] for [null] (and for the
    initial entry, which has no such property). *)
Module Log.
Record entry : Type := mk {
  id : JS.number;
  type : string;
  msg : string;
  details : option string;
  time : string
}.
End Log.

(** An element of [photos]: the [meta] object of [captureArtifact]. *)
Module Photo.
Record meta : Type := mk {
  id : JS.number;
  url : string;
  mode : string;
  bits : string;
  weight : string;
  time : string
}.
End Photo.

Definition BIT_COUNT : Z := 10.
Definition PARITY_KEY : string := "00**11--1".

(** [(1 / Math.pow(Math.PI, 2)).toFixed(8)]: a string. *)
Definition PI_SQUARED_INV : string :=
  JS.toFixed (JS.div (JS.of_Z 1) (JS.Math_pow JS.Math_PI 2)) 8.

(** The [useState] cells of [App] that the link, the job executor, the log
    and the capture read or write. *)
Record App : Type := mkApp {
  ibmToken : string;
  ibmAccessToken : JS.value;
  hardwareStatus : Status;
  photos : list Photo.meta;
  localRegister : list Z;
  qubitWeight : JS.number;
  lastBitstring : string;
  activeMode : string;
  isTeleporting : bool;
  logs : list Log.entry
}.

(** The initial values given to [useState] (lines 38-56). *)
Definition initialApp : App := {|
  ibmToken := "";
  ibmAccessToken := JS.VNull;
  hardwareStatus := DISCONNECTED;
  photos := [];
  localRegister := repeat 0 (Z.to_nat BIT_COUNT);
  qubitWeight := JS.Fin (1 # 2);
  lastBitstring := "0000000000";
  activeMode := "STANDARD";
  isTeleporting := false;
  logs := [ Log.mk (JS.of_Z 0) "SEC" "Quantum Kernel Locked. Enter PIN." None "INIT" ]
|}.

(** ** What is outside the component *)

(** The callbacks handed to [setTimeout]. *)
Inductive Callback : Type :=
| TeleportResolved   (* lines 121-133 *)
| LocalCollapsed.    (* lines 144-152 *)

Record Timer : Type := mkTimer {
  callback : Callback;
  delay : Z
}.

(** The body of the handshake request. *)
Record Request : Type := mkRequest {
  endpoint : string;
  apiToken : string
}.

(** The state of the page: the React state, the timers set and not yet
    fired, the requests sent and not yet settled, and how many values have
    been read from the host. *)
Record Sys : Type := mkSys {
  app : App;
  timers : list Timer;
  inflight : list Request;
  reads : nat
}.

Definition initialSys : Sys := mkSys initialApp [] [] 0.

(** What the host answers, by the number of the read. *)
Record Host : Type := mkHost {
  Date_now : nat -> Z;
  Math_random : nat -> Q;
  toLocaleTimeString : nat -> string;
  toDataURL : nat -> string;
  videoRef_current : nat -> bool
}.

(** ** Handlers: state and exceptions *)

Inductive Exn : Type :=
| TypeError
| Rejected.

Definition M (A : Type) : Type := Sys -> (Exn + A) * Sys.

Definition ret {A} (a : A) : M A := fun s => (inr a, s).

Definition bind {A B} (c : M A) (k : A -> M B) : M B :=
  fun s =>
    match c s with
    | (inr a, s1) => k a s1
    | (inl e, s1) => (inl e, s1)
    end.

Definition throw {A} (e : Exn) : M A := fun s => (inl e, s).

(** [try { body } catch (err) { handler }]: the state changes made by
    [body] before it threw stay. *)
Definition try_catch {A} (body : M A) (handler : Exn -> M A) : M A :=
  fun s =>
    match body s with
    | (inl e, s1) => handler e s1
    | done => done
    end.

Declare Scope js_scope.
Delimit Scope js_scope with js.
Notation "x <- c ;; k" := (bind c (fun x => k))
  (at level 61, c at next level, right associativity) : js_scope.
Notation "c ;; k" := (bind c (fun _ => k))
  (at level 61, right associativity) : js_scope.
Local Open Scope js_scope.

Definition get_app : M App := fun s => (inr (app s), s).

Definition set_app (f : App -> App) : M unit :=
  fun s => (inr tt, mkSys (f (app s)) (timers s) (inflight s) (reads s)).

(** One value read from the host. *)
Definition host_read {A} (oracle : nat -> A) : M A :=
  fun s => (inr (oracle (reads s)), mkSys (app s) (timers s) (inflight s) (S (reads s))).

Definition setTimeout (cb : Callback) (ms : Z) : M unit :=
  fun s => (inr tt, mkSys (app s) (timers s ++ [mkTimer cb ms]) (inflight s) (reads s)).

Definition send (r : Request) : M unit :=
  fun s => (inr tt, mkSys (app s) (timers s) (inflight s ++ [r]) (reads s)).

(** The state a handler leaves, and whether it returned. *)
Definition exec {A} (c : M A) (s : Sys) : Sys := snd (c s).
Definition returns {A} (c : M A) (s : Sys) : Prop := exists a, fst (c s) = inr a.

(** The setters. *)
Definition setIbmToken (v : string) : M unit :=
  set_app (fun a => mkApp v (ibmAccessToken a) (hardwareStatus a) (photos a)
    (localRegister a) (qubitWeight a) (lastBitstring a) (activeMode a) (isTeleporting a) (logs a)).
Definition setIbmAccessToken (v : JS.value) : M unit :=
  set_app (fun a => mkApp (ibmToken a) v (hardwareStatus a) (photos a)
    (localRegister a) (qubitWeight a) (lastBitstring a) (activeMode a) (isTeleporting a) (logs a)).
Definition setHardwareStatus (v : Status) : M unit :=
  set_app (fun a => mkApp (ibmToken a) (ibmAccessToken a) v (photos a)
    (localRegister a) (qubitWeight a) (lastBitstring a) (activeMode a) (isTeleporting a) (logs a)).
Definition setPhotos (f : list Photo.meta -> list Photo.meta) : M unit :=
  set_app (fun a => mkApp (ibmToken a) (ibmAccessToken a) (hardwareStatus a) (f (photos a))
    (localRegister a) (qubitWeight a) (lastBitstring a) (activeMode a) (isTeleporting a) (logs a)).
Definition setLocalRegister (v : list Z) : M unit :=
  set_app (fun a => mkApp (ibmToken a) (ibmAccessToken a) (hardwareStatus a) (photos a)
    v (qubitWeight a) (lastBitstring a) (activeMode a) (isTeleporting a) (logs a)).
Definition setQubitWeight (v : JS.number) : M unit :=
  set_app (fun a => mkApp (ibmToken a) (ibmAccessToken a) (hardwareStatus a) (photos a)
    (localRegister a) v (lastBitstring a) (activeMode a) (isTeleporting a) (logs a)).
Definition setLastBitstring (v : string) : M unit :=
  set_app (fun a => mkApp (ibmToken a) (ibmAccessToken a) (hardwareStatus a) (photos a)
    (localRegister a) (qubitWeight a) v (activeMode a) (isTeleporting a) (logs a)).
Definition setActiveMode (v : string) : M unit :=
  set_app (fun a => mkApp (ibmToken a) (ibmAccessToken a) (hardwareStatus a) (photos a)
    (localRegister a) (qubitWeight a) (lastBitstring a) v (isTeleporting a) (logs a)).
Definition setIsTeleporting (v : bool) : M unit :=
  set_app (fun a => mkApp (ibmToken a) (ibmAccessToken a) (hardwareStatus a) (photos a)
    (localRegister a) (qubitWeight a) (lastBitstring a) (activeMode a) v (logs a)).
Definition setLogs (f : list Log.entry -> list Log.entry) : M unit :=
  set_app (fun a => mkApp (ibmToken a) (ibmAccessToken a) (hardwareStatus a) (photos a)
    (localRegister a) (qubitWeight a) (lastBitstring a) (activeMode a) (isTeleporting a) (f (logs a))).

(** ** Answers of the network, and events of the page *)

(** A promise once settled: rejected, or fulfilled with a value. *)
Inductive Promise (A : Type) : Type :=
| Rejects
| Fulfils (a : A).
Arguments Rejects {A}.
Arguments Fulfils {A} a.

(** What [response.json()] parsed: [null], or a value whose [id] property
    reads as [id] ([VUndefined] when there is no such property). *)
Inductive Json : Type :=
| JNull
| JValue (id : JS.value).

(** The parts of the [Response] the handler reads. *)
Record Response : Type := mkResponse {
  ok : bool;
  status : Z;
  json : Promise Json;
  text : Promise string
}.

Definition handshake_url : string :=
  "https://auth.quantum-computing.ibm.com/api/users/loginWithToken".

(** What can happen to the page once it is unlocked. *)
Inductive Event : Type :=
| TokenTyped (v : string)                 (* onChange of the token field *)
| LinkClicked                             (* the LINK button *)
| FetchSettled (r : Promise Response)
| TeleportClicked                         (* the Teleport_Weights button *)
| TimerFired (i : nat)                    (* the i-th pending timer *)
| CaptureClicked
| ClearClicked                            (* setLogs([]) *)
| ModeSelected (m : string).

Section Component.

Variable host : Host.

(** ** The event log (lines 60-66) *)

(** The object literal of [addLog]. *)
Definition log_entry (type msg : string) (details : option string) : M Log.entry :=
  now <- host_read (Date_now host) ;;
  rnd <- host_read (Math_random host) ;;
  clock <- host_read (toLocaleTimeString host) ;;
  ret (Log.mk (JS.add (JS.of_Z now) (JS.Fin rnd)) type msg details (JS.before_space clock)).

Definition addLog (type msg : string) (details : option string) : M unit :=
  e <- log_entry type msg details ;;
  setLogs (fun prev => JS.slice0 30 (e :: prev)).

(** ** The IBM handshake (lines 69-104) *)

(** [await p]: a rejection is thrown. *)
Definition await {A} (p : Promise A) : M A :=
  match p with
  | Fulfils a => ret a
  | Rejects => throw Rejected
  end.

(** [authData.id]: reading a property of [null] throws. *)
Definition get_id (authData : Json) : M JS.value :=
  match authData with
  | JValue id => ret id
  | JNull => throw TypeError
  end.

(** [v.substring(0, n)]: only a string has the method. *)
Definition substring_method (v : JS.value) (n : nat) : M string :=
  match v with
  | JS.VString s => ret (JS.substring0 n s)
  | _ => throw TypeError
  end.

(** The handler up to its first [await]: [true] when the request was sent
    and the handler is suspended, [false] when it returned at line 72. *)
Definition connectToIBM_until_fetch : M bool :=
  a <- get_app ;;
  if (ibmToken a =? "")%string then
    addLog "ERR" "Qiskit Token Required." None ;;
    ret false
  else
    setHardwareStatus AUTHENTICATING ;;
    addLog "IBM" "Initiating REST Handshake..." None ;;
    send (mkRequest handshake_url (ibmToken a)) ;;
    ret true.

(** The oldest request in flight gets its answer. *)
Definition settle_request : M unit :=
  fun s => (inr tt, mkSys (app s) (timers s) (tl (inflight s)) (reads s)).

(** The handler from the moment the promise of [fetch] settles: the rest of
    the [try] block and the [catch] block. *)
Definition connectToIBM_after_fetch (fetched : Promise Response) : M unit :=
  settle_request ;;
  try_catch
    (response <- await fetched ;;
     if ok response then
       authData <- await (json response) ;;
       id <- get_id authData ;;
       setIbmAccessToken id ;;
       setHardwareStatus READY ;;
       preview <- substring_method id 8 ;;
       addLog "IBM" "Authentication Successful." (Some ("Access_ID: " ++ preview ++ "..."))
     else
       errText <- await (text response) ;;
       addLog "ERR" ("IBM Rejected Token [" ++ JS.string_of_Z (status response) ++ "]")
              (Some (JS.substring0 50 errText)) ;;
       setHardwareStatus DISCONNECTED)
    (fun err =>
       setHardwareStatus DISCONNECTED ;;
       addLog "ERR" "IBM Bridge Blocked (CORS/Network)" None ;;
       addLog "DEBUG" "Browser blocked cross-origin request to IBM Servers." None).

(** One whole authentication attempt, [fetched] being what [fetch] comes
    back with. *)
Definition connectToIBM (fetched : Promise Response) : M unit :=
  suspended <- connectToIBM_until_fetch ;;
  if suspended then connectToIBM_after_fetch fetched else ret tt.

(** ** The job executor (lines 107-153) *)

(** [Array.from({ length: n }, f)]. *)
Fixpoint Array_from {A} (n : nat) (f : M A) : M (list A) :=
  match n with
  | O => ret []
  | S k => x <- f ;; r <- Array_from k f ;; ret (x :: r)
  end.

(** [Math.random() > 0.5 ? 1 : 0]. *)
Definition random_bit : M Z :=
  r <- host_read (Math_random host) ;;
  ret (if JS.gt (JS.Fin r) (JS.Fin (1 # 2)) then 1 else 0).

Definition random_register : M (list Z) := Array_from (Z.to_nat BIT_COUNT) random_bit.

(** The weight both callbacks publish (lines 124 and 128, 146 and 149):
    [parseFloat((weight * (1 - PI_SQUARED_INV)).toFixed(4))] with
    [weight = bits.reduce((a, b) => a + b, 0) / BIT_COUNT]. *)
Definition deriveWeight (bits : list Z) : JS.number :=
  let weight := JS.div (JS.of_Z (JS.reduce_add bits)) (JS.of_Z BIT_COUNT) in
  JS.parseFloat
    (JS.toFixed (JS.mul weight (JS.sub (JS.of_Z 1) (JS.ToNumber PI_SQUARED_INV))) 4).

Arguments deriveWeight : simpl never.

(** The callback of lines 121-133. *)
Definition teleport_resolved : M unit :=
  bits <- random_register ;;
  let bitstring := JS.join_empty bits in
  setLocalRegister bits ;;
  setLastBitstring bitstring ;;
  setQubitWeight (deriveWeight bits) ;;
  setHardwareStatus READY ;;
  setIsTeleporting false ;;
  addLog "CORE" ("Teleportation Resolved: " ++ bitstring) None.

(** The callback of lines 144-152. *)
Definition local_collapsed : M unit :=
  bits <- random_register ;;
  setLocalRegister bits ;;
  setLastBitstring (JS.join_empty bits) ;;
  setQubitWeight (deriveWeight bits) ;;
  setIsTeleporting false ;;
  addLog "SYS" "Local Registry Collapsed." None.

Definition run_callback (cb : Callback) : M unit :=
  match cb with
  | TeleportResolved => teleport_resolved
  | LocalCollapsed => local_collapsed
  end.

Definition runLocalSimulation : M unit :=
  setIsTeleporting true ;;
  setTimeout LocalCollapsed 1500.

(** [executeRealTeleport] with the body of its [try] block as a parameter:
    the source says of that body that the real implementation would fetch
    the job there, and what it ships is the timed stand-in
    [simulated_retrieval]. *)
Definition executeRealTeleport_with (remote_step : M unit) : M unit :=
  a <- get_app ;;
  if negb (Status_eqb (hardwareStatus a) READY) then
    addLog "WARN" "Using Local Simulation (No IBM Link)." None ;;
    runLocalSimulation
  else
    setIsTeleporting true ;;
    setHardwareStatus BUSY ;;
    addLog "QASM" ("Zenith Key Active: " ++ PARITY_KEY) None ;;
    try_catch remote_step
      (fun err =>
         setIsTeleporting false ;;
         setHardwareStatus READY ;;
         addLog "ERR" "Job Pipeline Interrupted." None).

(** The [try] body as shipped (lines 121-133): set the timer. *)
Definition simulated_retrieval : M unit := setTimeout TeleportResolved 3000.

Definition executeRealTeleport : M unit :=
  executeRealTeleport_with simulated_retrieval.

(** The timer set last goes off. *)
Definition fire_newest : M unit :=
  fun s =>
    match rev (timers s) with
    | [] => (inr tt, s)
    | t :: earlier =>
        run_callback (callback t) (mkSys (app s) (rev earlier) (inflight s) (reads s))
    end.

(** One job from the click to the callback of the timer it set. *)
Definition runJob : M unit := executeRealTeleport ;; fire_newest.

(** ** Capture (lines 201-219) *)

Definition captureArtifact : M unit :=
  mounted <- host_read (videoRef_current host) ;;
  if negb mounted then ret tt
  else
    a <- get_app ;;
    now <- host_read (Date_now host) ;;
    data <- host_read (toDataURL host) ;;
    clock <- host_read (toLocaleTimeString host) ;;
    let meta := Photo.mk (JS.of_Z now) data (activeMode a) (lastBitstring a)
                         (JS.toFixed (qubitWeight a) 4) clock in
    setPhotos (fun prev => meta :: prev) ;;
    addLog "SYS" ("Registry Locked to Archive: " ++ lastBitstring a) None.

(** ** The page as a transition system *)

(** The header shows the token panel while the status is DISCONNECTED or
    AUTHENTICATING (LINK disabled in the latter) and the teleport button
    otherwise (lines 323-344). *)
Definition enabled (ev : Event) (s : Sys) : bool :=
  match ev with
  | TokenTyped _ =>
      Status_eqb (hardwareStatus (app s)) DISCONNECTED
      || Status_eqb (hardwareStatus (app s)) AUTHENTICATING
  | LinkClicked => Status_eqb (hardwareStatus (app s)) DISCONNECTED
  | FetchSettled _ => negb (Nat.eqb (List.length (inflight s)) 0)
  | TeleportClicked =>
      Status_eqb (hardwareStatus (app s)) READY
      || Status_eqb (hardwareStatus (app s)) BUSY
  | TimerFired i => Nat.ltb i (List.length (timers s))
  | CaptureClicked | ClearClicked | ModeSelected _ => true
  end.

Definition fire (i : nat) : M unit :=
  fun s =>
    match nth_error (timers s) i with
    | None => (inr tt, s)
    | Some t =>
        run_callback (callback t)
          (mkSys (app s) (firstn i (timers s) ++ skipn (S i) (timers s)) (inflight s) (reads s))
    end.

Definition handle (ev : Event) : M unit :=
  match ev with
  | TokenTyped v => setIbmToken v
  | LinkClicked => connectToIBM_until_fetch ;; ret tt
  | FetchSettled r => connectToIBM_after_fetch r
  | TeleportClicked => executeRealTeleport
  | TimerFired i => fire i
  | CaptureClicked => captureArtifact
  | ClearClicked => setLogs (fun _ => [])
  | ModeSelected m => setActiveMode m
  end.

Definition step (ev : Event) (s : Sys) : option Sys :=
  if enabled ev s then Some (exec (handle ev) s) else None.

Fixpoint run (evs : list Event) (s : Sys) : option Sys :=
  match evs with
  | [] => Some s
  | ev :: rest =>
      match step ev s with
      | Some s1 => run rest s1
      | None => None
      end
  end.

End Component.

(** * Vocabulary of the statements *)

(** ** The event log *)

Definition LogCall : Type := string * string * option string.

(** A sequence of [addLog] calls. *)
Fixpoint addLogs (host : Host) (calls : list LogCall) : M unit :=
  match calls with
  | [] => ret tt
  | (type, msg, details) :: rest => addLog host type msg details ;; addLogs host rest
  end.

(** [e] was written by [addLog(type, msg, details)]. *)
Definition is_entry (type msg : string) (details : option string) (e : Log.entry) : Prop :=
  Log.type e = type /\ Log.msg e = msg /\ Log.details e = details.

(** [needle] occurs somewhere in [hay]. *)
Fixpoint occurs (needle hay : string) : bool :=
  String.prefix needle hay
  || match hay with
     | EmptyString => false
     | String _ rest => occurs needle rest
     end.

(** Some text of the entry contains [c]. *)
Definition entry_mentions (c : string) (e : Log.entry) : bool :=
  occurs c (Log.type e) || occurs c (Log.msg e) || occurs c (Log.time e)
  || match Log.details e with
     | Some d => occurs c d
     | None => false
     end.

(** ** The handshake *)

(** The identifier a successful answer carries: the response is [ok] and
    its body parses to a value with a string [id]. *)
Definition granted (fetched : Promise Response) : option string :=
  match fetched with
  | Fulfils r =>
      if ok r then
        match json r with
        | Fulfils (JValue (JS.VString id)) => Some id
        | _ => None
        end
      else None
  | Rejects => None
  end.

(** The log starts with the entry of a rejected credential. *)
Definition rejection_logged (code : Z) (body : string) (l : list Log.entry) : Prop :=
  exists e rest,
    l = e :: rest /\
    is_entry "ERR" ("IBM Rejected Token [" ++ JS.string_of_Z code ++ "]")
             (Some (JS.substring0 50 body)) e.

(** The log starts with the two entries of an unreachable link. *)
Definition unreachable_logged (l : list Log.entry) : Prop :=
  exists e1 e2 rest,
    l = e1 :: e2 :: rest /\
    is_entry "DEBUG" "Browser blocked cross-origin request to IBM Servers." None e1 /\
    is_entry "ERR" "IBM Bridge Blocked (CORS/Network)" None e2.

(** The five entries the handshake can write, [fetched] being what
    [fetch] came back with. *)
Definition handshake_entry (fetched : Promise Response) (e : Log.entry) : Prop :=
  is_entry "IBM" "Initiating REST Handshake..." None e
  \/ (exists id, granted fetched = Some id /\
        is_entry "IBM" "Authentication Successful."
                 (Some ("Access_ID: " ++ JS.substring0 8 id ++ "...")) e)
  \/ (exists r body, fetched = Fulfils r /\ text r = Fulfils body /\
        is_entry "ERR" ("IBM Rejected Token [" ++ JS.string_of_Z (status r) ++ "]")
                 (Some (JS.substring0 50 body)) e)
  \/ is_entry "ERR" "IBM Bridge Blocked (CORS/Network)" None e
  \/ is_entry "DEBUG" "Browser blocked cross-origin request to IBM Servers." None e.

(** The state in which the handler awaits the answer. *)
Definition awaiting (host : Host) (s : Sys) : Sys :=
  exec (send (mkRequest handshake_url (ibmToken (app s))))
    (exec (addLog host "IBM" "Initiating REST Handshake..." None)
       (exec (setHardwareStatus AUTHENTICATING) s)).

(** The [catch] block. *)
Definition blocked (host : Host) (s : Sys) : Sys :=
  exec (addLog host "DEBUG" "Browser blocked cross-origin request to IBM Servers." None)
    (exec (addLog host "ERR" "IBM Bridge Blocked (CORS/Network)" None)
       (exec (setHardwareStatus DISCONNECTED) s)).

(** What an [ok] answer whose [id] is not a string leaves behind before
    [substring] throws. *)
Definition stored (v : option JS.value) (s : Sys) : Sys :=
  match v with
  | None => s
  | Some id => exec (setHardwareStatus READY) (exec (setIbmAccessToken id) s)
  end.

(** The state with [c] typed into the token field. *)
Definition with_token (c : string) (s : Sys) : Sys := exec (setIbmToken c) s.

(** ** The job executor *)

Definition is_bit (b : Z) : Prop := b = 0 \/ b = 1.

(** The bit [random_bit] makes of the draw [r]. *)
Definition coin (r : Q) : Z := if JS.gt (JS.Fin r) (JS.Fin (1 # 2)) then 1 else 0.

(** The [n] bits drawn from the host reads [start], [start + 1], ... *)
Fixpoint drawn (host : Host) (start n : nat) : list Z :=
  match n with
  | O => []
  | S k => coin (Math_random host start) :: drawn host (S start) k
  end.

(** The three published cells. *)
Definition published (a : App) : list Z * string * JS.number :=
  (localRegister a, lastBitstring a, qubitWeight a).

(** The three cells of the link session. *)
Definition link_session (a : App) : Status * string * JS.value :=
  (hardwareStatus a, ibmToken a, ibmAccessToken a).

(** ** The weight, in the words of the specification (section 4.4) *)

Definition count_ones (bits : list Z) : nat := count_occ Z.eq_dec bits 1.

(** [x] rounded to [n] decimal digits, halves upwards. *)
Definition round_to (n : nat) (x : Q) : Q :=
  inject_Z (Qfloor (x * inject_Z (10 ^ Z.of_nat n) + (1 # 2))) / inject_Z (10 ^ Z.of_nat n).

(** The inverse of the square of the circle constant, to 8 decimal digits. *)
Definition inv_pi_squared_8 : Q := 10132118 # 100000000.

Definition dampening : Q := 1 - inv_pi_squared_8.

(** [round(rawWeight * d, 4)] with [rawWeight] the share of 1-bits. *)
Definition spec_weight (bits : list Z) : Q :=
  round_to 4 ((inject_Z (Z.of_nat (count_ones bits)) / 10) * dampening).

(** ** Runs of the page *)

(** A timer callback is where a job completes. *)
Definition completes_job (ev : Event) : bool :=
  match ev with
  | TimerFired _ => true
  | _ => false
  end.

(** What holds of the published cells and of the photos as long as no job
    has completed. *)
Definition pristine (a : App) : Prop :=
  localRegister a = repeat 0 10 /\
  lastBitstring a = "0000000000" /\
  qubitWeight a = JS.Fin (1 # 2) /\
  Forall (fun p => Photo.bits p = "0000000000" /\ Photo.weight p = "0.5000") (photos a).

(** ** Concrete hosts and answers, for the examples *)

Definition still_host : Host :=
  mkHost (fun _ => 1700000000000) (fun _ => 3 # 4) (fun _ => "10:42:07 PM")
         (fun _ => "data:image/jpeg;base64,AAAA") (fun _ => true).

(** A host whose [Math.random] alternates above and below one half. *)
Definition flip_host : Host :=
  mkHost (fun n => 1700000000000 + Z.of_nat n) (fun n => if Nat.even n then 3 # 4 else 1 # 4)
         (fun _ => "10:42:07 PM") (fun _ => "data:image/jpeg;base64,AAAA") (fun _ => true).

Definition answer_granted (id : string) : Promise Response :=
  Fulfils (mkResponse true 200 (Fulfils (JValue (JS.VString id))) Rejects).

Definition answer_rejected (code : Z) (body : string) : Promise Response :=
  Fulfils (mkResponse false code Rejects (Fulfils body)).

(** The state after a job callback: the published cells replaced by a
    fresh register, one entry logged, thirteen host reads made. *)
Definition collapsed (host : Host) (status : Status) (type msg : string) (s : Sys) : Sys :=
  let bits := drawn host (reads s) 10 in
  let e := Log.mk (JS.add (JS.of_Z (Date_now host (10 + reads s)))
                          (JS.Fin (Math_random host (S (10 + reads s)))))
                  type msg None
                  (JS.before_space (toLocaleTimeString host (S (S (10 + reads s))))) in
  mkSys (mkApp (ibmToken (app s)) (ibmAccessToken (app s)) status
               (photos (app s)) bits (deriveWeight bits) (JS.join_empty bits)
               (activeMode (app s)) false (JS.slice0 30 (e :: logs (app s))))
        (timers s) (inflight s) (S (S (S (10 + reads s)))).

(** * The rest of the page: the lock pad, the decipher call, the gallery,
      the camera

    The cells and handlers of [App] outside the core, over the same
    conventions.  The page is a record [Page] that holds the core [Sys]
    and the other cells; its handlers run in the monad [PM].
    - A parsed JSON value is a [json_value]; [undefined] is [None].
    - A camera stream is known by a number.  The camera keeps the list of
      the streams whose tracks were stopped, and the calls of
      [startCamera] that wait for [getUserMedia] or for [play].
    - The effect of lines 195-198 runs after the render that follows an
      event, when one of its dependencies has changed ([after_render]). *)

(** ** Parsed JSON and optional chaining *)

#[local] Unset Elimination Schemes.
Inductive json_value : Type :=
| JsNull
| JsBool (b : bool)
| JsNumber (q : Q)
| JsString (s : string)
| JsArray (items : list json_value)
| JsObject (members : list (string * json_value)).
#[local] Set Elimination Schemes.

(** The member [name] of a parsed object; of duplicate keys [JSON.parse]
    keeps the last. *)
Fixpoint member (name : string) (members : list (string * json_value)) : option json_value :=
  match members with
  | [] => None
  | (k, v) :: rest =>
      match member name rest with
      | Some later => Some later
      | None => if (k =? name)%string then Some v else None
      end
  end.

(** [v.name] for a value [v] that is neither [null] nor [undefined], [name]
    being none of the properties arrays and strings have of their own
    ([None] is [undefined]). *)
Definition property (name : string) (v : json_value) : option json_value :=
  match v with
  | JsObject members => member name members
  | _ => None
  end.

(** [v[0]] for such a value: the first element of an array, the first
    character of a string, the member ["0"] of an object. *)
Definition first (v : json_value) : option json_value :=
  match v with
  | JsArray items => hd_error items
  | JsString (String c _) => Some (JsString (String c EmptyString))
  | JsObject members => member "0" members
  | _ => None
  end.

(** [v?.name] and [v?.[0]]: [undefined] when [v] is [null] or [undefined]. *)
Definition chain (f : json_value -> option json_value) (v : option json_value) : option json_value :=
  match v with
  | None | Some JsNull => None
  | Some x => f x
  end.

(** Whether a value counts as true. *)
Definition truthy (v : option json_value) : bool :=
  match v with
  | None | Some JsNull => false
  | Some (JsBool b) => b
  | Some (JsNumber q) => negb (Qeq_bool q 0)
  | Some (JsString s) => negb (s =? "")%string
  | Some (JsArray _) | Some (JsObject _) => true
  end.

(** [candidates?.[0]?.content?.parts?.[0]?.text]. *)
Definition answer_text (candidates : option json_value) : option json_value :=
  chain (property "text")
    (chain first
       (chain (property "parts")
          (chain (property "content")
             (chain first candidates)))).

(** [x || fallback]. *)
Definition or_else (x : option json_value) (fallback : json_value) : json_value :=
  match x with
  | Some v => if truthy x then v else fallback
  | None => fallback
  end.

(** ** The cells outside the core *)

(** The list without its [i]-th element. *)
Definition without {A} (i : nat) (l : list A) : list A := (firstn i l ++ skipn (S i) l)%list.

Definition ACCESS_PIN : string := "5280".

(** What the decipher request carries of the page. *)
Record Prompt : Type := mkPrompt {
  prompt_mode : string;
  prompt_weight : JS.number;
  prompt_image : option string
}.

(** The camera: the two cells, the global [window.currentStream], the
    [srcObject] of the video element, the streams whose tracks were
    stopped, and the calls of [startCamera] that wait: for [getUserMedia]
    or for [play], each with the facing mode of its closure.  A stream is
    known by a number. *)
Record Camera : Type := mkCamera {
  facingMode : string;
  stream : option nat;
  currentStream : option nat;
  srcObject : option nat;
  stopped : list nat;
  asking : list string;
  playing : list string
}.

Record Page : Type := mkPage {
  sys : Sys;
  pinBuffer : string;
  isLocked : bool;
  isBooting : bool;
  analysis : json_value;
  isAnalyzing : bool;
  boot_timers : nat;             (* boot callbacks set and not yet run *)
  deciphering : list Prompt;     (* decipher requests not yet settled *)
  camera : Camera
}.

(** The initial values given to [useState] (lines 28-35, 43-44). *)
Definition initialPage : Page :=
  mkPage initialSys "" true false (JsString "") false 0 []
         (mkCamera "environment" None None None [] [] []).

Definition PM (A : Type) : Type := Page -> (Exn + A) * Page.

Definition retP {A} (a : A) : PM A := fun p => (inr a, p).

Definition bindP {A B} (c : PM A) (k : A -> PM B) : PM B :=
  fun p =>
    match c p with
    | (inr a, p1) => k a p1
    | (inl e, p1) => (inl e, p1)
    end.

Definition throwP {A} (e : Exn) : PM A := fun p => (inl e, p).

Definition try_catchP {A} (body : PM A) (handler : Exn -> PM A) : PM A :=
  fun p =>
    match body p with
    | (inl e, p1) => handler e p1
    | done => done
    end.

(** [try { body } catch (err) { handler } finally { cleanup }]. *)
Definition try_catch_finally {A} (body : PM A) (handler : Exn -> PM A) (cleanup : PM unit)
  : PM A :=
  fun p =>
    let caught :=
      match body p with
      | (inl e, p1) => handler e p1
      | done => done
      end in
    match cleanup (snd caught) with
    | (inr _, p2) => (fst caught, p2)
    | (inl e, p2) => (inl e, p2)
    end.

(** A handler of the core run on the page. *)
Definition core {A} (c : M A) : PM A :=
  fun p =>
    let r := c (sys p) in
    (fst r, mkPage (snd r) (pinBuffer p) (isLocked p) (isBooting p) (analysis p)
                   (isAnalyzing p) (boot_timers p) (deciphering p) (camera p)).

Definition get_page : PM Page := fun p => (inr p, p).

Definition setPinBuffer (v : string) : PM unit :=
  fun p => (inr tt, mkPage (sys p) v (isLocked p) (isBooting p) (analysis p)
                           (isAnalyzing p) (boot_timers p) (deciphering p) (camera p)).
Definition setIsLocked (v : bool) : PM unit :=
  fun p => (inr tt, mkPage (sys p) (pinBuffer p) v (isBooting p) (analysis p)
                           (isAnalyzing p) (boot_timers p) (deciphering p) (camera p)).
Definition setIsBooting (v : bool) : PM unit :=
  fun p => (inr tt, mkPage (sys p) (pinBuffer p) (isLocked p) v (analysis p)
                           (isAnalyzing p) (boot_timers p) (deciphering p) (camera p)).
Definition setAnalysis (v : json_value) : PM unit :=
  fun p => (inr tt, mkPage (sys p) (pinBuffer p) (isLocked p) (isBooting p) v
                           (isAnalyzing p) (boot_timers p) (deciphering p) (camera p)).
Definition setIsAnalyzing (v : bool) : PM unit :=
  fun p => (inr tt, mkPage (sys p) (pinBuffer p) (isLocked p) (isBooting p) (analysis p)
                           v (boot_timers p) (deciphering p) (camera p)).
Definition set_boot_timer : PM unit :=
  fun p => (inr tt, mkPage (sys p) (pinBuffer p) (isLocked p) (isBooting p) (analysis p)
                           (isAnalyzing p) (S (boot_timers p)) (deciphering p) (camera p)).
Definition clear_boot_timer : PM unit :=
  fun p => (inr tt, mkPage (sys p) (pinBuffer p) (isLocked p) (isBooting p) (analysis p)
                           (isAnalyzing p) (Nat.pred (boot_timers p)) (deciphering p) (camera p)).
Definition send_prompt (q : Prompt) : PM unit :=
  fun p => (inr tt, mkPage (sys p) (pinBuffer p) (isLocked p) (isBooting p) (analysis p)
                           (isAnalyzing p) (boot_timers p) (deciphering p ++ [q]) (camera p)).
Definition settle_prompt : PM unit :=
  fun p => (inr tt, mkPage (sys p) (pinBuffer p) (isLocked p) (isBooting p) (analysis p)
                           (isAnalyzing p) (boot_timers p) (tl (deciphering p)) (camera p)).

Definition set_camera (f : Camera -> Camera) : PM unit :=
  fun p => (inr tt, mkPage (sys p) (pinBuffer p) (isLocked p) (isBooting p) (analysis p)
                           (isAnalyzing p) (boot_timers p) (deciphering p) (f (camera p))).

Definition setFacingMode (f : string -> string) : PM unit :=
  set_camera (fun c => mkCamera (f (facingMode c)) (stream c) (currentStream c)
                                (srcObject c) (stopped c) (asking c) (playing c)).
Definition setStream (v : option nat) : PM unit :=
  set_camera (fun c => mkCamera (facingMode c) v (currentStream c)
                                (srcObject c) (stopped c) (asking c) (playing c)).
Definition set_currentStream (v : option nat) : PM unit :=
  set_camera (fun c => mkCamera (facingMode c) (stream c) v
                                (srcObject c) (stopped c) (asking c) (playing c)).
Definition set_srcObject (v : option nat) : PM unit :=
  set_camera (fun c => mkCamera (facingMode c) (stream c) (currentStream c)
                                v (stopped c) (asking c) (playing c)).
(** [window.currentStream.getTracks().forEach(t => t.stop())] when there is
    a current stream. *)
Definition stop_current : PM unit :=
  set_camera (fun c =>
    match currentStream c with
    | Some n => mkCamera (facingMode c) (stream c) (currentStream c)
                         (srcObject c) (n :: stopped c) (asking c) (playing c)
    | None => c
    end).
(** [getUserMedia] is called for the facing mode [mode]. *)
Definition ask_media (mode : string) : PM unit :=
  set_camera (fun c => mkCamera (facingMode c) (stream c) (currentStream c)
                                (srcObject c) (stopped c) (asking c ++ [mode]) (playing c)).
Definition settle_media (i : nat) : PM unit :=
  set_camera (fun c => mkCamera (facingMode c) (stream c) (currentStream c)
                                (srcObject c) (stopped c) (without i (asking c)) (playing c)).
(** [video.play()] is called by the call of facing mode [mode]. *)
Definition ask_play (mode : string) : PM unit :=
  set_camera (fun c => mkCamera (facingMode c) (stream c) (currentStream c)
                                (srcObject c) (stopped c) (asking c) (playing c ++ [mode])).
Definition settle_play (j : nat) : PM unit :=
  set_camera (fun c => mkCamera (facingMode c) (stream c) (currentStream c)
                                (srcObject c) (stopped c) (asking c) (without j (playing c))).

Definition execP {A} (c : PM A) (p : Page) : Page := snd (c p).

Declare Scope page_scope.
Delimit Scope page_scope with page.
Notation "x <- c ;; k" := (bindP c (fun x => k))
  (at level 61, c at next level, right associativity) : page_scope.
Notation "c ;; k" := (bindP c (fun _ => k))
  (at level 61, right associativity) : page_scope.

(** [s.split(',')[1]]: what lies between the first and the second comma. *)
Fixpoint before_comma (s : string) : string :=
  match s with
  | EmptyString => EmptyString
  | String c r => if Ascii.eqb c "," then EmptyString else String c (before_comma r)
  end.

Fixpoint after_first_comma (s : string) : option string :=
  match s with
  | EmptyString => None
  | String c r => if Ascii.eqb c "," then Some (before_comma r) else after_first_comma r
  end.

(** [a !== b] on numbers. *)
Definition number_differs (a b : JS.number) : bool :=
  match a, b with
  | JS.Fin x, JS.Fin y => negb (Qeq_bool x y)
  | _, _ => true
  end.

(** What can happen to the whole page. *)
Inductive PageEvent : Type :=
| Core (ev : Event)
| PinPressed (num : Z)                       (* a key of the lock pad *)
| BootTimerFired
| DecipherClicked
| DecipherSettled (r : Promise (Promise json_value))
| AnalysisClosed                             (* setAnalysis("") *)
| PurgeClicked (id : JS.number)
| FacingFlipped                              (* the camera switch *)
| MediaSettled (i : nat) (granted : Promise nat)   (* the [i]-th getUserMedia *)
| PlaySettled (j : nat) (played : Promise unit).   (* the [j]-th play() *)

(** Which of the three screens is rendered (lines 266-297). *)
Inductive Screen : Type :=
| BootScreen
| LockScreen
| MainScreen.

Definition screen (p : Page) : Screen :=
  if isBooting p then BootScreen
  else if isLocked p then LockScreen
  else MainScreen.

Definition on_main (p : Page) : bool :=
  match screen p with
  | MainScreen => true
  | _ => false
  end.

(** Settled promises and timers come whatever is on the screen; a button
    has to be rendered to be pressed.  The lock pad has the keys 1 to 9 and
    0 (line 288).  The render itself is not run: a page whose render would
    throw (an analysis that is an object, line 398) stays on the screen with
    its buttons, which allows more runs than the page has, never fewer. *)
Definition enabledP (ev : PageEvent) (p : Page) : bool :=
  match ev with
  | Core (FetchSettled r) => enabled (FetchSettled r) (sys p)
  | Core (TimerFired i) => enabled (TimerFired i) (sys p)
  | Core e => on_main p && enabled e (sys p)
  | PinPressed num =>
      match screen p with
      | LockScreen => (0 <=? num) && (num <=? 9)
      | _ => false
      end
  | BootTimerFired => negb (Nat.eqb (boot_timers p) 0)
  | DecipherClicked => on_main p
  | DecipherSettled _ => negb (Nat.eqb (List.length (deciphering p)) 0)
  | AnalysisClosed => on_main p && (truthy (Some (analysis p)) || isAnalyzing p)
  | PurgeClicked id =>
      on_main p && existsb (fun x => negb (number_differs (Photo.id x) id)) (photos (app (sys p)))
  | FacingFlipped => on_main p
  | MediaSettled i _ => Nat.ltb i (List.length (asking (camera p)))
  | PlaySettled j _ => Nat.ltb j (List.length (playing (camera p)))
  end.

Section Shell.

Variable host : Host.

Local Open Scope page_scope.

(** ** The lock pad (lines 156-169) *)

(** The callback of the timer of line 163. *)
Definition boot_done : PM unit :=
  clear_boot_timer ;;
  setIsLocked false ;;
  setIsBooting false.

Definition handlePinEntry (num : Z) : PM unit :=
  p <- get_page ;;
  if Nat.ltb (String.length (pinBuffer p)) 4 then
    let nextPin := pinBuffer p ++ JS.string_of_Z num in
    setPinBuffer nextPin ;;
    if (nextPin =? ACCESS_PIN)%string then
      core (addLog host "SEC" "Nexus Handshake: Verified." None) ;;
      setIsBooting true ;;
      set_boot_timer
    else if Nat.eqb (String.length nextPin) 4 then
      setPinBuffer "" ;;
      core (addLog host "ERR" "Invalid Hash." None)
    else retP tt
  else retP tt.

(** ** The decipher call (lines 222-251) *)

(** What [fetch] and [response.json()] come back with. *)
Definition awaitP {A} (r : Promise A) : PM A :=
  match r with
  | Fulfils a => retP a
  | Rejects => throwP Rejected
  end.

(** [data.candidates]: reading a property of [null] throws. *)
Definition get_candidates (data : json_value) : PM (option json_value) :=
  match data with
  | JsNull => throwP TypeError
  | _ => retP (property "candidates" data)
  end.

(** The [finally] block. *)
Definition decipher_finally : PM unit := setIsAnalyzing false.

(** The [catch] block. *)
Definition decipher_catch (err : Exn) : PM unit :=
  core (addLog host "ERR" "QML Secure Link Timeout." None).

(** The handler up to the [await] of [fetch]: [true] when it is suspended
    there. *)
Definition runDecipher_until_fetch : PM bool :=
  mounted <- core (host_read (videoRef_current host)) ;;
  p <- get_page ;;
  if negb mounted || isAnalyzing p then retP false
  else
    setIsAnalyzing true ;;
    core (addLog host "QML" "Aligning Spectrum Nodes..." None) ;;
    data <- core (host_read (toDataURL host)) ;;
    p <- get_page ;;
    send_prompt (mkPrompt (activeMode (app (sys p))) (qubitWeight (app (sys p)))
                          (after_first_comma data)) ;;
    retP true.

(** The handler from the moment [fetch] settles, [body] being what
    [response.json()] gives. *)
Definition runDecipher_after_fetch (fetched : Promise (Promise json_value)) : PM unit :=
  settle_prompt ;;
  try_catch_finally
    (body <- awaitP fetched ;;
     data <- awaitP body ;;
     candidates <- get_candidates data ;;
     setAnalysis (or_else (answer_text candidates) (JsString "Signal divergence.")) ;;
     core (addLog host "AI" "Spectrum Sync Verified." None))
    decipher_catch
    decipher_finally.

Definition runDecipher (fetched : Promise (Promise json_value)) : PM unit :=
  suspended <- runDecipher_until_fetch ;;
  if suspended then runDecipher_after_fetch fetched else retP tt.

(** ** The gallery (lines 442-451) *)

(** The Purge button of the photo with identifier [id]. *)
Definition purge (id : JS.number) : PM unit :=
  core (setPhotos (filter (fun x => number_differs (Photo.id x) id))).

(** ** The camera (lines 172-198) *)

(** [startCamera] up to the [await] of [getUserMedia]; [mode] is the
    facing mode of the render the callback belongs to. *)
Definition startCamera_until_media (mode : string) : PM unit :=
  stop_current ;;
  ask_media mode.

(** The [catch] of [startCamera]. *)
Definition startCamera_catch (err : Exn) : PM unit :=
  core (addLog host "ERR" "Optic sensory blocked." None).

(** [startCamera] from the moment its [getUserMedia], the [i]-th of those
    waiting, settles, up to the [await] of [play] or to the end.  [granted]
    is the stream or the refusal. *)
Definition startCamera_after_media (i : nat) (granted : Promise nat) : PM unit :=
  p <- get_page ;;
  let mode := nth i (asking (camera p)) "" in
  settle_media i ;;
  try_catchP
    (newStream <- awaitP granted ;;
     set_currentStream (Some newStream) ;;
     setStream (Some newStream) ;;
     mounted <- core (host_read (videoRef_current host)) ;;
     if mounted
     then set_srcObject (Some newStream) ;; ask_play mode
     else core (addLog host "HW" ("Optic Link: " ++ mode) None))
    startCamera_catch.

(** [startCamera] from the moment its [play], the [j]-th of those waiting,
    settles. *)
Definition startCamera_after_play (j : nat) (played : Promise unit) : PM unit :=
  p <- get_page ;;
  let mode := nth j (playing (camera p)) "" in
  settle_play j ;;
  try_catchP
    (awaitP played ;;
     core (addLog host "HW" ("Optic Link: " ++ mode) None))
    startCamera_catch.

(** One whole call of [startCamera] with nothing in between: the call is
    the last of those waiting. *)
Definition startCamera (granted : Promise nat) (played : Promise unit) : PM unit :=
  p <- get_page ;;
  startCamera_until_media (facingMode (camera p)) ;;
  startCamera_after_media (List.length (asking (camera p))) granted ;;
  q <- get_page ;;
  if Nat.ltb (List.length (playing (camera p))) (List.length (playing (camera q)))
  then startCamera_after_play (List.length (playing (camera p))) played
  else retP tt.

(** The effect of lines 195-198: the clean-up of the run before, then the
    body. *)
Definition camera_effect : PM unit :=
  stop_current ;;
  p <- get_page ;;
  if negb (isLocked p) && negb (isBooting p)
  then startCamera_until_media (facingMode (camera p))
  else retP tt.

(** The render after an event: the effect runs when one of [isLocked],
    [isBooting] and [facingMode] is not what it was at the render
    [before]; [startCamera], the fourth dependency, changes with
    [facingMode] only. *)
Definition after_render (before : Page) : PM unit :=
  p <- get_page ;;
  if Bool.eqb (isLocked p) (isLocked before)
     && Bool.eqb (isBooting p) (isBooting before)
     && (facingMode (camera p) =? facingMode (camera before))%string
  then retP tt
  else camera_effect.

(** The camera switch (line 426). *)
Definition flip_facing : PM unit :=
  setFacingMode (fun mode => if (mode =? "user")%string then "environment" else "user").

(** ** The whole page as a transition system *)

Definition handleP (ev : PageEvent) : PM unit :=
  match ev with
  | Core e => core (handle host e)
  | PinPressed num => handlePinEntry num
  | BootTimerFired => boot_done
  | DecipherClicked => runDecipher_until_fetch ;; retP tt
  | DecipherSettled r => runDecipher_after_fetch r
  | AnalysisClosed => setAnalysis (JsString "")
  | PurgeClicked id => purge id
  | FacingFlipped => flip_facing
  | MediaSettled i granted => startCamera_after_media i granted
  | PlaySettled j played => startCamera_after_play j played
  end.

(** The handler of an event that can happen. *)
Definition handled (ev : PageEvent) (p : Page) : option Page :=
  if enabledP ev p then Some (execP (handleP ev) p) else None.

(** One step of the page: the handler, then the render and its effect. *)
Definition stepP (ev : PageEvent) (p : Page) : option Page :=
  match handled ev p with
  | Some q => Some (execP (after_render p) q)
  | None => None
  end.

Fixpoint runP (evs : list PageEvent) (p : Page) : option Page :=
  match evs with
  | [] => Some p
  | ev :: rest =>
      match stepP ev p with
      | Some p1 => runP rest p1
      | None => None
      end
  end.

End Shell.

(** * Vocabulary of the statements about the whole page *)

(** ** The link as an automaton *)

(** The part of the page the link and the job queue consist of. *)
Record Link : Type := mkLink {
  link_status : Status;
  link_token : string;
  link_inflight : list Request;
  link_timers : list Timer
}.

Definition link_of (s : Sys) : Link :=
  mkLink (hardwareStatus (app s)) (ibmToken (app s)) (inflight s) (timers s).

(** What an event does to the link, whatever the rest of the page holds. *)
Definition link_step (ev : Event) (l : Link) : Link :=
  match ev with
  | TokenTyped v => mkLink (link_status l) v (link_inflight l) (link_timers l)
  | LinkClicked =>
      if (link_token l =? "")%string then l
      else mkLink AUTHENTICATING (link_token l)
                  (link_inflight l ++ [mkRequest handshake_url (link_token l)])%list
                  (link_timers l)
  | FetchSettled r =>
      mkLink (match granted r with Some _ => READY | None => DISCONNECTED end)
             (link_token l) (tl (link_inflight l)) (link_timers l)
  | TeleportClicked =>
      if Status_eqb (link_status l) READY
      then mkLink BUSY (link_token l) (link_inflight l)
                  (link_timers l ++ [mkTimer TeleportResolved 3000])%list
      else mkLink (link_status l) (link_token l) (link_inflight l)
                  (link_timers l ++ [mkTimer LocalCollapsed 1500])%list
  | TimerFired i =>
      match nth_error (link_timers l) i with
      | None => l
      | Some t =>
          mkLink (match callback t with
                  | TeleportResolved => READY
                  | LocalCollapsed => link_status l
                  end)
                 (link_token l) (link_inflight l) (without i (link_timers l))
      end
  | CaptureClicked | ClearClicked | ModeSelected _ => l
  end.

Definition remote_pending (ts : list Timer) : nat :=
  List.length (filter (fun t => match callback t with TeleportResolved => true | _ => false end) ts).

(** The shape the link keeps on every run: a request is in flight exactly
    while the status is AUTHENTICATING, and then only one; no timer is
    pending unless the status is READY or BUSY; one remote timer is pending
    exactly while the status is BUSY. *)
Definition link_ok (l : Link) : Prop :=
  match link_status l with
  | DISCONNECTED => link_inflight l = [] /\ link_timers l = []
  | AUTHENTICATING => List.length (link_inflight l) = 1%nat /\ link_timers l = []
  | READY => link_inflight l = [] /\ remote_pending (link_timers l) = 0%nat
  | BUSY => link_inflight l = [] /\ remote_pending (link_timers l) = 1%nat
  end.

Definition linked (st : Status) : bool :=
  match st with
  | READY | BUSY => true
  | _ => false
  end.



(** [enabled], read off the link. *)
Definition link_enabled (ev : Event) (l : Link) : bool :=
  match ev with
  | TokenTyped _ =>
      Status_eqb (link_status l) DISCONNECTED || Status_eqb (link_status l) AUTHENTICATING
  | LinkClicked => Status_eqb (link_status l) DISCONNECTED
  | FetchSettled _ => negb (Nat.eqb (List.length (link_inflight l)) 0)
  | TeleportClicked => Status_eqb (link_status l) READY || Status_eqb (link_status l) BUSY
  | TimerFired i => Nat.ltb i (List.length (link_timers l))
  | CaptureClicked | ClearClicked | ModeSelected _ => true
  end.

Definition is_remote (t : Timer) : bool :=
  match callback t with
  | TeleportResolved => true
  | LocalCollapsed => false
  end.

(** ** Handlers that return, properties that are kept *)

(** [c] keeps the property [P] of the page. *)
Definition preserves (P : Sys -> Prop) {A} (c : M A) : Prop :=
  forall s, P s -> P (snd (c s)).

(** [c] never throws. *)
Definition safe {A} (c : M A) : Prop :=
  forall s, exists a, fst (c s) = inr a.

Definition log_bounded (s : Sys) : Prop := (List.length (logs (app s)) <= 30)%nat.

(** ** The published cells *)

(** A register as the callbacks make it. *)
Definition is_register (reg : list Z) : Prop :=
  List.length reg = 10%nat /\ Forall is_bit reg.

(** A bit string and a weight text that belong together: those of one
    register, or those the page starts with. *)
Definition paired (bits weight : string) : Prop :=
  exists reg,
    is_register reg /\ bits = JS.join_empty reg /\
    (weight = JS.toFixed (deriveWeight reg) 4 \/
     (reg = repeat 0 10 /\ weight = "0.5000")).

(** The published cells agree with each other, and so do the two texts of
    every photo. *)
Definition coherent (a : App) : Prop :=
  is_register (localRegister a) /\
  lastBitstring a = JS.join_empty (localRegister a) /\
  (qubitWeight a = deriveWeight (localRegister a) \/
   (localRegister a = repeat 0 10 /\ qubitWeight a = JS.Fin (1 # 2))) /\
  Forall (fun p => paired (Photo.bits p) (Photo.weight p)) (photos a).

(** The eleven weights, by the number of 1-bits, in ten-thousandths. *)
Definition weight_table : list Z := [0; 899; 1797; 2696; 3595; 4493; 5392; 6291; 7189; 8088; 8987].

(** ** The keys of the lock pad *)

(** A key of the lock pad. *)
Definition is_key (num : Z) : Prop := 0 <= num <= 9.

(** What one key does to the buffer and to the booting flag. *)
Definition key_step (st : string * bool) (num : Z) : string * bool :=
  let (buffer, booting) := st in
  if Nat.ltb (String.length buffer) 4 then
    let nextPin := buffer ++ JS.string_of_Z num in
    if (nextPin =? ACCESS_PIN)%string then (nextPin, true)
    else if Nat.eqb (String.length nextPin) 4 then ("", booting)
    else (nextPin, booting)
  else st.

(** The two cells a key can change. *)
Definition pad_of (p : Page) : string * bool := (pinBuffer p, isBooting p).

(** The [k]-th group of four keys. *)
Definition group (k : nat) (keys : list Z) : list Z := firstn 4 (skipn (4 * k) keys).

(** The digit a key appends to the buffer. *)
Definition key_char (num : Z) : ascii := ascii_of_N (48 + Z.to_N num).

(** ** The cells of the lock pad and of the decipher call *)

(** The cells of the lock pad. *)
Definition pad_cells (p : Page) : string * bool * bool * nat :=
  (pinBuffer p, isLocked p, isBooting p, boot_timers p).

(** The cells of the decipher call. *)
Definition decipher_cells (p : Page) : json_value * bool * list Prompt :=
  (analysis p, isAnalyzing p, deciphering p).

(** The keys pressed in a run. *)
Fixpoint keys_of (evs : list PageEvent) : list Z :=
  match evs with
  | [] => []
  | PinPressed num :: rest => num :: keys_of rest
  | _ :: rest => keys_of rest
  end.

(** The PIN has been accepted. *)
Definition accepted (p : Page) : bool := isBooting p || negb (isLocked p).

(** The lock pad on every run: behind the lock screen the buffer is short
    and no boot timer runs; the boot screen has the PIN in the buffer and
    one boot timer; the main screen has the PIN in the buffer and none. *)
Definition pad_ok (p : Page) : Prop :=
  match isLocked p, isBooting p with
  | true, false => (String.length (pinBuffer p) < 4)%nat /\ boot_timers p = 0%nat
  | true, true => pinBuffer p = ACCESS_PIN /\ boot_timers p = 1%nat
  | false, false => pinBuffer p = ACCESS_PIN /\ boot_timers p = 0%nat
  | false, true => False
  end.

(** ** Answers of the decipher service *)

(** The JSON of the answer when there is one and it is not [null]. *)
Definition answered (fetched : Promise (Promise json_value)) : option json_value :=
  match fetched with
  | Fulfils (Fulfils JsNull) => None
  | Fulfils (Fulfils data) => Some data
  | _ => None
  end.

Definition fallback_text : json_value := JsString "Signal divergence.".

(** The answer of the service in its regular shape, carrying [text]. *)
Definition regular_answer (text : json_value) : json_value :=
  JsObject [("candidates",
             JsArray [JsObject [("content",
                                 JsObject [("parts", JsArray [JsObject [("text", text)]])])]])].

(** The page but for the count of host reads. *)
Definition cells (p : Page) :=
  (camera p, app (sys p), timers (sys p), inflight (sys p),
   (pinBuffer p, isLocked p, isBooting p, boot_timers p),
   (analysis p, isAnalyzing p, deciphering p)).

(** One request is out exactly while the flag is up. *)
Definition decipher_ok (p : Page) : Prop :=
  (isAnalyzing p = true /\ List.length (deciphering p) = 1%nat) \/
  (isAnalyzing p = false /\ deciphering p = []).

(** ** What the rest of the page may do to the core *)

(** The cells of the core other than the photos and the log. *)
Definition core_cells (s : Sys) :=
  (link_of s, published (app s), ibmAccessToken (app s), activeMode (app s),
   isTeleporting (app s)).

(** What a handler outside the core may do to the core: log, read the
    host, drop photos. *)
Definition quiet (s s' : Sys) : Prop :=
  core_cells s' = core_cells s /\
  (exists keep, photos (app s') = filter keep (photos (app s))) /\
  (log_bounded s -> log_bounded s').

(** What the core keeps on every run of the page. *)
Definition core_ok (s : Sys) : Prop :=
  link_ok (link_of s) /\ coherent (app s) /\ log_bounded s.

(** Nothing but the log and the lock pad has changed since the start. *)
Definition untouched (p : Page) : Prop :=
  core_cells (sys p) = core_cells initialSys /\
  photos (app (sys p)) = [] /\
  analysis p = JsString "" /\ isAnalyzing p = false /\ deciphering p = [] /\
  camera p = camera initialPage.

(** ** The parity label of a photo (line 447) *)

Definition base64_alphabet : string :=
  "ABCDEFGHIJKLMNOPQRSTUVWXYZabcdefghijklmnopqrstuvwxyz0123456789+/".

Definition base64_digit (n : N) : ascii :=
  match String.get (N.to_nat n) base64_alphabet with
  | Some c => c
  | None => "="%char
  end.

(** Base64 of a sequence of bytes, with padding. *)
Fixpoint base64 (bytes : list N) : string :=
  match bytes with
  | [] => ""
  | [a] =>
      let n := (a * 65536)%N in
      String (base64_digit (n / 262144)) (String (base64_digit ((n / 4096) mod 64)) "==")
  | [a; b] =>
      let n := (a * 65536 + b * 256)%N in
      String (base64_digit (n / 262144))
        (String (base64_digit ((n / 4096) mod 64))
           (String (base64_digit ((n / 64) mod 64)) "="))
  | a :: b :: c :: rest =>
      let n := (a * 65536 + b * 256 + c)%N in
      String (base64_digit (n / 262144))
        (String (base64_digit ((n / 4096) mod 64))
           (String (base64_digit ((n / 64) mod 64))
              (String (base64_digit (n mod 64)) (base64 rest))))
  end.

(** [btoa(s)]; every character of a [string] is below 256, so the call
    never throws. *)
Definition btoa (s : string) : string :=
  base64 (map N_of_ascii (list_ascii_of_string s)).

(** [btoa(p.bits).substring(0, 16)]. *)
Definition parity_label (bits : string) : string := JS.substring0 16 (btoa bits).

(** All registers of [n] bits. *)
Fixpoint registers (n : nat) : list (list Z) :=
  match n with
  | O => [[]]
  | S k => flat_map (fun r => [0 :: r; 1 :: r]) (registers k)
  end.

(** Reading a label back. *)
Fixpoint index_in (c : ascii) (s : string) (i : N) : option N :=
  match s with
  | EmptyString => None
  | String d r => if Ascii.eqb c d then Some i else index_in c r (i + 1)%N
  end.

Definition digit_value (c : ascii) : N :=
  match index_in c base64_alphabet 0 with
  | Some i => i
  | None => 0
  end.

Fixpoint unbase64 (l : list ascii) : list N :=
  match l with
  | a :: b :: c :: d :: rest =>
      let n := (digit_value a * 262144 + digit_value b * 4096
                + digit_value c * 64 + digit_value d)%N in
      let bytes := [n / 65536; (n / 256) mod 256; n mod 256]%N in
      let kept := if Ascii.eqb c "=" then firstn 1 bytes
                  else if Ascii.eqb d "=" then firstn 2 bytes else bytes in
      (kept ++ unbase64 rest)%list
  | _ => []
  end.

Definition read_label (label : string) : list Z :=
  map (fun b => Z.of_N b - 48) (unbase64 (list_ascii_of_string label)).

Fixpoint list_Z_eqb (a b : list Z) : bool :=
  match a, b with
  | [], [] => true
  | x :: a', y :: b' => (x =? y) && list_Z_eqb a' b'
  | _, _ => false
  end.

(** ** Streams of the camera *)

(** The streams granted in a run. *)
Fixpoint granted_in (evs : list PageEvent) : list nat :=
  match evs with
  | [] => []
  | MediaSettled _ (Fulfils n) :: rest => n :: granted_in rest
  | _ :: rest => granted_in rest
  end.

(** The tracks of stream [n] have been stopped, or [n] is the stream a
    later call will stop. *)
Definition held (c : Camera) (n : nat) : Prop :=
  currentStream c = Some n \/ In n (stopped c).

(** At most one call of [getUserMedia] waits at any moment of the run. *)
Fixpoint calm (host : Host) (evs : list PageEvent) (p : Page) : bool :=
  match evs with
  | [] => true
  | ev :: rest =>
      match stepP host ev p with
      | Some p1 => Nat.leb (List.length (asking (camera p1))) 1 && calm host rest p1
      | None => false
      end
  end.

(** What the camera keeps while the calls do not overlap. *)
Definition camera_calm (c : Camera) : Prop :=
  (List.length (asking c) <= 1)%nat /\
  (asking c <> [] -> forall n, currentStream c = Some n -> In n (stopped c)).

(** The clean-up of the effect, on the camera alone. *)
Definition stopped_current (c : Camera) : Camera :=
  match currentStream c with
  | Some n => mkCamera (facingMode c) (stream c) (currentStream c)
                       (srcObject c) (n :: stopped c) (asking c) (playing c)
  | None => c
  end.

(** What the render after an event does to the camera. *)
Definition rendered (before after : Page) : Camera :=
  let c := camera after in
  if Bool.eqb (isLocked after) (isLocked before)
     && Bool.eqb (isBooting after) (isBooting before)
     && (facingMode c =? facingMode (camera before))%string
  then c
  else
    let c1 := stopped_current c in
    if negb (isLocked after) && negb (isBooting after)
    then
      let c2 := stopped_current c1 in
      mkCamera (facingMode c2) (stream c2) (currentStream c2) (srcObject c2)
               (stopped c2) (asking c2 ++ [facingMode c2]) (playing c2)
    else c1.

(** What the handler of an event does to the camera. *)
Definition camera_handled (host : Host) (ev : PageEvent) (p : Page) : Camera :=
  let c := camera p in
  match ev with
  | FacingFlipped =>
      mkCamera (if (facingMode c =? "user")%string then "environment" else "user")
               (stream c) (currentStream c) (srcObject c) (stopped c) (asking c) (playing c)
  | MediaSettled i (Fulfils n) =>
      if videoRef_current host (reads (sys p))
      then mkCamera (facingMode c) (Some n) (Some n) (Some n) (stopped c)
                    (without i (asking c)) (playing c ++ [nth i (asking c) ""])
      else mkCamera (facingMode c) (Some n) (Some n) (srcObject c) (stopped c)
                    (without i (asking c)) (playing c)
  | MediaSettled i Rejects =>
      mkCamera (facingMode c) (stream c) (currentStream c) (srcObject c) (stopped c)
               (without i (asking c)) (playing c)
  | PlaySettled j _ =>
      mkCamera (facingMode c) (stream c) (currentStream c) (srcObject c) (stopped c)
               (asking c) (without j (playing c))
  | _ => c
  end.

(** ** The interrupted pipeline *)

(** No entry of the log is the one the [catch] of [executeRealTeleport]
    writes (line 138). *)
Definition uninterrupted (s : Sys) : Prop :=
  Forall (fun e => Log.msg e <> "Job Pipeline Interrupted.") (logs (app s)).

(** ** Concrete runs of the page, for the examples *)

(** A host with no video element. *)
Definition dark_host : Host :=
  mkHost (fun _ => 1700000000000) (fun _ => 3 # 4) (fun _ => "10:42:07 PM")
         (fun _ => "data:image/jpeg;base64,AAAA") (fun _ => false).

(** The PIN, and the end of the boot. *)
Definition unlocking : list PageEvent :=
  [PinPressed 5; PinPressed 2; PinPressed 8; PinPressed 0; BootTimerFired].

(** Unlocked and linked to the backend. *)
Definition linking : list PageEvent :=
  (unlocking ++ [Core (TokenTyped "abc"); Core LinkClicked;
                 Core (FetchSettled (answer_granted "sess-1"))])%list.

(** A remote job from the click to its callback, on a linked page. *)
Definition remote_run : list PageEvent :=
  (linking ++ [Core TeleportClicked; Core (TimerFired 0)])%list.

(** Two jobs and a capture after each. *)
Definition working : list PageEvent :=
  (linking ++ [Core TeleportClicked; Core (TimerFired 0); Core CaptureClicked;
               Core TeleportClicked; Core (TimerFired 0); Core CaptureClicked])%list.

(** The camera switched while the first call still waits. *)
Definition overlapping : list PageEvent := (unlocking ++ [FacingFlipped])%list.

(** The camera switched after the first call is through. *)
Definition in_turn : list PageEvent :=
  (unlocking ++ [MediaSettled 0 (Fulfils 1%nat); PlaySettled 0 (Fulfils tt); FacingFlipped;
                 MediaSettled 0 (Fulfils 2%nat)])%list.

(** The page at the end of a run. *)
Definition arrive (host : Host) (evs : list PageEvent) (p : Page) : Page :=
  match runP host evs p with
  | Some q => q
  | None => p
  end.

Definition reached (host : Host) (evs : list PageEvent) : Page := arrive host evs initialPage.

(** * Proof tools *)

Ltac open_sys s :=
  let a := fresh "a" in
  destruct s as [a ? ? ?]; destruct a; cbn in *.

(** Every way the promise of [fetch] can settle. *)
Ltac each_answer fetched :=
  let k := fresh "k" in
  let code := fresh "code" in
  let js := fresh "js" in
  let tx := fresh "tx" in
  destruct fetched as [|[k code js tx]];
  [ | destruct k; [ destruct js as [|[|[| | |]]] | destruct tx ] ].

Ltac nonempty_token H :=
  match type of H with
  | ?tok <> _ =>
      let c := fresh "c" in
      let rest := fresh "rest" in
      destruct tok as [|c rest]; [contradiction H; reflexivity|]
  end.

(** * The event log

    What one [addLog] call does to the page. *)
Lemma addLog_run host type msg details s :
  addLog host type msg details s =
  (inr tt,
   mkSys (mkApp (ibmToken (app s)) (ibmAccessToken (app s)) (hardwareStatus (app s))
            (photos (app s)) (localRegister (app s)) (qubitWeight (app s))
            (lastBitstring (app s)) (activeMode (app s)) (isTeleporting (app s))
            (JS.slice0 30
               (Log.mk (JS.add (JS.of_Z (Date_now host (reads s)))
                               (JS.Fin (Math_random host (S (reads s)))))
                       type msg details
                       (JS.before_space (toLocaleTimeString host (S (S (reads s)))))
                :: logs (app s))))
         (timers s) (inflight s) (S (S (S (reads s))))).
Proof. reflexivity. Qed.

Lemma firstn_within {A} (n : nat) (l : list A) : (List.length (firstn n l) <= n)%nat.
Proof. rewrite length_firstn. lia. Qed.

Lemma firstn_full_removelast {A} (l : list A) (n : nat) :
  List.length l = S n -> firstn n l = removelast l.
Proof.
  intros H. rewrite removelast_firstn_len, H. reflexivity.
Qed.

Lemma addLogs_bounded host calls : forall s,
  (List.length (logs (app s)) <= 30)%nat ->
  (List.length (logs (app (exec (addLogs host calls) s))) <= 30)%nat.
Proof.
  induction calls as [|[[ty m] d] rest IH]; intros s Hs.
  - exact Hs.
  - unfold exec in *. cbn [addLogs]. unfold bind. rewrite addLog_run.
    apply IH. cbn. apply firstn_within.
Qed.

Lemma slice0_cons {A} (n : nat) (x : A) (l : list A) :
  JS.slice0 (S n) (x :: l) = x :: JS.slice0 n l.
Proof. reflexivity. Qed.

Lemma slice0_within {A} (n : nat) (l : list A) : (List.length (JS.slice0 n l) <= n)%nat.
Proof. apply firstn_within. Qed.

(** C8: however many [addLog] calls are made from a log within capacity
    (the initial log has one entry), the log holds at most 30 entries; one
    more call puts its entry first, keeps the 29 newest of the others, and
    at capacity drops exactly the oldest. *)
Theorem log_capacity host (calls : list LogCall) (type msg : string) (details : option string) (s : Sys) :
  (List.length (logs (app s)) <= 30)%nat ->
  let s1 := exec (addLogs host calls) s in
  let s2 := exec (addLog host type msg details) s1 in
  (List.length (logs (app s1)) <= 30)%nat /\
  (List.length (logs (app s2)) <= 30)%nat /\
  exists e,
    is_entry type msg details e /\
    logs (app s2) = e :: JS.slice0 29 (logs (app s1)) /\
    ((List.length (logs (app s1)) < 30)%nat -> logs (app s2) = e :: logs (app s1)) /\
    ((List.length (logs (app s1)) = 30)%nat -> logs (app s2) = e :: removelast (logs (app s1))).
Proof.
  intros Hs s1 s2.
  assert (H1 : (List.length (logs (app s1)) <= 30)%nat) by (apply addLogs_bounded; exact Hs).
  split; [exact H1|].
  subst s2. unfold exec. rewrite addLog_run. cbn [snd app logs].
  split; [apply slice0_within|].
  rewrite (slice0_cons 29).
  eexists (Log.mk _ type msg details _). split; [repeat split|].
  split; [reflexivity|]. split; intros H; f_equal; unfold JS.slice0.
  - apply firstn_all2. lia.
  - apply firstn_full_removelast. exact H.
Qed.

(** * The handshake *)

Lemma substring0_length (n : nat) (s : string) :
  (String.length (JS.substring0 n s) <= n)%nat.
Proof.
  unfold JS.substring0. revert s.
  induction n as [|n IH]; intros [|c s]; cbn; try lia.
  specialize (IH s). lia.
Qed.

Lemma substring0_prefix (n : nat) (s : string) :
  String.prefix (JS.substring0 n s) s = true.
Proof.
  unfold JS.substring0. revert s.
  induction n as [|n IH]; intros [|c s]; cbn; try reflexivity.
  rewrite IH. destruct (ascii_dec c c); [reflexivity | congruence].
Qed.

Lemma In_slice0 {A} (n : nat) (x : A) (l : list A) : In x (JS.slice0 n l) -> In x l.
Proof.
  unfold JS.slice0. revert l.
  induction n as [|n IH]; intros [|y l]; cbn; try tauto.
  intros [H|H]; [left; exact H | right; apply IH; exact H].
Qed.

(** The handler with an empty credential. *)
Lemma connectToIBM_empty host (fetched : Promise Response) (s : Sys) :
  ibmToken (app s) = "" ->
  connectToIBM host fetched s =
  (inr tt, exec (addLog host "ERR" "Qiskit Token Required." None) s).
Proof.
  intros H.
  cbv beta iota delta [connectToIBM connectToIBM_until_fetch bind get_app].
  rewrite H. reflexivity.
Qed.

Lemma connectToIBM_sent host (fetched : Promise Response) (s : Sys) :
  ibmToken (app s) <> "" ->
  connectToIBM host fetched s = connectToIBM_after_fetch host fetched (awaiting host s).
Proof.
  intros H. apply String.eqb_neq in H.
  cbv beta iota delta [connectToIBM connectToIBM_until_fetch bind get_app].
  rewrite H. reflexivity.
Qed.

Lemma after_fetch_granted host (fetched : Promise Response) (id : string) (s : Sys) :
  granted fetched = Some id ->
  connectToIBM_after_fetch host fetched s =
  (inr tt,
   exec (addLog host "IBM" "Authentication Successful."
           (Some ("Access_ID: " ++ JS.substring0 8 id ++ "...")))
     (exec (setHardwareStatus READY)
        (exec (setIbmAccessToken (JS.VString id)) (exec settle_request s)))).
Proof.
  intros H. each_answer fetched; try discriminate H.
  injection H as ->. reflexivity.
Qed.

Lemma after_fetch_rejected host (r : Response) (body : string) (s : Sys) :
  ok r = false -> text r = Fulfils body ->
  connectToIBM_after_fetch host (Fulfils r) s =
  (inr tt,
   exec (setHardwareStatus DISCONNECTED)
     (exec (addLog host "ERR" ("IBM Rejected Token [" ++ JS.string_of_Z (status r) ++ "]")
              (Some (JS.substring0 50 body)))
        (exec settle_request s))).
Proof.
  destruct r as [k code js tx]. cbn [ok text status]. intros -> ->. reflexivity.
Qed.

(** Every answer that is neither a success nor a rejection with a readable
    body ends in the [catch] block. *)
Lemma after_fetch_blocked host (fetched : Promise Response) :
  granted fetched = None ->
  (forall r body, fetched = Fulfils r -> ok r = false -> text r <> Fulfils body) ->
  exists v, forall s,
    connectToIBM_after_fetch host fetched s =
    (inr tt, blocked host (stored v (exec settle_request s))).
Proof.
  intros Hg Hr. each_answer fetched.
  - exists None; intros s; lazy; reflexivity.
  - exists None; intros s; lazy; reflexivity.
  - exists None; intros s; lazy; reflexivity.
  - exists (Some JS.VUndefined); intros s; lazy; reflexivity.
  - exists (Some JS.VNull); intros s; lazy; reflexivity.
  - discriminate Hg.
  - exists (Some JS.VOther); intros s; lazy; reflexivity.
  - exists None; intros s; lazy; reflexivity.
  - exfalso. eapply Hr; reflexivity.
Qed.

Lemma rejected_or_not (fetched : Promise Response) :
  (exists r body, fetched = Fulfils r /\ ok r = false /\ text r = Fulfils body)
  \/ (forall r body, fetched = Fulfils r -> ok r = false -> text r <> Fulfils body).
Proof.
  destruct fetched as [|[k code js [|body]]].
  - right. intros r body H. discriminate H.
  - right. intros r body H. injection H as <-. cbn. intros _ H. discriminate H.
  - destruct k.
    + right. intros r b H. injection H as <-. cbn. intros H. discriminate H.
    + left. eexists _, body. repeat split.
Qed.

Lemma rejected_not_granted (r : Response) : ok r = false -> granted (Fulfils r) = None.
Proof. intros H. unfold granted. rewrite H. reflexivity. Qed.

Lemma addLog_logs host type msg details (s : Sys) :
  exists e, is_entry type msg details e /\
            logs (app (exec (addLog host type msg details) s)) = e :: JS.slice0 29 (logs (app s)).
Proof.
  unfold exec. rewrite addLog_run. cbn [snd app logs]. rewrite (slice0_cons 29).
  eexists (Log.mk _ _ _ _ _). split; [repeat split | reflexivity].
Qed.

Lemma blocked_status host (s : Sys) : hardwareStatus (app (blocked host s)) = DISCONNECTED.
Proof. reflexivity. Qed.

Lemma blocked_logged host (s : Sys) : unreachable_logged (logs (app (blocked host s))).
Proof.
  unfold blocked.
  destruct (addLog_logs host "DEBUG" "Browser blocked cross-origin request to IBM Servers." None
              (exec (addLog host "ERR" "IBM Bridge Blocked (CORS/Network)" None)
                 (exec (setHardwareStatus DISCONNECTED) s))) as (e1 & H1 & ->).
  destruct (addLog_logs host "ERR" "IBM Bridge Blocked (CORS/Network)" None
              (exec (setHardwareStatus DISCONNECTED) s)) as (e2 & H2 & ->).
  rewrite (slice0_cons 28). eexists e1, e2, _. split; [reflexivity | auto].
Qed.

(** C6: with an empty credential the handler logs the
    missing-credential error and returns; the status, the credential, the
    stored identifier and every other cell but the log are as before, no
    request is sent and no timer is set. *)
Theorem missing_credential host (fetched : Promise Response) (s : Sys) :
  ibmToken (app s) = "" ->
  let s' := exec (connectToIBM host fetched) s in
  returns (connectToIBM host fetched) s /\
  (exists e, is_entry "ERR" "Qiskit Token Required." None e /\
             logs (app s') = JS.slice0 30 (e :: logs (app s))) /\
  link_session (app s') = link_session (app s) /\
  published (app s') = published (app s) /\
  photos (app s') = photos (app s) /\
  activeMode (app s') = activeMode (app s) /\
  isTeleporting (app s') = isTeleporting (app s) /\
  timers s' = timers s /\
  inflight s' = inflight s.
Proof.
  intros Htok s'. subst s'. unfold returns, exec.
  rewrite (connectToIBM_empty host fetched s Htok). unfold exec. rewrite addLog_run.
  cbn [fst snd app timers inflight logs].
  split; [exists tt; reflexivity|].
  split; [eexists (Log.mk _ _ _ _ _); split; [repeat split | reflexivity]|].
  repeat split.
Qed.

(** C5: when the credential is not empty and the answer is a success
    (an [ok] response whose body carries a string [id]), the handler
    returns with that identifier stored, the status READY, and the success
    entry first in the log, showing the first 8 characters of the
    identifier. *)
Theorem handshake_granted host (s : Sys) (resp : Response) (id : string) :
  ibmToken (app s) <> "" ->
  granted (Fulfils resp) = Some id ->
  let s' := exec (connectToIBM host (Fulfils resp)) s in
  returns (connectToIBM host (Fulfils resp)) s /\
  ibmAccessToken (app s') = JS.VString id /\
  hardwareStatus (app s') = READY /\
  exists e rest,
    logs (app s') = e :: rest /\
    is_entry "IBM" "Authentication Successful."
             (Some ("Access_ID: " ++ JS.substring0 8 id ++ "...")) e.
Proof.
  intros Htok Hg s'. subst s'. unfold returns, exec.
  rewrite (connectToIBM_sent host _ s Htok), (after_fetch_granted host _ id _ Hg).
  unfold exec. rewrite addLog_run. cbn [fst snd app logs ibmAccessToken hardwareStatus].
  rewrite (slice0_cons 29).
  split; [exists tt; reflexivity|].
  split; [reflexivity|]. split; [reflexivity|].
  eexists (Log.mk _ _ _ _ _), _. split; [reflexivity|]. repeat split.
Qed.

(** C4: when the credential is not empty and the answer is not a
    success, the handler returns (nothing is thrown to the caller) with the
    status DISCONNECTED; a rejection with a readable body is logged with the
    status code and the first 50 characters of the body, a transport failure
    with the two entries of the blocked bridge, and every other failure in
    one of these two ways. *)
Theorem handshake_refused host (s : Sys) (fetched : Promise Response) :
  ibmToken (app s) <> "" ->
  granted fetched = None ->
  let s' := exec (connectToIBM host fetched) s in
  returns (connectToIBM host fetched) s /\
  hardwareStatus (app s') = DISCONNECTED /\
  (forall r body,
      fetched = Fulfils r -> ok r = false -> text r = Fulfils body ->
      rejection_logged (status r) body (logs (app s')) /\
      (String.length (JS.substring0 50 body) <= 50)%nat) /\
  (fetched = Rejects -> unreachable_logged (logs (app s'))) /\
  ((exists r body, fetched = Fulfils r /\ ok r = false /\ text r = Fulfils body)
   \/ unreachable_logged (logs (app s'))).
Proof.
  intros Htok Hg s'. subst s'. unfold returns, exec.
  rewrite (connectToIBM_sent host fetched s Htok).
  destruct (rejected_or_not fetched) as [(r & body & -> & Hok & Htx) | Hnot].
  - rewrite (after_fetch_rejected host r body _ Hok Htx). cbn [fst snd].
    split; [exists tt; reflexivity|]. split; [reflexivity|].
    split; [|split; [intros H; discriminate H | left; exists r, body; auto]].
    intros r0 body0 Hr _ Htx0. injection Hr as <-.
    rewrite Htx in Htx0. injection Htx0 as <-.
    split; [|apply substring0_length].
    change (logs (app (exec (setHardwareStatus DISCONNECTED) ?x))) with (logs (app x)).
    destruct (addLog_logs host "ERR" ("IBM Rejected Token [" ++ JS.string_of_Z (status r) ++ "]")
                (Some (JS.substring0 50 body)) (exec settle_request (awaiting host s)))
      as (e & He & ->).
    eexists e, _. split; [reflexivity | exact He].
  - destruct (after_fetch_blocked host fetched Hg Hnot) as (v & Hrun).
    rewrite Hrun. cbn [fst snd].
    split; [exists tt; reflexivity|]. split; [apply blocked_status|].
    split; [|split; [intros _; apply blocked_logged | right; apply blocked_logged]].
    intros r body Hr Hok Htx. exfalso. exact (Hnot r body Hr Hok Htx).
Qed.

(** C9, as stated, fails: a server that repeats the credential in the
    body of its rejection gets it into the log, which did not mention it. *)
Lemma credential_echoed_into_log :
  let s := with_token "tok123" initialSys in
  let s' := exec (connectToIBM still_host (answer_rejected 401 "tok123 is not valid")) s in
  ibmToken (app s) = "tok123" /\
  forallb (fun e => negb (entry_mentions "tok123" e)) (logs (app s)) = true /\
  forallb (fun e => negb (entry_mentions "tok123" e)) (logs (app s')) = false /\
  exists e, hd_error (logs (app s')) = Some e /\
            Log.details e = Some "tok123 is not valid" /\
            entry_mentions "tok123" e = true.
Proof.
  vm_compute. repeat split. eexists. repeat split.
Qed.

Lemma In_addLog host type msg details (s : Sys) (e : Log.entry) :
  In e (logs (app (exec (addLog host type msg details) s))) ->
  is_entry type msg details e \/ In e (logs (app s)).
Proof.
  destruct (addLog_logs host type msg details s) as (e0 & He0 & ->).
  intros [<- | H]; [left; exact He0 | right; exact (In_slice0 _ _ _ H)].
Qed.

Lemma awaiting_logs_In host (s : Sys) (e : Log.entry) :
  In e (logs (app (exec settle_request (awaiting host s)))) ->
  is_entry "IBM" "Initiating REST Handshake..." None e \/ In e (logs (app s)).
Proof.
  change (logs (app (exec settle_request (awaiting host s))))
    with (logs (app (exec (addLog host "IBM" "Initiating REST Handshake..." None)
                       (exec (setHardwareStatus AUTHENTICATING) s)))).
  intros H. apply In_addLog in H. exact H.
Qed.

Lemma with_token_token (c : string) (s : Sys) : ibmToken (app (with_token c s)) = c.
Proof. reflexivity. Qed.

(** C9, amended: the log after an attempt does not depend on the
    credential; every entry is an old one or one of the five entries of the
    handshake, whose variable texts are the status code, the first 8
    characters of the identifier and the first 50 characters of the
    rejection body. *)
Theorem log_independent_of_credential host (s : Sys) (c1 c2 : string) (fetched : Promise Response) :
  c1 <> "" -> c2 <> "" ->
  let s1 := exec (connectToIBM host fetched) (with_token c1 s) in
  let s2 := exec (connectToIBM host fetched) (with_token c2 s) in
  logs (app s1) = logs (app s2) /\
  (forall e, In e (logs (app s1)) -> In e (logs (app s)) \/ handshake_entry fetched e) /\
  (forall id, (String.length (JS.substring0 8 id) <= 8)%nat /\
              String.prefix (JS.substring0 8 id) id = true) /\
  (forall body, (String.length (JS.substring0 50 body) <= 50)%nat /\
                String.prefix (JS.substring0 50 body) body = true).
Proof.
  intros H1 H2 s1 s2. subst s1 s2. unfold exec.
  rewrite (connectToIBM_sent host fetched (with_token c1 s)) by (rewrite with_token_token; exact H1).
  rewrite (connectToIBM_sent host fetched (with_token c2 s)) by (rewrite with_token_token; exact H2).
  split; [|split; [|split; intros x; split;
                    auto using substring0_length, substring0_prefix]].
  - destruct (granted fetched) as [id|] eqn:Hg.
    + rewrite !(after_fetch_granted host fetched id _ Hg). reflexivity.
    + destruct (rejected_or_not fetched) as [(r & body & -> & Hok & Htx) | Hnot].
      * rewrite !(after_fetch_rejected host r body _ Hok Htx). reflexivity.
      * destruct (after_fetch_blocked host fetched Hg Hnot) as (v & Hrun).
        rewrite !Hrun. destruct v; reflexivity.
  - intros e. unfold handshake_entry.
    destruct (granted fetched) as [id|] eqn:Hg.
    + rewrite (after_fetch_granted host fetched id _ Hg). cbn [snd]. intros He.
      apply In_addLog in He. destruct He as [He | He].
      * right; right; left. exists id. auto.
      * apply (awaiting_logs_In host (with_token c1 s)) in He. tauto.
    + destruct (rejected_or_not fetched) as [(r & body & -> & Hok & Htx) | Hnot].
      * rewrite (after_fetch_rejected host r body _ Hok Htx). cbn [snd]. intros He.
        apply In_addLog in He. destruct He as [He | He].
        -- right; right; right; left. exists r, body. auto.
        -- apply (awaiting_logs_In host (with_token c1 s)) in He. tauto.
      * destruct (after_fetch_blocked host fetched Hg Hnot) as (v & Hrun).
        rewrite Hrun. cbn [snd]. unfold blocked. intros He.
        apply In_addLog in He. destruct He as [He | He]; [tauto|].
        apply In_addLog in He. destruct He as [He | He]; [tauto|].
        assert (Hin : In e (logs (app (exec settle_request (awaiting host (with_token c1 s))))))
          by (destruct v; exact He).
        apply (awaiting_logs_In host (with_token c1 s)) in Hin. tauto.
Qed.

(** * The job executor *)

Lemma random_register_draws host (n : nat) : forall s,
  Array_from n (random_bit host) s =
  (inr (drawn host (reads s) n), mkSys (app s) (timers s) (inflight s) (n + reads s)).
Proof.
  induction n as [|n IH]; intros s.
  - destruct s; reflexivity.
  - cbn [Array_from drawn]. unfold bind at 1. unfold random_bit at 1.
    unfold bind at 1. unfold host_read at 1. cbn [ret].
    unfold bind at 1. rewrite IH. cbn. rewrite Nat.add_succ_r. reflexivity.
Qed.

Lemma drawn_length host (n : nat) : forall start, List.length (drawn host start n) = n.
Proof. induction n as [|n IH]; intros start; cbn; [reflexivity | rewrite IH; reflexivity]. Qed.

Lemma drawn_bits host (n : nat) : forall start, Forall is_bit (drawn host start n).
Proof.
  induction n as [|n IH]; intros start; cbn; constructor; [|apply IH].
  unfold coin, is_bit. destruct (JS.gt _ _); auto.
Qed.

Lemma join_bits_length (bits : list Z) :
  Forall is_bit bits -> String.length (JS.join_empty bits) = List.length bits.
Proof.
  induction 1 as [|b bits [-> | ->] _ IH]; [reflexivity | |];
    cbn [JS.join_empty List.length];
    [change (JS.string_of_Z 0) with "0" | change (JS.string_of_Z 1) with "1"];
    cbn [append String.length]; rewrite IH; reflexivity.
Qed.

Lemma local_collapsed_run host s :
  local_collapsed host s =
  (inr tt, collapsed host (hardwareStatus (app s)) "SYS" "Local Registry Collapsed." s).
Proof.
  unfold local_collapsed, random_register. unfold bind at 1.
  rewrite random_register_draws. reflexivity.
Qed.

Lemma teleport_resolved_run host s :
  teleport_resolved host s =
  (inr tt, collapsed host READY "CORE"
             ("Teleportation Resolved: " ++ JS.join_empty (drawn host (reads s) 10)) s).
Proof.
  unfold teleport_resolved, random_register. unfold bind at 1.
  rewrite random_register_draws. reflexivity.
Qed.

Lemma fire_newest_after host (t : Timer) (a : App) (ts : list Timer) (rq : list Request) (n : nat) :
  fire_newest host (mkSys a (ts ++ [t])%list rq n) = run_callback host (callback t) (mkSys a ts rq n).
Proof.
  unfold fire_newest. cbn [timers]. rewrite rev_unit, rev_involutive. reflexivity.
Qed.

Lemma not_ready (st : Status) : st <> READY -> Status_eqb st READY = false.
Proof. destruct st; intros H; try reflexivity. contradiction H; reflexivity. Qed.

Lemma executeRealTeleport_local host (s : Sys) :
  hardwareStatus (app s) <> READY ->
  executeRealTeleport host s =
  (inr tt, exec runLocalSimulation
             (exec (addLog host "WARN" "Using Local Simulation (No IBM Link)." None) s)).
Proof.
  intros Hst. apply not_ready in Hst.
  cbv beta iota delta [executeRealTeleport executeRealTeleport_with bind get_app].
  rewrite Hst. reflexivity.
Qed.

Lemma executeRealTeleport_remote host (s : Sys) :
  hardwareStatus (app s) = READY ->
  executeRealTeleport host s =
  (inr tt, exec simulated_retrieval
             (exec (addLog host "QASM" "Zenith Key Active: 00**11--1" None)
                (exec (setHardwareStatus BUSY) (exec (setIsTeleporting true) s)))).
Proof.
  intros Hst.
  cbv beta iota delta [executeRealTeleport executeRealTeleport_with bind get_app].
  rewrite Hst. reflexivity.
Qed.

Lemma runJob_run host (s s1 : Sys) :
  executeRealTeleport host s = (inr tt, s1) -> runJob host s = fire_newest host s1.
Proof. intros H. unfold runJob, bind. rewrite H. reflexivity. Qed.

Lemma runJob_local host (s : Sys) :
  hardwareStatus (app s) <> READY ->
  runJob host s =
  (inr tt, collapsed host (hardwareStatus (app s)) "SYS" "Local Registry Collapsed."
             (exec (setIsTeleporting true)
                (exec (addLog host "WARN" "Using Local Simulation (No IBM Link)." None) s))).
Proof.
  intros Hst.
  rewrite (runJob_run _ _ _ (executeRealTeleport_local host s Hst)).
  destruct s as [a ts rq n]. unfold exec. cbn [snd]. rewrite addLog_run.
  cbn [runLocalSimulation bind setIsTeleporting setTimeout set_app app timers inflight reads snd].
  rewrite fire_newest_after. cbn [run_callback callback].
  rewrite local_collapsed_run. reflexivity.
Qed.

Lemma runJob_remote host (s : Sys) :
  hardwareStatus (app s) = READY ->
  let busy := exec (addLog host "QASM" "Zenith Key Active: 00**11--1" None)
                (exec (setHardwareStatus BUSY) (exec (setIsTeleporting true) s)) in
  runJob host s =
  (inr tt, collapsed host READY "CORE"
             ("Teleportation Resolved: " ++ JS.join_empty (drawn host (reads busy) 10)) busy).
Proof.
  intros Hst busy. subst busy.
  rewrite (runJob_run _ _ _ (executeRealTeleport_remote host s Hst)).
  destruct s as [a ts rq n]. unfold exec. cbn [snd]. rewrite addLog_run.
  cbn [simulated_retrieval setTimeout app timers inflight reads snd].
  rewrite fire_newest_after. cbn [run_callback callback].
  rewrite teleport_resolved_run. reflexivity.
Qed.

(** A callback does the same to the page whatever happened since its
    timer was set. *)
Lemma callback_from_any_state host (cb : Callback) (mid : Sys) :
  let fired := exec (run_callback host cb) mid in
  returns (run_callback host cb) mid /\
  hardwareStatus (app fired) =
    match cb with
    | TeleportResolved => READY
    | LocalCollapsed => hardwareStatus (app mid)
    end /\
  ibmToken (app fired) = ibmToken (app mid) /\
  ibmAccessToken (app fired) = ibmAccessToken (app mid) /\
  localRegister (app fired) = drawn host (reads mid) 10 /\
  lastBitstring (app fired) = JS.join_empty (drawn host (reads mid) 10) /\
  qubitWeight (app fired) = deriveWeight (drawn host (reads mid) 10).
Proof.
  unfold returns, exec.
  destruct cb; cbn [run_callback];
    [rewrite teleport_resolved_run | rewrite local_collapsed_run];
    (split; [exists tt; reflexivity | repeat split]).
Qed.

(** C7: a job started while the status is not READY takes the local
    path: the call sets one timer and touches neither the link session nor
    the published cells; when the timer has fired the register holds 10
    fresh draws, each 0 or 1, the bit string and the weight are those of
    that register, and the link session is still as it was.  The callback
    does so from whatever state the page is in when the timer fires. *)
Theorem local_path host (s : Sys) :
  hardwareStatus (app s) <> READY ->
  let s1 := exec (executeRealTeleport host) s in
  let s2 := exec (runJob host) s in
  returns (runJob host) s /\
  timers s1 = (timers s ++ [mkTimer LocalCollapsed 1500])%list /\
  link_session (app s1) = link_session (app s) /\
  published (app s1) = published (app s) /\
  link_session (app s2) = link_session (app s) /\
  localRegister (app s2) = drawn host (3 + reads s) 10 /\
  List.length (localRegister (app s2)) = 10%nat /\
  Forall is_bit (localRegister (app s2)) /\
  lastBitstring (app s2) = JS.join_empty (localRegister (app s2)) /\
  String.length (lastBitstring (app s2)) = 10%nat /\
  qubitWeight (app s2) = deriveWeight (localRegister (app s2)) /\
  timers s2 = timers s /\
  (forall mid,
      let fired := exec (run_callback host LocalCollapsed) mid in
      link_session (app fired) = link_session (app mid) /\
      List.length (localRegister (app fired)) = 10%nat /\
      Forall is_bit (localRegister (app fired))).
Proof.
  intros Hst s1 s2. subst s1 s2. split; [|split; [|split; [|split; [|split]]]].
  - unfold returns. rewrite (runJob_local host s Hst). exists tt; reflexivity.
  - unfold exec. rewrite (executeRealTeleport_local host s Hst). reflexivity.
  - unfold exec. rewrite (executeRealTeleport_local host s Hst). reflexivity.
  - unfold exec. rewrite (executeRealTeleport_local host s Hst). reflexivity.
  - unfold exec. rewrite (runJob_local host s Hst). reflexivity.
  - assert (Hreg : localRegister (app (exec (runJob host) s)) = drawn host (3 + reads s) 10)
      by (unfold exec; rewrite (runJob_local host s Hst); reflexivity).
    rewrite Hreg.
    split; [reflexivity|]. split; [apply drawn_length|]. split; [apply drawn_bits|].
    unfold exec. rewrite (runJob_local host s Hst). cbn [snd collapsed app lastBitstring].
    split; [reflexivity|].
    split; [rewrite join_bits_length; [apply drawn_length | apply drawn_bits]|].
    split; [reflexivity|]. split; [reflexivity|].
    intros mid. cbv zeta.
    pose proof (callback_from_any_state host LocalCollapsed mid) as Hcb.
    cbv beta iota zeta in Hcb. unfold exec in Hcb.
    destruct Hcb as (_ & Hst' & Htok & Hacc & Hreg' & _).
    unfold link_session. rewrite Hst', Htok, Hacc, Hreg'.
    split; [reflexivity|]. split; [apply drawn_length | apply drawn_bits].
Qed.

(** C1, as stated, fails: from READY the call returns with the status
    BUSY (it becomes READY when the timer fires); the button can be pressed
    in that state, that call takes the local path, and when its job has
    completed the status is still BUSY. *)
Lemma busy_after_the_call :
  exists s0 s1,
    run still_host [TokenTyped "abc"; LinkClicked;
                    FetchSettled (answer_granted "0123456789abcdef")] initialSys = Some s0 /\
    hardwareStatus (app s0) = READY /\
    s1 = exec (executeRealTeleport still_host) s0 /\
    fst (executeRealTeleport still_host s0) = inr tt /\
    hardwareStatus (app s1) = BUSY /\
    enabled TeleportClicked s1 = true /\
    timers (exec (executeRealTeleport still_host) s1) =
      [mkTimer TeleportResolved 3000; mkTimer LocalCollapsed 1500] /\
    hardwareStatus (app (exec (runJob still_host) s1)) = BUSY.
Proof.
  eexists _, _. split; [reflexivity|]. split; [reflexivity|]. split; [reflexivity|].
  vm_compute. repeat split.
Qed.

Lemma job_status_run host (s : Sys) :
  hardwareStatus (app s) <> BUSY ->
  returns (runJob host) s /\
  hardwareStatus (app (exec (executeRealTeleport host) s)) =
    (if Status_eqb (hardwareStatus (app s)) READY then BUSY else hardwareStatus (app s)) /\
  List.length (timers (exec (executeRealTeleport host) s)) = S (List.length (timers s)) /\
  hardwareStatus (app (exec (runJob host) s)) = hardwareStatus (app s) /\
  timers (exec (runJob host) s) = timers s.
Proof.
  intros Hst.
  assert (Hcase : hardwareStatus (app s) = READY \/ hardwareStatus (app s) <> READY)
    by (destruct (hardwareStatus (app s)); auto; right; discriminate).
  unfold returns, exec.
  destruct Hcase as [Hr | Hl].
  - rewrite (runJob_remote host s Hr), (executeRealTeleport_remote host s Hr), Hr.
    destruct s as [a ts rq n]. cbn -[drawn]. rewrite length_app, Nat.add_1_r.
    split; [exists tt; reflexivity|]. repeat split.
  - rewrite (runJob_local host s Hl), (executeRealTeleport_local host s Hl), (not_ready _ Hl).
    destruct s as [a ts rq n]. cbn -[drawn]. rewrite length_app, Nat.add_1_r.
    split; [exists tt; reflexivity|]. repeat split.
Qed.

(** C1, amended: a job started while the status is not BUSY ends, once
    the timer it set has fired, with the status it started from (READY on
    the remote path, unchanged on the local path), so not with BUSY; between
    the call and the timer the status is BUSY on the remote path.  From any
    state the remote callback sets READY and the local one leaves the
    status alone. *)
Theorem job_leaves_status host (s : Sys) :
  hardwareStatus (app s) <> BUSY ->
  let called := exec (executeRealTeleport host) s in
  let done := exec (runJob host) s in
  returns (runJob host) s /\
  hardwareStatus (app called) =
    (if Status_eqb (hardwareStatus (app s)) READY then BUSY else hardwareStatus (app s)) /\
  List.length (timers called) = S (List.length (timers s)) /\
  hardwareStatus (app done) = hardwareStatus (app s) /\
  hardwareStatus (app done) <> BUSY /\
  timers done = timers s /\
  (forall mid, hardwareStatus (app (exec (run_callback host TeleportResolved) mid)) = READY) /\
  (forall mid, hardwareStatus (app (exec (run_callback host LocalCollapsed) mid)) =
               hardwareStatus (app mid)).
Proof.
  intros Hst called done. subst called done.
  destruct (job_status_run host s Hst) as (Hret & Hcall & Hts & Hdone & Hts').
  split; [exact Hret|]. split; [exact Hcall|]. split; [exact Hts|].
  split; [exact Hdone|]. split; [rewrite Hdone; exact Hst|]. split; [exact Hts'|].
  split; intros mid;
    [pose proof (callback_from_any_state host TeleportResolved mid) as H
    |pose proof (callback_from_any_state host LocalCollapsed mid) as H];
    cbv beta iota zeta in H; exact (proj1 (proj2 H)).
Qed.

Lemma simulated_retrieval_returns (s : Sys) :
  simulated_retrieval s =
  (inr tt, mkSys (app s) (timers s ++ [mkTimer TeleportResolved 3000])%list (inflight s) (reads s)).
Proof. reflexivity. Qed.

(** The [try] body of [executeRealTeleport] is one call of [setTimeout]:
    it returns, so the [catch] is not run. *)
Lemma remote_call_is_not_interrupted host (s : Sys) :
  hardwareStatus (app s) = READY ->
  fst (simulated_retrieval
         (exec (addLog host "QASM" "Zenith Key Active: 00**11--1" None)
            (exec (setHardwareStatus BUSY) (exec (setIsTeleporting true) s)))) = inr tt /\
  hardwareStatus (app (exec (executeRealTeleport host) s)) = BUSY /\
  exists e, hd_error (logs (app (exec (executeRealTeleport host) s))) = Some e /\
            Log.type e = "QASM".
Proof.
  intros Hst. split; [reflexivity|].
  unfold exec. rewrite (executeRealTeleport_remote host s Hst).
  destruct s as [a ts rq n]. cbn. rewrite (slice0_cons 29). cbn.
  split; [reflexivity|]. eexists. split; reflexivity.
Qed.


(** * The weight *)

Lemma fold_add_ones (bits : list Z) : Forall is_bit bits ->
  forall acc, fold_left Z.add bits acc = acc + Z.of_nat (count_ones bits).
Proof.
  unfold count_ones.
  induction 1 as [|b bits [-> | ->] _ IH]; intros acc; cbn [fold_left count_occ].
  - lia.
  - rewrite IH. destruct (Z.eq_dec 0 1); [discriminate|]. lia.
  - rewrite IH. destruct (Z.eq_dec 1 1); [|congruence]. lia.
Qed.

Lemma reduce_add_ones (bits : list Z) :
  Forall is_bit bits -> JS.reduce_add bits = Z.of_nat (count_ones bits).
Proof. intros H. unfold JS.reduce_add. rewrite (fold_add_ones bits H). lia. Qed.

Lemma count_ones_within (bits : list Z) : (count_ones bits <= List.length bits)%nat.
Proof.
  unfold count_ones. induction bits as [|b bits IH]; cbn; [lia|].
  destruct (Z.eq_dec b 1); lia.
Qed.

(** The weight as a function of the number of 1-bits. *)
Lemma deriveWeight_of_count (bits : list Z) :
  Forall is_bit bits ->
  deriveWeight bits = deriveWeight [Z.of_nat (count_ones bits)].
Proof.
  intros H. unfold deriveWeight. rewrite (reduce_add_ones bits H). reflexivity.
Qed.

Lemma weight_by_count (k : nat) :
  (k <= 10)%nat ->
  JS.is_num (deriveWeight [Z.of_nat k])
            (round_to 4 ((inject_Z (Z.of_nat k) / 10) * dampening)).
Proof.
  intros Hk.
  do 11 (destruct k as [|k]; [vm_compute; reflexivity|]).
  lia.
Qed.

(** C2: for a register of 10 bits the published weight is the share of
    1-bits times [1 - 0.10132118], rounded to 4 decimals; [PI_SQUARED_INV]
    is that 8-digit constant; the all-zero register gives 0 and the all-one
    register 0.8987, the rounded dampening constant. *)
Theorem weight_formula (bits : list Z) :
  List.length bits = 10%nat ->
  Forall is_bit bits ->
  JS.is_num (deriveWeight bits) (spec_weight bits) /\
  PI_SQUARED_INV = "0.10132118" /\
  JS.is_num (JS.ToNumber PI_SQUARED_INV) inv_pi_squared_8 /\
  JS.is_num (deriveWeight (repeat 0 10)) 0 /\
  JS.is_num (deriveWeight (repeat 1 10)) (8987 # 10000) /\
  round_to 4 dampening == 8987 # 10000.
Proof.
  intros Hlen Hbits. split.
  - rewrite (deriveWeight_of_count bits Hbits). unfold spec_weight.
    apply weight_by_count. rewrite <- Hlen. apply count_ones_within.
  - repeat split; vm_compute; reflexivity.
Qed.

(** ** Stability of the roundings

    The numbers of this file are exact where JavaScript rounds to doubles.
    Both [toFixed] calls are far from a tie: any value within 1e-9 of the
    exact product gets the same 4 digits, and any approximation of the
    circle constant good to 9 digits, [Math.PI] among them, gives the same
    8 digits of its inverse square. *)
Lemma round_units_monotone (f : nat) (x y : Q) :
  (x <= y)%Q -> JS.round_units f x <= JS.round_units f y.
Proof.
  intros H. unfold JS.round_units. apply Qfloor_resp_le.
  apply Qplus_le_l. apply Qmult_le_compat_r; [exact H|].
  change 0%Q with (inject_Z 0). rewrite <- Zle_Qle. apply Z.pow_nonneg. lia.
Qed.

Lemma round_units_between (f : nat) (lo hi x : Q) (n : Z) :
  (lo <= x)%Q -> (x <= hi)%Q ->
  JS.round_units f lo = n -> JS.round_units f hi = n -> JS.round_units f x = n.
Proof.
  intros Hlo Hhi Hn1 Hn2.
  pose proof (round_units_monotone f lo x Hlo).
  pose proof (round_units_monotone f x hi Hhi). lia.
Qed.

Lemma weight_rounding_margin (k : nat) (x : Q) :
  (k <= 10)%nat ->
  ((inject_Z (Z.of_nat k) / 10) * dampening - (1 # 1000000000) <= x)%Q ->
  (x <= (inject_Z (Z.of_nat k) / 10) * dampening + (1 # 1000000000))%Q ->
  JS.round_units 4 x = JS.round_units 4 ((inject_Z (Z.of_nat k) / 10) * dampening).
Proof.
  intros Hk Hlo Hhi.
  do 11 (destruct k as [|k];
         [eapply round_units_between; [exact Hlo | exact Hhi | |]; vm_compute; reflexivity|]).
  lia.
Qed.

Lemma inv_pi_squared_margin (p : Q) :
  (3141592653 # 1000000000 <= p)%Q -> (p <= 3141592654 # 1000000000)%Q ->
  JS.round_units 8 (1 / (p * p)) = 10132118.
Proof.
  intros Hlo Hhi.
  assert (Hpos : (0 < p * p)%Q) by nra.
  apply (round_units_between 8
           (/ ((3141592654 # 1000000000) * (3141592654 # 1000000000)))
           (/ ((3141592653 # 1000000000) * (3141592653 # 1000000000)))).
  - unfold Qdiv. rewrite Qmult_1_l. apply Qle_shift_inv_l; [exact Hpos|].
    vm_compute Qinv. nra.
  - unfold Qdiv. rewrite Qmult_1_l. apply Qle_shift_inv_r; [exact Hpos|].
    vm_compute Qinv. nra.
  - vm_compute; reflexivity.
  - vm_compute; reflexivity.
Qed.

Lemma Math_PI_digits :
  exists p, JS.Math_PI = JS.Fin p /\
            (3141592653 # 1000000000 <= p)%Q /\ (p <= 3141592654 # 1000000000)%Q.
Proof. eexists. split; [reflexivity|]. split; vm_compute; discriminate. Qed.

(** * Before the first job *)

Lemma captureArtifact_run host (s : Sys) :
  app (exec (captureArtifact host) s) = app s
  \/ exists id url time e,
       app (exec (captureArtifact host) s) =
       mkApp (ibmToken (app s)) (ibmAccessToken (app s)) (hardwareStatus (app s))
             (Photo.mk id url (activeMode (app s)) (lastBitstring (app s))
                       (JS.toFixed (qubitWeight (app s)) 4) time :: photos (app s))
             (localRegister (app s)) (qubitWeight (app s)) (lastBitstring (app s))
             (activeMode (app s)) (isTeleporting (app s))
             (JS.slice0 30 (e :: logs (app s))).
Proof.
  destruct s as [a ts rq n].
  cbv beta iota delta [exec captureArtifact bind host_read reads].
  destruct (videoRef_current host n); cbn [negb].
  - right. eexists _, _, _, _. lazy -[JS.toFixed JS.slice0 JS.before_space append Z.add]. reflexivity.
  - left. reflexivity.
Qed.

Lemma pristine_initial : pristine initialApp.
Proof. repeat split. constructor. Qed.

Lemma pristine_frame (a a' : App) :
  published a' = published a -> photos a' = photos a -> pristine a -> pristine a'.
Proof.
  unfold published, pristine. intros Hp Hph (H1 & H2 & H3 & H4).
  injection Hp as -> -> ->. rewrite Hph. auto.
Qed.

(** Every handler but a timer callback and the capture leaves the
    published cells and the photos alone. *)
Lemma handle_frame host (ev : Event) (s : Sys) :
  completes_job ev = false -> ev <> CaptureClicked ->
  published (app (exec (handle host ev) s)) = published (app s) /\
  photos (app (exec (handle host ev) s)) = photos (app s).
Proof.
  intros Hev Hcap.
  destruct ev as [v | | r | | i | | | m]; try discriminate Hev; cbn [handle].
  - split; reflexivity.
  - unfold exec, bind, connectToIBM_until_fetch, bind, get_app.
    destruct (ibmToken (app s) =? "")%string; split; reflexivity.
  - destruct (granted r) as [id|] eqn:Hg.
    + unfold exec. rewrite (after_fetch_granted host r id s Hg). split; reflexivity.
    + destruct (rejected_or_not r) as [(r0 & body & -> & Hok & Htx) | Hnot].
      * unfold exec. rewrite (after_fetch_rejected host r0 body s Hok Htx). split; reflexivity.
      * destruct (after_fetch_blocked host r Hg Hnot) as (v & Hrun).
        unfold exec. rewrite Hrun. destruct v; split; reflexivity.
  - assert (Hcase : hardwareStatus (app s) = READY \/ hardwareStatus (app s) <> READY)
      by (destruct (hardwareStatus (app s)); auto; right; discriminate).
    unfold exec. destruct Hcase as [H | H];
      [rewrite (executeRealTeleport_remote host s H)
      |rewrite (executeRealTeleport_local host s H)]; split; reflexivity.
  - contradiction Hcap; reflexivity.
  - split; reflexivity.
  - split; reflexivity.
Qed.

Lemma handle_keeps_pristine host (ev : Event) (s : Sys) :
  completes_job ev = false ->
  pristine (app s) ->
  pristine (app (exec (handle host ev) s)).
Proof.
  intros Hev Hs.
  assert (Hcap : ev = CaptureClicked \/ ev <> CaptureClicked)
    by (destruct ev; auto; right; discriminate).
  destruct Hcap as [-> | Hcap].
  - cbn [handle].
    destruct (captureArtifact_run host s) as [-> | (id & url & time & e & ->)];
      [exact Hs|].
    destruct Hs as (Hreg & Hbits & Hw & Hph).
    unfold pristine.
    cbn [localRegister lastBitstring qubitWeight photos].
    repeat split; try assumption.
    constructor; [|exact Hph].
    cbn [Photo.bits Photo.weight]. rewrite Hbits, Hw. split; reflexivity.
  - destruct (handle_frame host ev s Hev Hcap) as [Hp Hph].
    exact (pristine_frame _ _ Hp Hph Hs).
Qed.

Lemma run_keeps_pristine host (evs : list Event) : forall s s',
  existsb completes_job evs = false ->
  pristine (app s) ->
  run host evs s = Some s' ->
  pristine (app s').
Proof.
  induction evs as [|ev evs IH]; intros s s' Hevs Hs Hrun; cbn [run] in Hrun.
  - injection Hrun as <-. exact Hs.
  - cbn [existsb] in Hevs. apply orb_false_iff in Hevs. destruct Hevs as [Hev Hevs].
    unfold step in Hrun. destruct (enabled ev s); [|discriminate].
    apply (IH _ _ Hevs (handle_keeps_pristine host ev s Hev Hs) Hrun).
Qed.

(** C10: at the start the bit string is all zeros and the weight is 0.5;
    as long as no timer callback has run (no job has completed), whatever
    else happened on the page, the published register is all zeros and its
    derived weight 0, the published weight is 0.5 and so differs from it,
    and every photo, one captured now included, records ["0000000000"] with
    ["0.5000"]. *)
Theorem initial_weight_mismatch host (evs : list Event) (s : Sys) :
  existsb completes_job evs = false ->
  run host evs initialSys = Some s ->
  lastBitstring initialApp = "0000000000" /\
  qubitWeight initialApp = JS.Fin (1 # 2) /\
  lastBitstring (app s) = "0000000000" /\
  localRegister (app s) = repeat 0 10 /\
  qubitWeight (app s) = JS.Fin (1 # 2) /\
  JS.is_num (deriveWeight (localRegister (app s))) 0 /\
  ~ JS.is_num (qubitWeight (app s)) 0 /\
  Forall (fun p => Photo.bits p = "0000000000" /\ Photo.weight p = "0.5000")
         (photos (app (exec (captureArtifact host) s))).
Proof.
  intros Hevs Hrun.
  pose proof (run_keeps_pristine host evs initialSys s Hevs pristine_initial Hrun) as Hs.
  pose proof (handle_keeps_pristine host CaptureClicked s eq_refl Hs) as Hc.
  destruct Hs as (Hreg & Hbits & Hw & _). destruct Hc as (_ & _ & _ & Hph).
  rewrite Hreg, Hbits, Hw.
  split; [reflexivity|]. split; [reflexivity|]. split; [reflexivity|].
  split; [reflexivity|]. split; [reflexivity|].
  split; [vm_compute; reflexivity|].
  split; [vm_compute; discriminate | exact Hph].
Qed.

(** * No handler throws, and the log stays within capacity *)

Section Preservation.

Variable P : Sys -> Prop.

Lemma preserves_ret {A} (a : A) : preserves P (ret a).
Proof. intros s H. exact H. Qed.

Lemma preserves_throw {A} (e : Exn) : preserves P (@throw A e).
Proof. intros s H. exact H. Qed.

Lemma preserves_bind {A B} (c : M A) (k : A -> M B) :
  preserves P c -> (forall a, preserves P (k a)) -> preserves P (bind c k).
Proof.
  intros Hc Hk s H. unfold bind. specialize (Hc s H).
  destruct (c s) as [[e | a] s1]; cbn [snd] in *; [exact Hc | exact (Hk a s1 Hc)].
Qed.

Lemma preserves_try_catch {A} (body : M A) (handler : Exn -> M A) :
  preserves P body -> (forall e, preserves P (handler e)) ->
  preserves P (try_catch body handler).
Proof.
  intros Hb Hh s H. unfold try_catch. specialize (Hb s H).
  destruct (body s) as [[e | a] s1]; cbn [snd] in *; [exact (Hh e s1 Hb) | exact Hb].
Qed.

Lemma preserves_if {A} (b : bool) (c1 c2 : M A) :
  preserves P c1 -> preserves P c2 -> preserves P (if b then c1 else c2).
Proof. destruct b; auto. Qed.

Lemma preserves_get_app : preserves P get_app.
Proof. intros s H. exact H. Qed.

Lemma preserves_await {A} (p : Promise A) : preserves P (await p).
Proof. destruct p; intros s H; exact H. Qed.

Lemma preserves_get_id (j : Json) : preserves P (get_id j).
Proof. destruct j; intros s H; exact H. Qed.

Lemma preserves_substring_method (v : JS.value) (n : nat) : preserves P (substring_method v n).
Proof. destruct v; intros st H; exact H. Qed.

Lemma preserves_Array_from {A} (n : nat) (f : M A) :
  preserves P f -> preserves P (Array_from n f).
Proof.
  intros Hf. induction n as [|n IH]; cbn [Array_from].
  - apply preserves_ret.
  - apply preserves_bind; [exact Hf|]. intros x.
    apply preserves_bind; [exact IH|]. intros r. apply preserves_ret.
Qed.

End Preservation.

Section Safety.

Lemma safe_ret {A} (a : A) : safe (ret a).
Proof. intros s. exists a. reflexivity. Qed.

Lemma safe_bind {A B} (c : M A) (k : A -> M B) :
  safe c -> (forall a, safe (k a)) -> safe (bind c k).
Proof.
  intros Hc Hk s. unfold bind. destruct (Hc s) as [a Ha].
  destruct (c s) as [[e | a'] s1]; cbn [fst] in Ha; [discriminate Ha|].
  apply Hk.
Qed.

Lemma safe_try_catch {A} (body : M A) (handler : Exn -> M A) :
  (forall e, safe (handler e)) -> safe (try_catch body handler).
Proof.
  intros Hh s. unfold try_catch.
  destruct (body s) as [[e | a] s1]; [apply Hh | exists a; reflexivity].
Qed.

Lemma safe_if {A} (b : bool) (c1 c2 : M A) : safe c1 -> safe c2 -> safe (if b then c1 else c2).
Proof. destruct b; auto. Qed.

Lemma safe_get_app : safe get_app.
Proof. intros s. eexists. reflexivity. Qed.

Lemma safe_set_app (f : App -> App) : safe (set_app f).
Proof. intros s. eexists. reflexivity. Qed.

Lemma safe_host_read {A} (o : nat -> A) : safe (host_read o).
Proof. intros s. eexists. reflexivity. Qed.

Lemma safe_setTimeout cb ms : safe (setTimeout cb ms).
Proof. intros s. eexists. reflexivity. Qed.

Lemma safe_send r : safe (send r).
Proof. intros s. eexists. reflexivity. Qed.

Lemma safe_settle_request : safe settle_request.
Proof. intros s. eexists. reflexivity. Qed.

Lemma safe_Array_from {A} (n : nat) (f : M A) : safe f -> safe (Array_from n f).
Proof.
  intros Hf. induction n as [|n IH]; cbn [Array_from].
  - apply safe_ret.
  - apply safe_bind; [exact Hf|]. intros x.
    apply safe_bind; [exact IH|]. intros r. apply safe_ret.
Qed.

End Safety.

Ltac safe_step :=
  lazymatch goal with
  | |- safe (ret _) => apply safe_ret
  | |- safe (bind _ _) => apply safe_bind; [|intros ?]
  | |- safe (try_catch _ _) => apply safe_try_catch; intros ?
  | |- safe (if _ then _ else _) => apply safe_if
  | |- safe get_app => apply safe_get_app
  | |- safe (set_app _) => apply safe_set_app
  | |- safe (host_read _) => apply safe_host_read
  | |- safe (setTimeout _ _) => apply safe_setTimeout
  | |- safe (send _) => apply safe_send
  | |- safe settle_request => apply safe_settle_request
  | |- safe (Array_from _ _) => apply safe_Array_from
  | |- safe (setIbmToken _) => apply safe_set_app
  | |- safe (setIbmAccessToken _) => apply safe_set_app
  | |- safe (setHardwareStatus _) => apply safe_set_app
  | |- safe (setPhotos _) => apply safe_set_app
  | |- safe (setLocalRegister _) => apply safe_set_app
  | |- safe (setQubitWeight _) => apply safe_set_app
  | |- safe (setLastBitstring _) => apply safe_set_app
  | |- safe (setActiveMode _) => apply safe_set_app
  | |- safe (setIsTeleporting _) => apply safe_set_app
  | |- safe (setLogs _) => apply safe_set_app
  end.

Lemma safe_addLog host type msg details : safe (addLog host type msg details).
Proof. unfold addLog, log_entry. repeat safe_step. Qed.

Ltac safe_steps :=
  repeat lazymatch goal with
         | |- safe (addLog _ _ _ _) => apply safe_addLog
         | |- _ => safe_step
         end.

Lemma safe_run_callback host cb : safe (run_callback host cb).
Proof.
  destruct cb; cbn [run_callback];
    unfold teleport_resolved, local_collapsed, random_register, random_bit; safe_steps.
Qed.

Lemma safe_fire host i : safe (fire host i).
Proof.
  intros s. unfold fire. destruct (nth_error (timers s) i) as [t|].
  - apply safe_run_callback.
  - exists tt. reflexivity.
Qed.

Lemma safe_handle host (ev : Event) : safe (handle host ev).
Proof.
  destruct ev as [v | | r | | i | | | m]; cbn [handle].
  - safe_steps.
  - unfold connectToIBM_until_fetch. safe_steps.
  - unfold connectToIBM_after_fetch. safe_steps.
  - unfold executeRealTeleport, executeRealTeleport_with, runLocalSimulation,
      simulated_retrieval. safe_steps.
  - apply safe_fire.
  - unfold captureArtifact. safe_steps.
  - safe_steps.
  - safe_steps.
Qed.

(** What leaves the log alone keeps its bound. *)
Lemma log_bounded_frame {A} (c : M A) :
  (forall s, logs (app (snd (c s))) = logs (app s)) -> preserves log_bounded c.
Proof. intros H s Hs. unfold log_bounded. rewrite H. exact Hs. Qed.

Lemma log_bounded_addLog host type msg details :
  preserves log_bounded (addLog host type msg details).
Proof.
  intros s _. unfold log_bounded. rewrite addLog_run. cbn [snd app logs].
  apply slice0_within.
Qed.

Ltac bounded_step :=
  lazymatch goal with
  | |- preserves _ (ret _) => apply preserves_ret
  | |- preserves _ (throw _) => apply preserves_throw
  | |- preserves _ (bind _ _) => apply preserves_bind; [|intros ?]
  | |- preserves _ (try_catch _ _) => apply preserves_try_catch; [|intros ?]
  | |- preserves _ (if _ then _ else _) => apply preserves_if
  | |- preserves _ get_app => apply preserves_get_app
  | |- preserves _ (await _) => apply preserves_await
  | |- preserves _ (get_id _) => apply preserves_get_id
  | |- preserves _ (substring_method _ _) => apply preserves_substring_method
  | |- preserves _ (Array_from _ _) => apply preserves_Array_from
  | |- preserves log_bounded (addLog _ _ _ _) => apply log_bounded_addLog
  | |- preserves log_bounded _ => apply log_bounded_frame; intros ?; reflexivity
  end.

Lemma log_bounded_run_callback host cb : preserves log_bounded (run_callback host cb).
Proof.
  destruct cb; cbn [run_callback];
    unfold teleport_resolved, local_collapsed, random_register, random_bit;
    repeat bounded_step.
Qed.

Lemma log_bounded_handle host (ev : Event) : preserves log_bounded (handle host ev).
Proof.
  destruct ev as [v | | r | | i | | | m]; cbn [handle].
  - repeat bounded_step.
  - unfold connectToIBM_until_fetch. repeat bounded_step.
  - unfold connectToIBM_after_fetch. repeat bounded_step.
  - unfold executeRealTeleport, executeRealTeleport_with, runLocalSimulation,
      simulated_retrieval. repeat bounded_step.
  - intros s Hs. unfold fire. destruct (nth_error (timers s) i) as [t|]; [|exact Hs].
    apply log_bounded_run_callback. exact Hs.
  - unfold captureArtifact. repeat bounded_step.
  - intros s _. unfold log_bounded. cbn. lia.
  - repeat bounded_step.
Qed.

(** * The link as an automaton *)

Lemma captureArtifact_link host (s : Sys) :
  link_of (exec (captureArtifact host) s) = link_of s.
Proof.
  destruct s as [a ts rq n].
  cbv beta iota delta [exec captureArtifact bind host_read reads].
  destruct (videoRef_current host n); reflexivity.
Qed.

Lemma fire_link host (i : nat) (s : Sys) :
  link_of (exec (fire host i) s) = link_step (TimerFired i) (link_of s).
Proof.
  unfold exec, fire, link_step. cbn [link_of link_timers].
  destruct (nth_error (timers s) i) as [[cb ms]|]; [|reflexivity].
  destruct cb; cbn [run_callback callback];
    [rewrite teleport_resolved_run | rewrite local_collapsed_run]; reflexivity.
Qed.

(** What a handler does to the link is what [link_step] does. *)
Lemma handle_link host (ev : Event) (s : Sys) :
  link_of (exec (handle host ev) s) = link_step ev (link_of s).
Proof.
  destruct ev as [v | | r | | i | | | m]; cbn [handle].
  - reflexivity.
  - unfold exec, bind, connectToIBM_until_fetch, bind, get_app, link_step.
    cbn [link_of link_token].
    destruct (ibmToken (app s) =? "")%string; reflexivity.
  - unfold link_step. destruct (granted r) as [id|] eqn:Hg.
    + unfold exec. rewrite (after_fetch_granted host r id s Hg). reflexivity.
    + destruct (rejected_or_not r) as [(r0 & body & -> & Hok & Htx) | Hnot].
      * unfold exec. rewrite (after_fetch_rejected host r0 body s Hok Htx). reflexivity.
      * destruct (after_fetch_blocked host r Hg Hnot) as (v & Hrun).
        unfold exec. rewrite Hrun. destruct v; reflexivity.
  - assert (Hcase : hardwareStatus (app s) = READY \/ hardwareStatus (app s) <> READY)
      by (destruct (hardwareStatus (app s)); auto; right; discriminate).
    unfold exec, link_step. cbn [link_of link_status].
    destruct Hcase as [H | H].
    + rewrite (executeRealTeleport_remote host s H), H. reflexivity.
    + rewrite (executeRealTeleport_local host s H), (not_ready _ H). reflexivity.
  - apply fire_link.
  - apply captureArtifact_link.
  - reflexivity.
  - reflexivity.
Qed.



Lemma enabled_link (ev : Event) (s : Sys) : enabled ev s = link_enabled ev (link_of s).
Proof. destruct ev; reflexivity. Qed.

Lemma remote_pending_app (ts us : list Timer) :
  remote_pending (ts ++ us) = (remote_pending ts + remote_pending us)%nat.
Proof. unfold remote_pending. rewrite filter_app, length_app. reflexivity. Qed.

Lemma remote_pending_without (ts : list Timer) : forall i t,
  nth_error ts i = Some t ->
  remote_pending ts = (remote_pending (without i ts) + (if is_remote t then 1 else 0))%nat.
Proof.
  induction ts as [|u ts IH]; intros [|i] t H; cbn [nth_error] in H; try discriminate H.
  - injection H as ->. change (without 0 (t :: ts)) with ts.
    unfold remote_pending, is_remote. cbn [filter].
    destruct (callback t); cbn [List.length]; lia.
  - specialize (IH i t H). change (without (S i) (u :: ts)) with (u :: without i ts).
    unfold remote_pending in *. cbn [filter].
    destruct (callback u); cbn [List.length]; lia.
Qed.

Lemma link_step_ok (ev : Event) (l : Link) :
  link_ok l -> link_enabled ev l = true -> link_ok (link_step ev l).
Proof.
  destruct l as [st tok rq ts]. unfold link_ok. cbn [link_status link_inflight link_timers].
  destruct ev as [v | | r | | i | | | m]; cbn [link_enabled link_step link_status
    link_inflight link_timers link_token]; intros Hok Hen.
  - exact Hok.
  - destruct st; try discriminate Hen. destruct Hok as [-> ->].
    destruct (tok =? "")%string; cbn [link_status link_inflight link_timers]; auto.
  - destruct st; destruct Hok as [Hrq Hts];
      try (rewrite Hrq in Hen; discriminate Hen).
    destruct rq as [|q [|q' rq]]; try discriminate Hrq. subst ts.
    destruct (granted r); cbn [tl]; auto.
  - destruct st; try discriminate Hen; destruct Hok as [-> Hts];
      cbn [Status_eqb link_status link_inflight link_timers];
      (split; [reflexivity|]); rewrite remote_pending_app, Hts; reflexivity.
  - apply Nat.ltb_lt in Hen.
    destruct (nth_error ts i) as [t|] eqn:Hnth;
      [|apply nth_error_None in Hnth; lia].
    pose proof (remote_pending_without ts i t Hnth) as Hcount. unfold is_remote in Hcount.
    cbn [link_status link_inflight link_timers].
    destruct st; destruct Hok as [Hrq Hts].
    + subst ts. destruct i; discriminate Hnth.
    + subst ts. destruct i; discriminate Hnth.
    + destruct (callback t); (split; [exact Hrq | lia]).
    + destruct (callback t); (split; [exact Hrq | lia]).
  - exact Hok.
  - exact Hok.
  - exact Hok.
Qed.

Lemma link_ok_initial : link_ok (link_of initialSys).
Proof. split; reflexivity. Qed.

Lemma link_step_linked (ev : Event) (l : Link) :
  link_ok l -> link_enabled ev l = true ->
  linked (link_status l) = true -> linked (link_status (link_step ev l)) = true.
Proof.
  destruct l as [st tok rq ts]. unfold link_ok. cbn [link_status link_inflight link_timers].
  intros Hok Hen Hl.
  destruct st; try discriminate Hl; destruct Hok as [-> Hts];
    destruct ev as [v | | r | | i | | | m];
    cbn [link_enabled link_step link_status link_inflight link_timers link_token
         Status_eqb orb] in Hen |- *;
    try discriminate Hen; try reflexivity.
  - destruct (nth_error ts i) as [t|]; [destruct (callback t)|]; reflexivity.
  - destruct (nth_error ts i) as [t|]; [destruct (callback t)|]; reflexivity.
Qed.

(** X1: the link (status, credential, requests in flight, pending timers)
    is an automaton of its own: whether an event can happen and what its
    handler does to the link depend on the event and the link alone, not
    on the host or on any other cell; and a step keeps the shape of the
    link. *)
Theorem link_simulation host (ev : Event) (s : Sys) :
  enabled ev s = link_enabled ev (link_of s) /\
  link_of (exec (handle host ev) s) = link_step ev (link_of s) /\
  (link_ok (link_of s) -> enabled ev s = true -> link_ok (link_of (exec (handle host ev) s))).
Proof.
  split; [apply enabled_link|]. split; [apply handle_link|].
  intros Hok Hen. rewrite handle_link. apply link_step_ok; [exact Hok|].
  rewrite <- enabled_link. exact Hen.
Qed.

(** * The published cells agree *)

Lemma coherent_initial : coherent initialApp.
Proof.
  split; [split; [reflexivity | repeat constructor; left; reflexivity]|].
  split; [reflexivity|]. split; [right; split; reflexivity | constructor].
Qed.

Lemma coherent_frame (a a' : App) :
  published a' = published a -> photos a' = photos a -> coherent a -> coherent a'.
Proof.
  unfold published, coherent. intros Hp Hph H.
  injection Hp as -> -> ->. rewrite Hph. exact H.
Qed.

Lemma drawn_register host (start : nat) : is_register (drawn host start 10).
Proof. split; [apply drawn_length | apply drawn_bits]. Qed.

Lemma fire_coherent host (i : nat) (s : Sys) :
  coherent (app s) -> coherent (app (exec (fire host i) s)).
Proof.
  intros H. unfold exec, fire.
  destruct (nth_error (timers s) i) as [[cb ms]|]; [|exact H].
  destruct H as (_ & _ & _ & Hph).
  destruct cb; cbn [run_callback callback];
    [rewrite teleport_resolved_run | rewrite local_collapsed_run];
    cbn [snd collapsed app];
    (split; [apply drawn_register|]); (split; [reflexivity|]);
    (split; [left; reflexivity | exact Hph]).
Qed.

Lemma capture_coherent host (s : Sys) :
  coherent (app s) -> coherent (app (exec (captureArtifact host) s)).
Proof.
  intros H.
  destruct (captureArtifact_run host s) as [-> | (id & url & time & e & ->)]; [exact H|].
  destruct H as (Hreg & Hbits & Hw & Hph).
  unfold coherent. cbn [localRegister lastBitstring qubitWeight photos].
  repeat split; try apply Hreg; try assumption.
  constructor; [|exact Hph]. cbn [Photo.bits Photo.weight].
  exists (localRegister (app s)). split; [exact Hreg|]. split; [exact Hbits|].
  destruct Hw as [-> | [Hz ->]]; [left; reflexivity | right; split; [exact Hz | reflexivity]].
Qed.

Lemma handle_coherent host (ev : Event) (s : Sys) :
  coherent (app s) -> coherent (app (exec (handle host ev) s)).
Proof.
  intros H.
  destruct (completes_job ev) eqn:Hjob.
  - destruct ev; try discriminate Hjob. apply fire_coherent. exact H.
  - assert (Hcap : ev = CaptureClicked \/ ev <> CaptureClicked)
      by (destruct ev; auto; right; discriminate).
    destruct Hcap as [-> | Hcap]; [apply capture_coherent; exact H|].
    destruct (handle_frame host ev s Hjob Hcap) as [Hp Hph].
    exact (coherent_frame _ _ Hp Hph H).
Qed.

Lemma coherent_along_runs host (evs : list Event) : forall s s',
  coherent (app s) -> run host evs s = Some s' -> coherent (app s').
Proof.
  induction evs as [|ev evs IH]; intros s s' Hs Hrun; cbn [run] in Hrun.
  - injection Hrun as <-. exact Hs.
  - unfold step in Hrun. destruct (enabled ev s); [|discriminate Hrun].
    exact (IH _ _ (handle_coherent host ev s Hs) Hrun).
Qed.


Lemma weight_of_count (k : nat) :
  (k <= 10)%nat ->
  JS.is_num (deriveWeight [Z.of_nat k]) (nth k weight_table 0 # 10000).
Proof.
  intros Hk.
  do 11 (destruct k as [|k]; [vm_compute; reflexivity|]).
  lia.
Qed.

Lemma weight_table_increasing (j k : nat) :
  (j < k)%nat -> (k <= 10)%nat -> nth j weight_table 0 < nth k weight_table 0.
Proof.
  intros Hjk Hk.
  do 11 (destruct k as [|k]; [do 11 (destruct j as [|j]; [try lia; cbn; lia|]); lia|]).
  lia.
Qed.

Lemma weight_table_range (k : nat) :
  (k <= 10)%nat -> 0 <= nth k weight_table 0 < 10000.
Proof.
  intros Hk. do 11 (destruct k as [|k]; [cbn; lia|]). lia.
Qed.

Lemma is_num_Fin (x : JS.number) (q : Q) : JS.is_num x q -> exists r, x = JS.Fin r /\ r == q.
Proof. destruct x as [|r]; cbn; [contradiction|]. intros H. exists r. auto. Qed.

Lemma register_weight (reg : list Z) :
  is_register reg ->
  JS.is_num (deriveWeight reg) (nth (count_ones reg) weight_table 0 # 10000) /\
  (count_ones reg <= 10)%nat.
Proof.
  intros [Hlen Hbits].
  assert (Hk : (count_ones reg <= 10)%nat) by (rewrite <- Hlen; apply count_ones_within).
  split; [|exact Hk].
  rewrite (deriveWeight_of_count reg Hbits). apply weight_of_count. exact Hk.
Qed.

Lemma register_weight_range (reg : list Z) :
  is_register reg -> exists q, deriveWeight reg = JS.Fin q /\ (0 <= q)%Q /\ (q < 1)%Q.
Proof.
  intros H. destruct (register_weight reg H) as [Hw Hk].
  destruct (is_num_Fin _ _ Hw) as (q & E & Hq). exists q. split; [exact E|].
  pose proof (weight_table_range _ Hk) as R.
  split; rewrite Hq; [unfold Qle | unfold Qlt]; cbn [Qnum Qden]; lia.
Qed.

(** X2: the weight of a ten-bit register is a number from 0 (included) to
    1 (excluded) that depends on the number of 1-bits only and grows
    strictly with it. *)
Theorem weight_by_ones (r1 r2 : list Z) :
  is_register r1 -> is_register r2 ->
  exists q1 q2,
    deriveWeight r1 = JS.Fin q1 /\ deriveWeight r2 = JS.Fin q2 /\
    (0 <= q1)%Q /\ (q1 < 1)%Q /\
    (count_ones r1 = count_ones r2 -> deriveWeight r1 = deriveWeight r2) /\
    ((count_ones r1 < count_ones r2)%nat <-> (q1 < q2)%Q).
Proof.
  intros H1 H2.
  destruct (register_weight r1 H1) as [Hw1 Hk1].
  destruct (register_weight r2 H2) as [Hw2 Hk2].
  destruct (is_num_Fin _ _ Hw1) as (q1 & E1 & Hq1).
  destruct (is_num_Fin _ _ Hw2) as (q2 & E2 & Hq2).
  exists q1, q2. split; [exact E1|]. split; [exact E2|].
  pose proof (weight_table_range _ Hk1) as R1.
  assert (Hlt : forall a b : Z, (a # 10000 < b # 10000)%Q <-> a < b)
    by (intros a b; unfold Qlt; cbn [Qnum Qden]; lia).
  split; [rewrite Hq1; unfold Qle; cbn [Qnum Qden]; lia|].
  split; [rewrite Hq1; unfold Qlt; cbn [Qnum Qden]; lia|].
  split.
  - intros Hc. destruct H1 as [_ B1], H2 as [_ B2].
    rewrite (deriveWeight_of_count r1 B1), (deriveWeight_of_count r2 B2), Hc. reflexivity.
  - rewrite Hq1, Hq2, Hlt. split.
    + intros H. apply weight_table_increasing; assumption.
    + intros H.
      destruct (Nat.lt_trichotomy (count_ones r1) (count_ones r2)) as [L | [E | G]];
        [exact L | rewrite E in H; lia |].
      pose proof (weight_table_increasing _ _ G Hk1). lia.
Qed.

(** * The lock pad *)

Lemma handlePinEntry_pad host (num : Z) (p : Page) :
  pad_of (execP (handlePinEntry host num) p) = key_step (pad_of p) num /\
  isLocked (execP (handlePinEntry host num) p) = isLocked p /\
  fst (handlePinEntry host num p) = inr tt.
Proof.
  unfold execP, handlePinEntry, bindP, get_page, key_step, pad_of.
  destruct (Nat.ltb (String.length (pinBuffer p)) 4); [|repeat split].
  cbn [setPinBuffer fst snd pinBuffer].
  destruct ((pinBuffer p ++ JS.string_of_Z num =? ACCESS_PIN)%string); [repeat split|].
  destruct (Nat.eqb (String.length (pinBuffer p ++ JS.string_of_Z num)) 4); repeat split.
Qed.

Lemma key_text (num : Z) : is_key num -> JS.string_of_Z num = String (key_char num) "".
Proof.
  unfold is_key. intros H.
  assert (C : num = 0 \/ num = 1 \/ num = 2 \/ num = 3 \/ num = 4 \/ num = 5 \/ num = 6
              \/ num = 7 \/ num = 8 \/ num = 9) by lia.
  repeat (destruct C as [-> | C]; [reflexivity|]). subst. reflexivity.
Qed.

Lemma key_char_inj (a b : Z) : is_key a -> is_key b -> key_char a = key_char b -> a = b.
Proof.
  unfold is_key, key_char. intros Ha Hb H.
  apply (f_equal N_of_ascii) in H.
  rewrite !N_ascii_embedding in H by lia. lia.
Qed.

Lemma string_cons_eqb (c d : ascii) (s t : string) :
  (String c s =? String d t)%string = (Ascii.eqb c d && (s =? t)%string)%bool.
Proof. reflexivity. Qed.

Lemma length_append (s t : string) :
  String.length (s ++ t) = (String.length s + String.length t)%nat.
Proof. induction s as [|c s IH]; cbn [append String.length]; [reflexivity | rewrite IH; reflexivity]. Qed.

Lemma key_step_short (buffer : string) (booting : bool) (num : Z) :
  is_key num -> (String.length buffer < 3)%nat ->
  key_step (buffer, booting) num = (buffer ++ String (key_char num) "", booting).
Proof.
  intros Hk Hlen. unfold key_step. rewrite (key_text num Hk).
  assert (Hn : String.length (buffer ++ String (key_char num) "") = S (String.length buffer))
    by (rewrite length_append; cbn [String.length]; lia).
  destruct (Nat.ltb_spec (String.length buffer) 4) as [_|]; [|lia].
  destruct (String.eqb_spec (buffer ++ String (key_char num) "") ACCESS_PIN) as [E|_].
  - rewrite E in Hn. cbn in Hn. lia.
  - rewrite Hn. destruct (Nat.eqb_spec (S (String.length buffer)) 4); [lia | reflexivity].
Qed.

Lemma key_step_fourth (buffer : string) (booting : bool) (num : Z) :
  is_key num -> String.length buffer = 3%nat ->
  key_step (buffer, booting) num =
  if (buffer ++ String (key_char num) "" =? ACCESS_PIN)%string
  then (buffer ++ String (key_char num) "", true) else ("", booting).
Proof.
  intros Hk Hlen. unfold key_step. rewrite (key_text num Hk), Hlen.
  cbn [Nat.ltb Nat.leb]. rewrite length_append, Hlen. reflexivity.
Qed.

Lemma key_step_full (st : string * bool) (num : Z) :
  (4 <= String.length (fst st))%nat -> key_step st num = st.
Proof.
  destruct st as [buffer booting]. cbn [fst]. intros H. unfold key_step.
  destruct (Nat.ltb_spec (String.length buffer) 4); [lia | reflexivity].
Qed.

Lemma keys_full (keys : list Z) : forall st,
  (4 <= String.length (fst st))%nat -> fold_left key_step keys st = st.
Proof.
  induction keys as [|k keys IH]; intros st H; [reflexivity|].
  cbn [fold_left]. rewrite (key_step_full st k H). apply IH. exact H.
Qed.

(** Four keys from an empty buffer. *)
Lemma four_keys (a b c d : Z) (booting : bool) :
  is_key a -> is_key b -> is_key c -> is_key d ->
  fold_left key_step [a; b; c; d] ("", booting) =
  if list_eq_dec Z.eq_dec [a; b; c; d] [5; 2; 8; 0] then ("5280", true) else ("", booting).
Proof.
  intros Ha Hb Hc Hd. cbn [fold_left].
  rewrite (key_step_short "" booting a Ha) by (cbn; lia). cbn [append].
  rewrite (key_step_short _ booting b Hb) by (cbn; lia). cbn [append].
  rewrite (key_step_short _ booting c Hc) by (cbn; lia). cbn [append].
  rewrite (key_step_fourth _ booting d Hd) by reflexivity. cbn [append].
  unfold ACCESS_PIN. rewrite !string_cons_eqb. cbn [String.eqb]. rewrite andb_true_r.
  change "5"%char with (key_char 5). change "2"%char with (key_char 2).
  change "8"%char with (key_char 8). change "0"%char with (key_char 0).
  destruct (list_eq_dec Z.eq_dec [a; b; c; d] [5; 2; 8; 0]) as [E | N].
  - injection E as -> -> -> ->. reflexivity.
  - destruct (Ascii.eqb_spec (key_char a) (key_char 5)) as [Ea|]; [|reflexivity].
    destruct (Ascii.eqb_spec (key_char b) (key_char 2)) as [Eb|]; [|reflexivity].
    destruct (Ascii.eqb_spec (key_char c) (key_char 8)) as [Ec|]; [|reflexivity].
    destruct (Ascii.eqb_spec (key_char d) (key_char 0)) as [Ed|]; [|reflexivity].
    exfalso. apply N.
    apply key_char_inj in Ea, Eb, Ec, Ed; unfold is_key in *; try lia. subst. reflexivity.
Qed.

(** Fewer than four keys from an empty buffer leave the flag alone. *)
Lemma few_keys (keys : list Z) (booting : bool) :
  Forall is_key keys -> (List.length keys < 4)%nat ->
  snd (fold_left key_step keys ("", booting)) = booting /\
  String.length (fst (fold_left key_step keys ("", booting))) = List.length keys.
Proof.
  intros Hk Hlen.
  destruct keys as [|a [|b [|c [|d keys]]]]; cbn [List.length] in Hlen; try lia;
    cbn [fold_left]; repeat (apply Forall_cons_iff in Hk; destruct Hk as [? Hk]).
  - split; reflexivity.
  - rewrite (key_step_short "" booting a) by (cbn; auto; lia). split; reflexivity.
  - rewrite (key_step_short "" booting a) by (cbn; auto; lia). cbn [append].
    rewrite (key_step_short _ booting b) by (cbn; auto; lia). split; reflexivity.
  - rewrite (key_step_short "" booting a) by (cbn; auto; lia). cbn [append].
    rewrite (key_step_short _ booting b) by (cbn; auto; lia). cbn [append].
    rewrite (key_step_short _ booting c) by (cbn; auto; lia). split; reflexivity.
Qed.

(** The keys are read in groups of four from the start. *)
Lemma keys_by_groups (n : nat) : forall keys booting,
  (List.length keys <= n)%nat -> Forall is_key keys ->
  snd (fold_left key_step keys ("", booting)) = true <->
  (booting = true \/ exists k, group k keys = [5; 2; 8; 0]).
Proof.
  induction n as [|n IH]; intros keys booting Hlen Hk.
  - destruct keys; [|cbn in Hlen; lia]. cbn [fold_left snd]. split; [auto|].
    intros [H | [k H]]; [exact H|]. unfold group in H. rewrite skipn_nil in H. discriminate H.
  - destruct (Nat.lt_ge_cases (List.length keys) 4) as [Hshort | Hlong].
    + destruct (few_keys keys booting Hk Hshort) as [-> _]. split; [auto|].
      intros [H | [k H]]; [exact H|]. unfold group in H.
      apply (f_equal (@List.length Z)) in H. rewrite length_firstn, length_skipn in H.
      cbn [List.length] in H. lia.
    + destruct keys as [|a [|b [|c [|d rest]]]]; cbn [List.length] in Hlong; try lia.
      assert (Hk' := Hk).
      repeat (apply Forall_cons_iff in Hk'; destruct Hk' as [? Hk']).
      change (fold_left key_step (a :: b :: c :: d :: rest) ("", booting))
        with (fold_left key_step rest (fold_left key_step [a; b; c; d] ("", booting))).
      rewrite four_keys by assumption.
      assert (Hgroup : forall k, group (S k) (a :: b :: c :: d :: rest) = group k rest).
      { intros k. unfold group. replace (4 * S k)%nat with (4 + 4 * k)%nat by lia.
        reflexivity. }
      destruct (list_eq_dec Z.eq_dec [a; b; c; d] [5; 2; 8; 0]) as [E | N].
      * rewrite keys_full by (cbn; lia). cbn [snd]. split; [|reflexivity].
        intros _. right. exists 0%nat. exact E.
      * assert (Hrest : (List.length rest <= n)%nat) by (cbn [List.length] in Hlen; lia).
        rewrite (IH rest booting Hrest Hk').
        split.
        -- intros [G | [k G]]; [left; exact G | right; exists (S k); rewrite Hgroup; exact G].
        -- intros [G | [[|k] G]]; [left; exact G | | right; exists k; rewrite <- Hgroup; exact G].
           exfalso. apply N. exact G.
Qed.

(** The three things a key can do. *)
Lemma handlePinEntry_cells host (num : Z) (p : Page) :
  let next := pinBuffer p ++ JS.string_of_Z num in
  pad_cells (execP (handlePinEntry host num) p) =
  if Nat.ltb (String.length (pinBuffer p)) 4 then
    if (next =? ACCESS_PIN)%string then (next, isLocked p, true, S (boot_timers p))
    else if Nat.eqb (String.length next) 4 then ("", isLocked p, isBooting p, boot_timers p)
    else (next, isLocked p, isBooting p, boot_timers p)
  else pad_cells p.
Proof.
  cbv zeta. unfold execP, handlePinEntry, bindP, get_page, pad_cells.
  destruct (Nat.ltb (String.length (pinBuffer p)) 4); [|reflexivity].
  cbn [setPinBuffer fst snd pinBuffer].
  destruct ((pinBuffer p ++ JS.string_of_Z num =? ACCESS_PIN)%string); [reflexivity|].
  destruct (Nat.eqb (String.length (pinBuffer p ++ JS.string_of_Z num)) 4); reflexivity.
Qed.

Lemma until_fetch_cells host (p : Page) :
  pad_cells (execP (runDecipher_until_fetch host) p) = pad_cells p.
Proof.
  unfold execP, runDecipher_until_fetch, bindP, get_page, core.
  cbn [fst snd host_read isAnalyzing].
  destruct (negb (videoRef_current host (reads (sys p))) || isAnalyzing p); reflexivity.
Qed.

Lemma after_fetch_cells host (r : Promise (Promise json_value)) (p : Page) :
  pad_cells (execP (runDecipher_after_fetch host r) p) = pad_cells p.
Proof.
  destruct r as [|[|data]]; try reflexivity.
  destruct data; reflexivity.
Qed.

Lemma camera_effect_cells (p : Page) :
  pad_cells (execP camera_effect p) = pad_cells p.
Proof.
  unfold execP, camera_effect, bindP, get_page, pad_cells.
  cbn [stop_current set_camera fst snd isLocked isBooting pinBuffer boot_timers].
  destruct (negb (isLocked p) && negb (isBooting p)); reflexivity.
Qed.

Lemma after_render_cells (before p : Page) :
  pad_cells (execP (after_render before) p) = pad_cells p.
Proof.
  unfold execP, after_render, bindP, get_page. cbn [fst snd].
  destruct (_ && _ && _); [reflexivity | apply camera_effect_cells].
Qed.

Lemma after_media_cells host (i : nat) (granted : Promise nat) (p : Page) :
  pad_cells (execP (startCamera_after_media host i granted) p) = pad_cells p.
Proof.
  unfold execP, startCamera_after_media, bindP, get_page, try_catchP, core, pad_cells.
  destruct granted as [|n]; [reflexivity|].
  cbn -[addLog nth without].
  destruct (videoRef_current host (reads (sys p))); reflexivity.
Qed.

Lemma after_play_cells host (j : nat) (played : Promise unit) (p : Page) :
  pad_cells (execP (startCamera_after_play host j played) p) = pad_cells p.
Proof. destruct played as [|[]]; reflexivity. Qed.

Lemma camera_effect_decipher_cells (p : Page) :
  decipher_cells (execP camera_effect p) = decipher_cells p.
Proof.
  unfold execP, camera_effect, bindP, get_page, decipher_cells.
  cbn [stop_current set_camera fst snd isLocked isBooting analysis isAnalyzing deciphering].
  destruct (negb (isLocked p) && negb (isBooting p)); reflexivity.
Qed.

Lemma after_render_decipher_cells (before p : Page) :
  decipher_cells (execP (after_render before) p) = decipher_cells p.
Proof.
  unfold execP, after_render, bindP, get_page. cbn [fst snd].
  destruct (_ && _ && _); [reflexivity | apply camera_effect_decipher_cells].
Qed.

Lemma after_media_decipher_cells host (i : nat) (granted : Promise nat) (p : Page) :
  decipher_cells (execP (startCamera_after_media host i granted) p) = decipher_cells p.
Proof.
  unfold execP, startCamera_after_media, bindP, get_page, try_catchP, core, decipher_cells.
  destruct granted as [|n]; [reflexivity|].
  cbn -[addLog nth without].
  destruct (videoRef_current host (reads (sys p))); reflexivity.
Qed.

Lemma after_play_decipher_cells host (j : nat) (played : Promise unit) (p : Page) :
  decipher_cells (execP (startCamera_after_play host j played) p) = decipher_cells p.
Proof. destruct played as [|[]]; reflexivity. Qed.

(** A step is a handler and a render. *)
Lemma stepP_handled host (ev : PageEvent) (p p' : Page) :
  stepP host ev p = Some p' ->
  exists q, handled host ev p = Some q /\ p' = execP (after_render p) q.
Proof.
  unfold stepP. destruct (handled host ev p) as [q|]; [|discriminate].
  intros H. injection H as <-. exists q. split; reflexivity.
Qed.

(** Only a key and the boot timer touch the cells of the lock pad. *)
Lemma handleP_pad_frame host (ev : PageEvent) (p : Page) :
  (forall num, ev <> PinPressed num) -> ev <> BootTimerFired ->
  pad_cells (execP (handleP host ev) p) = pad_cells p.
Proof.
  intros Hkey Hboot. destruct ev as [e | num | | | r | | id | | i granted | j played]; cbn [handleP].
  - reflexivity.
  - contradiction (Hkey num). reflexivity.
  - contradiction Hboot. reflexivity.
  - unfold execP, bindP.
    pose proof (until_fetch_cells host p) as H. unfold execP in H.
    destruct (runDecipher_until_fetch host p) as [[e|b] p1]; exact H.
  - apply after_fetch_cells.
  - reflexivity.
  - reflexivity.
  - reflexivity.
  - apply after_media_cells.
  - apply after_play_cells.
Qed.

Lemma handled_pad_ok host (ev : PageEvent) (p p' : Page) :
  pad_ok p -> handled host ev p = Some p' -> pad_ok p'.
Proof.
  intros Hok Hstep. unfold handled in Hstep.
  destruct (enabledP ev p) eqn:Hen; [|discriminate Hstep]. injection Hstep as <-.
  assert (Hcells : forall q, pad_cells q = pad_cells p -> pad_ok q).
  { intros q Hq. unfold pad_cells in Hq. injection Hq as Hb Hl Hbo Ht.
    unfold pad_ok. rewrite Hb, Hl, Hbo, Ht. exact Hok. }
  destruct ev as [e | num | | | r | | id | | i granted | j played];
    try (apply Hcells; apply handleP_pad_frame; [intros n|]; discriminate).
  - (* a key *)
    cbn [handleP enabledP] in Hen |- *. unfold screen in Hen. unfold pad_ok in Hok.
    destruct (isBooting p) eqn:Hbo; [discriminate Hen|].
    destruct (isLocked p) eqn:Hl; [|discriminate Hen].
    destruct Hok as [Hlen Ht].
    assert (Hkey : is_key num) by (unfold is_key; lia).
    pose proof (handlePinEntry_cells host num p) as Hc. cbv zeta in Hc.
    rewrite (key_text num Hkey) in Hc.
    assert (Hn : String.length (pinBuffer p ++ String (key_char num) "")
                 = S (String.length (pinBuffer p)))
      by (rewrite length_append; cbn [String.length]; lia).
    destruct (Nat.ltb_spec (String.length (pinBuffer p)) 4) as [_|]; [|lia].
    unfold pad_cells in Hc. unfold pad_ok.
    destruct (String.eqb_spec (pinBuffer p ++ String (key_char num) "") ACCESS_PIN) as [E|NE].
    + injection Hc as -> -> -> ->. rewrite E, Hl, Ht. split; reflexivity.
    + rewrite Hn in Hc.
      destruct (Nat.eqb_spec (S (String.length (pinBuffer p))) 4) as [E4|N4];
        injection Hc as -> -> -> ->; rewrite Hl, Hbo, Ht.
      * split; [cbn; lia | reflexivity].
      * split; [rewrite Hn; lia | reflexivity].
  - (* the boot timer *)
    cbn [handleP enabledP] in Hen |- *. unfold pad_ok in Hok |- *.
    unfold execP, boot_done, bindP. cbn.
    destruct (isLocked p), (isBooting p); try contradiction; destruct Hok as [Hb Ht];
      rewrite Ht in Hen |- *; try discriminate Hen.
    split; [exact Hb | reflexivity].
Qed.

Lemma pad_ok_cells (p q : Page) : pad_cells q = pad_cells p -> pad_ok p -> pad_ok q.
Proof.
  intros Hq Hok. unfold pad_cells in Hq. injection Hq as Hb Hl Hbo Ht.
  unfold pad_ok. rewrite Hb, Hl, Hbo, Ht. exact Hok.
Qed.

Lemma stepP_pad_ok host (ev : PageEvent) (p p' : Page) :
  pad_ok p -> stepP host ev p = Some p' -> pad_ok p'.
Proof.
  intros Hok Hstep. destruct (stepP_handled host ev p p' Hstep) as (q & Hq & ->).
  apply (pad_ok_cells q); [apply after_render_cells|].
  exact (handled_pad_ok host ev p q Hok Hq).
Qed.

Lemma pad_ok_along_runs host (evs : list PageEvent) : forall p p',
  pad_ok p -> runP host evs p = Some p' -> pad_ok p'.
Proof.
  induction evs as [|ev evs IH]; intros p p' Hp Hrun; cbn [runP] in Hrun.
  - injection Hrun as <-. exact Hp.
  - destruct (stepP host ev p) as [p1|] eqn:Hstep; [|discriminate Hrun].
    exact (IH _ _ (stepP_pad_ok host ev p p1 Hp Hstep) Hrun).
Qed.

Lemma pad_ok_initial : pad_ok initialPage.
Proof. split; [cbn; lia | reflexivity]. Qed.

(** The buffer and whether the PIN has been accepted, along a run, are
    those of the keys pressed. *)
Lemma handled_keys host (ev : PageEvent) (p p' : Page) :
  pad_ok p -> handled host ev p = Some p' ->
  (pinBuffer p', accepted p') = fold_left key_step (keys_of [ev]) (pinBuffer p, accepted p) /\
  Forall is_key (keys_of [ev]).
Proof.
  intros Hok Hstep. unfold handled in Hstep.
  destruct (enabledP ev p) eqn:Hen; [|discriminate Hstep]. injection Hstep as <-.
  assert (Hcells : forall q, pad_cells q = pad_cells p ->
                             (pinBuffer q, accepted q) = (pinBuffer p, accepted p)).
  { intros q Hq. unfold pad_cells in Hq. injection Hq as Hb Hl Hbo Ht.
    unfold accepted. rewrite Hb, Hl, Hbo. reflexivity. }
  destruct ev as [e | num | | | r | | id | | i granted | j played];
    try (split; [apply Hcells; apply handleP_pad_frame; [intros n|]; discriminate
                | constructor]).
  - cbn [handleP enabledP keys_of fold_left] in Hen |- *. unfold screen in Hen.
    destruct (isBooting p) eqn:Hbo; [discriminate Hen|].
    destruct (isLocked p) eqn:Hl; [|discriminate Hen].
    split; [|constructor; [unfold is_key; lia | constructor]].
    pose proof (handlePinEntry_cells host num p) as Hc. cbv zeta in Hc.
    unfold pad_cells in Hc. unfold accepted, key_step. rewrite Hbo, Hl. cbn [orb negb].
    destruct (Nat.ltb (String.length (pinBuffer p)) 4).
    + destruct ((pinBuffer p ++ JS.string_of_Z num =? ACCESS_PIN)%string).
      * injection Hc as -> -> -> _. reflexivity.
      * destruct (Nat.eqb (String.length (pinBuffer p ++ JS.string_of_Z num)) 4);
          injection Hc as -> -> -> _; rewrite Hbo, Hl; reflexivity.
    + injection Hc as -> -> -> _. rewrite Hbo, Hl. reflexivity.
  - cbn [handleP enabledP keys_of fold_left] in Hen |- *. split; [|constructor].
    unfold pad_ok in Hok. unfold accepted, execP, boot_done, bindP. cbn.
    destruct (isLocked p), (isBooting p); try contradiction; destruct Hok as [Hb Ht];
      rewrite Ht in Hen; try discriminate Hen. reflexivity.
Qed.

Lemma stepP_keys host (ev : PageEvent) (p p' : Page) :
  pad_ok p -> stepP host ev p = Some p' ->
  (pinBuffer p', accepted p') = fold_left key_step (keys_of [ev]) (pinBuffer p, accepted p) /\
  Forall is_key (keys_of [ev]).
Proof.
  intros Hok Hstep. destruct (stepP_handled host ev p p' Hstep) as (q & Hq & ->).
  destruct (handled_keys host ev p q Hok Hq) as [H K]. split; [|exact K].
  rewrite <- H. pose proof (after_render_cells p q) as Hc. unfold pad_cells in Hc.
  injection Hc as Hb Hl Hbo _. unfold accepted. rewrite Hb, Hl, Hbo. reflexivity.
Qed.

Lemma runP_keys host (evs : list PageEvent) : forall p p',
  pad_ok p -> runP host evs p = Some p' ->
  (pinBuffer p', accepted p') = fold_left key_step (keys_of evs) (pinBuffer p, accepted p) /\
  Forall is_key (keys_of evs).
Proof.
  induction evs as [|ev evs IH]; intros p p' Hp Hrun; cbn [runP] in Hrun.
  - injection Hrun as <-. split; [reflexivity | constructor].
  - destruct (stepP host ev p) as [p1|] eqn:Hstep; [|discriminate Hrun].
    destruct (stepP_keys host ev p p1 Hp Hstep) as [H1 K1].
    destruct (IH p1 p' (stepP_pad_ok host ev p p1 Hp Hstep) Hrun) as [H2 K2].
    assert (Hsplit : keys_of (ev :: evs) = (keys_of [ev] ++ keys_of evs)%list)
      by (destruct ev; reflexivity).
    rewrite Hsplit, fold_left_app, <- H1. split; [exact H2|].
    apply Forall_app. split; assumption.
Qed.

(** X3: on every run from the start, the PIN has been accepted exactly
    when one of the groups of four keys pressed, counted from the first
    key, is 5, 2, 8, 0; an unlocked page has the PIN in the buffer; the
    buffer never holds more than four characters, and four only when they
    are the PIN. *)
Theorem unlocked_by_the_pin host (evs : list PageEvent) (p : Page) :
  runP host evs initialPage = Some p ->
  (accepted p = true <-> exists k, group k (keys_of evs) = [5; 2; 8; 0]) /\
  (isLocked p = false -> accepted p = true /\ pinBuffer p = ACCESS_PIN) /\
  (String.length (pinBuffer p) <= 4)%nat /\
  (String.length (pinBuffer p) = 4%nat -> pinBuffer p = ACCESS_PIN).
Proof.
  intros Hrun.
  destruct (runP_keys host evs _ _ pad_ok_initial Hrun) as [Hfold Hkeys].
  pose proof (pad_ok_along_runs host evs _ _ pad_ok_initial Hrun) as Hok.
  change (pinBuffer initialPage, accepted initialPage) with ("", false) in Hfold.
  split; [|split; [|split]].
  - pose proof (keys_by_groups (List.length (keys_of evs)) (keys_of evs) false
                  (Nat.le_refl _) Hkeys) as H.
    rewrite <- Hfold in H. cbn [snd] in H. rewrite H. split.
    + intros [F | G]; [discriminate F | exact G].
    + intros G. right. exact G.
  - intros Hl. unfold pad_ok in Hok. unfold accepted. rewrite Hl in Hok |- *.
    destruct (isBooting p); [contradiction|]. split; [reflexivity | apply Hok].
  - unfold pad_ok in Hok. destruct (isLocked p), (isBooting p); try contradiction;
      destruct Hok as [Hb _]; try (rewrite Hb; cbn; lia). lia.
  - unfold pad_ok in Hok. destruct (isLocked p), (isBooting p); try contradiction;
      destruct Hok as [Hb _]; intros H4; try exact Hb. lia.
Qed.

(** * The decipher call *)

Lemma or_else_truthy (x : option json_value) (fallback : json_value) :
  truthy (Some fallback) = true -> truthy (Some (or_else x fallback)) = true.
Proof.
  intros Hf. unfold or_else. destruct x as [v|]; [|exact Hf].
  destruct (truthy (Some v)) eqn:Hv; [exact Hv | exact Hf].
Qed.

Lemma or_else_falsy (x : option json_value) (fallback : json_value) :
  truthy x = false -> or_else x fallback = fallback.
Proof. unfold or_else. destruct x as [v|]; [intros ->|]; reflexivity. Qed.

Lemma or_else_kept (v fallback : json_value) :
  truthy (Some v) = true -> or_else (Some v) fallback = v.
Proof. unfold or_else. intros ->. reflexivity. Qed.

Lemma regular_answer_text (text : json_value) :
  answer_text (property "candidates" (regular_answer text)) = Some text.
Proof. reflexivity. Qed.

(** The guard of line 223. *)
Lemma until_fetch_guarded host (p : Page) :
  videoRef_current host (reads (sys p)) = false \/ isAnalyzing p = true ->
  fst (runDecipher_until_fetch host p) = inr false /\
  cells (execP (runDecipher_until_fetch host) p) = cells p.
Proof.
  intros H. unfold execP, runDecipher_until_fetch, bindP, get_page, core.
  cbn [fst snd host_read isAnalyzing].
  assert (Hg : negb (videoRef_current host (reads (sys p))) || isAnalyzing p = true)
    by (destruct H as [-> | ->]; [reflexivity | apply orb_true_r]).
  rewrite Hg. split; reflexivity.
Qed.

(** Past the guard: the flag is up, one entry is logged, one request is
    out. *)
Lemma until_fetch_started host (p : Page) :
  videoRef_current host (reads (sys p)) = true -> isAnalyzing p = false ->
  exists p1,
    runDecipher_until_fetch host p = (inr true, p1) /\
    isAnalyzing p1 = true /\ analysis p1 = analysis p /\
    (deciphering p1 = deciphering p ++
       [mkPrompt (activeMode (app (sys p))) (qubitWeight (app (sys p)))
                 (after_first_comma (toDataURL host (4 + reads (sys p))))])%list /\
    pad_cells p1 = pad_cells p /\
    (exists e, is_entry "QML" "Aligning Spectrum Nodes..." None e /\
               logs (app (sys p1)) = e :: JS.slice0 29 (logs (app (sys p)))) /\
    link_of (sys p1) = link_of (sys p) /\
    published (app (sys p1)) = published (app (sys p)) /\
    photos (app (sys p1)) = photos (app (sys p)).
Proof.
  intros Hm Ha. unfold runDecipher_until_fetch, bindP, get_page, core.
  cbn [fst snd host_read isAnalyzing]. rewrite Hm, Ha. cbn [negb orb].
  cbn [setIsAnalyzing fst snd sys]. rewrite addLog_run.
  cbn [fst snd sys reads send_prompt retP app activeMode qubitWeight deciphering].
  eexists. split; [reflexivity|].
  cbn [isAnalyzing analysis deciphering sys app logs].
  rewrite (slice0_cons 29).
  repeat split.
  eexists (Log.mk _ _ _ _ _). split; [repeat split | reflexivity].
Qed.

(** The handler from the settled [fetch] on. *)
Lemma after_fetch_run host (fetched : Promise (Promise json_value)) (p : Page) :
  let p' := execP (runDecipher_after_fetch host fetched) p in
  fst (runDecipher_after_fetch host fetched p) = inr tt /\
  isAnalyzing p' = false /\
  deciphering p' = tl (deciphering p) /\
  pad_cells p' = pad_cells p /\
  link_of (sys p') = link_of (sys p) /\
  published (app (sys p')) = published (app (sys p)) /\
  photos (app (sys p')) = photos (app (sys p)) /\
  match answered fetched with
  | Some data =>
      analysis p' = or_else (answer_text (property "candidates" data)) fallback_text /\
      exists e, is_entry "AI" "Spectrum Sync Verified." None e /\
                logs (app (sys p')) = e :: JS.slice0 29 (logs (app (sys p)))
  | None =>
      analysis p' = analysis p /\
      exists e, is_entry "ERR" "QML Secure Link Timeout." None e /\
                logs (app (sys p')) = e :: JS.slice0 29 (logs (app (sys p)))
  end.
Proof.
  cbv zeta.
  assert (Hlog : forall type msg (s : Sys),
             exists e, is_entry type msg None e /\
                       logs (app (snd (addLog host type msg None s))) =
                       e :: JS.slice0 29 (logs (app s))).
  { intros type msg s. rewrite addLog_run. cbn [snd app logs]. rewrite (slice0_cons 29).
    eexists (Log.mk _ _ _ _ _). split; [repeat split | reflexivity]. }
  destruct fetched as [|[|data]]; [| |destruct data];
    (split; [reflexivity|]); (split; [reflexivity|]); (split; [reflexivity|]);
    (split; [reflexivity|]); (split; [reflexivity|]); (split; [reflexivity|]);
    (split; [reflexivity|]); cbn [answered]; (split; [reflexivity|]); apply Hlog.
Qed.

(** X4: without a video element, or while an analysis is running, a call
    of [runDecipher] returns at once: no cell changes, nothing is logged
    and no request is sent. *)
Theorem decipher_guard host (fetched : Promise (Promise json_value)) (p : Page) :
  videoRef_current host (reads (sys p)) = false \/ isAnalyzing p = true ->
  fst (runDecipher host fetched p) = inr tt /\
  cells (execP (runDecipher host fetched) p) = cells p.
Proof.
  intros H. destruct (until_fetch_guarded host p H) as [Hret Hcells].
  unfold execP, runDecipher, bindP in *.
  destruct (runDecipher_until_fetch host p) as [[e|b] p1]; cbn [fst snd] in *;
    [discriminate Hret|]. injection Hret as ->. split; [reflexivity | exact Hcells].
Qed.

Lemma slice0_slice0 {A} (n : nat) (l : list A) :
  JS.slice0 n (JS.slice0 (S n) l) = JS.slice0 n l.
Proof.
  unfold JS.slice0. rewrite firstn_firstn. f_equal. lia.
Qed.

(** The two ways [x || fallback] comes out. *)
Lemma or_else_cases (x : option json_value) (fallback : json_value) :
  (exists v, x = Some v /\ truthy (Some v) = true /\ or_else x fallback = v) \/
  (truthy x = false /\ or_else x fallback = fallback).
Proof.
  destruct x as [v|]; [|right; split; reflexivity].
  destruct (truthy (Some v)) eqn:Hv.
  - left. exists v. split; [reflexivity|]. split; [exact Hv|]. apply or_else_kept. exact Hv.
  - right. split; [reflexivity|]. apply or_else_falsy. exact Hv.
Qed.

(** X5: past its guard, a call of [runDecipher] returns normally
    whatever the network does, with the flag down again; it logs exactly
    two entries, first the announcement and then the success or the
    time-out, on top of the 28 newest entries of the log before; the lock
    pad, the link, the published cells and the gallery are as before; a
    parsed answer other than [null] sets the analysis to the value the
    chain reads when that value counts as true, whatever its type, and to
    the fallback text otherwise; every failure leaves the analysis as it
    was. *)
Theorem decipher_outcome host (fetched : Promise (Promise json_value)) (p : Page) :
  videoRef_current host (reads (sys p)) = true ->
  isAnalyzing p = false ->
  let p' := execP (runDecipher host fetched) p in
  fst (runDecipher host fetched p) = inr tt /\
  isAnalyzing p' = false /\
  pad_cells p' = pad_cells p /\
  link_of (sys p') = link_of (sys p) /\
  published (app (sys p')) = published (app (sys p)) /\
  photos (app (sys p')) = photos (app (sys p)) /\
  (exists e1 e2,
      logs (app (sys p')) = e1 :: e2 :: JS.slice0 28 (logs (app (sys p))) /\
      is_entry "QML" "Aligning Spectrum Nodes..." None e2 /\
      match answered fetched with
      | Some _ => is_entry "AI" "Spectrum Sync Verified." None e1
      | None => is_entry "ERR" "QML Secure Link Timeout." None e1
      end) /\
  match answered fetched with
  | Some data =>
      let read := answer_text (property "candidates" data) in
      analysis p' = or_else read fallback_text /\
      truthy (Some (analysis p')) = true /\
      ((exists v, read = Some v /\ truthy (Some v) = true /\ analysis p' = v) \/
       (truthy read = false /\ analysis p' = fallback_text))
  | None => analysis p' = analysis p
  end.
Proof.
  intros Hm Ha. cbv zeta.
  destruct (until_fetch_started host p Hm Ha)
    as (p1 & Hrun & Ha1 & Han1 & Hd1 & Hpad1 & (e2 & He2 & Hlog1) & Hl1 & Hp1 & Hph1).
  pose proof (after_fetch_run host fetched p1) as H2. cbv zeta in H2.
  destruct H2 as (Hret & Ha2 & Hd2 & Hpad2 & Hl2 & Hp2 & Hph2 & Hans).
  unfold execP, runDecipher, bindP. rewrite Hrun.
  unfold execP in *.
  split; [exact Hret|]. split; [exact Ha2|].
  split; [rewrite Hpad2; exact Hpad1|]. split; [rewrite Hl2; exact Hl1|].
  split; [rewrite Hp2; exact Hp1|]. split; [rewrite Hph2; exact Hph1|].
  assert (Hlogs : forall e1,
            logs (app (sys (snd (runDecipher_after_fetch host fetched p1)))) =
            e1 :: JS.slice0 29 (logs (app (sys p1))) ->
            logs (app (sys (snd (runDecipher_after_fetch host fetched p1)))) =
            e1 :: e2 :: JS.slice0 28 (logs (app (sys p)))).
  { intros e1 H. rewrite H, Hlog1, (slice0_cons 28), slice0_slice0. reflexivity. }
  destruct (answered fetched) as [data|]; destruct Hans as (Han & e1 & He1 & Hlog2).
  - split; [exists e1, e2; auto|].
    split; [exact Han|]. split; [rewrite Han; apply or_else_truthy; reflexivity|].
    rewrite Han. apply or_else_cases.
  - split; [exists e1, e2; auto|]. rewrite Han. exact Han1.
Qed.

(** X6: what [data.candidates?.[0]?.content?.parts?.[0]?.text ||
    "Signal divergence."] reads: the text of a regular answer, unless it
    counts as false (an empty string, [null], 0, [false]), in which case,
    as for an answer without candidates or with an empty list of them, the
    fallback. *)
Theorem answer_reading (text : json_value) (data : json_value) :
  (truthy (Some text) = true ->
   or_else (answer_text (property "candidates" (regular_answer text))) fallback_text = text) /\
  (truthy (Some text) = false ->
   or_else (answer_text (property "candidates" (regular_answer text))) fallback_text
   = fallback_text) /\
  (property "candidates" data = None ->
   or_else (answer_text (property "candidates" data)) fallback_text = fallback_text) /\
  or_else (answer_text (Some (JsArray []))) fallback_text = fallback_text.
Proof.
  rewrite regular_answer_text. split; [apply or_else_kept|].
  split; [apply or_else_falsy|]. split; [intros ->; reflexivity | reflexivity].
Qed.

Lemma decipher_ok_cells (p q : Page) :
  decipher_cells q = decipher_cells p -> decipher_ok p -> decipher_ok q.
Proof.
  intros Hc Hok. unfold decipher_cells in Hc. injection Hc as _ Hia Hd.
  unfold decipher_ok. rewrite Hia, Hd. exact Hok.
Qed.

Lemma handled_decipher_ok host (ev : PageEvent) (p p' : Page) :
  decipher_ok p -> handled host ev p = Some p' -> decipher_ok p'.
Proof.
  intros Hok Hstep. unfold handled in Hstep.
  destruct (enabledP ev p) eqn:Hen; [|discriminate Hstep]. injection Hstep as <-.
  destruct ev as [e | num | | | r | | id | | i granted | j played]; cbn [handleP].
  - exact Hok.
  - unfold decipher_ok, execP, handlePinEntry, bindP, get_page.
    destruct (Nat.ltb (String.length (pinBuffer p)) 4); [|exact Hok].
    cbn [setPinBuffer fst snd pinBuffer].
    destruct ((pinBuffer p ++ JS.string_of_Z num =? ACCESS_PIN)%string); [exact Hok|].
    destruct (Nat.eqb (String.length (pinBuffer p ++ JS.string_of_Z num)) 4); exact Hok.
  - exact Hok.
  - destruct (videoRef_current host (reads (sys p))) eqn:Hm.
    + destruct (isAnalyzing p) eqn:Ha.
      * destruct (until_fetch_guarded host p (or_intror Ha)) as [Hret Hcells].
        unfold execP, bindP in *.
        destruct (runDecipher_until_fetch host p) as [[e|b] p1]; cbn [fst snd] in *;
          [discriminate Hret|].
        unfold cells in Hcells. injection Hcells as _ _ _ _ _ _ _ _ Han Hia Hd.
        cbn [snd retP]. unfold decipher_ok. rewrite Hia, Hd. exact Hok.
      * destruct (until_fetch_started host p Hm Ha)
          as (p1 & Hrun & Ha1 & _ & Hd1 & _).
        unfold execP, bindP. rewrite Hrun. cbn [snd retP].
        left. split; [exact Ha1|]. rewrite Hd1.
        destruct Hok as [[F _] | [_ ->]]; [rewrite Ha in F; discriminate F | reflexivity].
    + destruct (until_fetch_guarded host p (or_introl Hm)) as [Hret Hcells].
      unfold execP, bindP in *.
      destruct (runDecipher_until_fetch host p) as [[e|b] p1]; cbn [fst snd] in *;
        [discriminate Hret|].
      unfold cells in Hcells. injection Hcells as _ _ _ _ _ _ _ _ Han Hia Hd.
      cbn [snd retP]. unfold decipher_ok. rewrite Hia, Hd. exact Hok.
  - pose proof (after_fetch_run host r p) as H. cbv zeta in H.
    destruct H as (_ & Ha & Hd & _).
    cbn [enabledP] in Hen.
    right. split; [exact Ha|]. rewrite Hd.
    destruct Hok as [[_ Hlen] | [_ Hnil]].
    + destruct (deciphering p) as [|q [|q' l]]; try discriminate Hlen. reflexivity.
    + rewrite Hnil in Hen. discriminate Hen.
  - exact Hok.
  - exact Hok.
  - exact Hok.
  - exact (decipher_ok_cells p _ (after_media_decipher_cells host i granted p) Hok).
  - exact (decipher_ok_cells p _ (after_play_decipher_cells host j played p) Hok).
Qed.

Lemma stepP_decipher_ok host (ev : PageEvent) (p p' : Page) :
  decipher_ok p -> stepP host ev p = Some p' -> decipher_ok p'.
Proof.
  intros Hok Hstep. destruct (stepP_handled host ev p p' Hstep) as (q & Hq & ->).
  apply (decipher_ok_cells q); [apply after_render_decipher_cells|].
  exact (handled_decipher_ok host ev p q Hok Hq).
Qed.

Lemma decipher_ok_along_runs host (evs : list PageEvent) : forall p p',
  decipher_ok p -> runP host evs p = Some p' -> decipher_ok p'.
Proof.
  induction evs as [|ev evs IH]; intros p p' Hp Hrun; cbn [runP] in Hrun.
  - injection Hrun as <-. exact Hp.
  - destruct (stepP host ev p) as [p1|] eqn:Hstep; [|discriminate Hrun].
    exact (IH _ _ (stepP_decipher_ok host ev p p1 Hp Hstep) Hrun).
Qed.

(** X7: on every run from the start at most one decipher request is in
    flight, and the flag [isAnalyzing] is up exactly while one is. *)
Theorem one_decipher_at_a_time host (evs : list PageEvent) (p : Page) :
  runP host evs initialPage = Some p ->
  (List.length (deciphering p) <= 1)%nat /\
  (isAnalyzing p = true <-> deciphering p <> []).
Proof.
  intros Hrun.
  assert (H0 : decipher_ok initialPage) by (right; split; reflexivity).
  destruct (decipher_ok_along_runs host evs _ _ H0 Hrun) as [[Ha Hlen] | [Ha Hnil]].
  - rewrite Ha, Hlen. split; [lia|]. split; [|reflexivity].
    intros _ E. rewrite E in Hlen. discriminate Hlen.
  - rewrite Ha, Hnil. split; [cbn; lia|]. split; [discriminate | congruence].
Qed.

(** * The core on runs of the whole page *)

Lemma quiet_refl (s : Sys) : quiet s s.
Proof.
  split; [reflexivity|]. split; [|auto].
  exists (fun _ => true). symmetry. apply forallb_filter_id. apply forallb_forall. auto.
Qed.

Lemma quiet_addLog host type msg details (s : Sys) :
  quiet s (snd (addLog host type msg details s)).
Proof.
  rewrite addLog_run. split; [reflexivity|]. split.
  - exists (fun _ => true). cbn [snd app photos]. symmetry.
    apply forallb_filter_id. apply forallb_forall. auto.
  - intros _. unfold log_bounded. cbn [snd app logs]. apply slice0_within.
Qed.

Lemma quiet_same_app (s s' : Sys) :
  app s' = app s -> timers s' = timers s -> inflight s' = inflight s -> quiet s s'.
Proof.
  intros Ha Ht Hi. unfold quiet, core_cells, link_of, log_bounded.
  rewrite Ha, Ht, Hi. split; [reflexivity|]. split; [|auto].
  exists (fun _ => true). symmetry. apply forallb_filter_id. apply forallb_forall. auto.
Qed.

Lemma quiet_trans (s1 s2 s3 : Sys) : quiet s1 s2 -> quiet s2 s3 -> quiet s1 s3.
Proof.
  intros (C1 & (k1 & P1) & B1) (C2 & (k2 & P2) & B2).
  split; [rewrite C2; exact C1|]. split; [|auto].
  exists (fun x => k1 x && k2 x)%bool. rewrite P2, P1.
  clear. induction (photos (app s1)) as [|x l IH]; [reflexivity|].
  cbn [filter]. destruct (k1 x); cbn [filter andb]; [destruct (k2 x)|]; rewrite IH; reflexivity.
Qed.

Lemma quiet_host_read {A} (oracle : nat -> A) (s : Sys) : quiet s (snd (host_read oracle s)).
Proof. apply quiet_same_app; reflexivity. Qed.

Lemma handlePinEntry_quiet host (num : Z) (p : Page) :
  quiet (sys p) (sys (execP (handlePinEntry host num) p)).
Proof.
  unfold execP, handlePinEntry, bindP, get_page.
  destruct (Nat.ltb (String.length (pinBuffer p)) 4); [|apply quiet_refl].
  cbn [setPinBuffer fst snd pinBuffer].
  destruct ((pinBuffer p ++ JS.string_of_Z num =? ACCESS_PIN)%string).
  - change (quiet (sys p) (snd (addLog host "SEC" "Nexus Handshake: Verified." None (sys p)))).
    apply quiet_addLog.
  - destruct (Nat.eqb (String.length (pinBuffer p ++ JS.string_of_Z num)) 4);
      [|apply quiet_refl].
    change (quiet (sys p) (snd (addLog host "ERR" "Invalid Hash." None (sys p)))).
    apply quiet_addLog.
Qed.

Lemma until_fetch_quiet host (p : Page) :
  quiet (sys p) (sys (execP (runDecipher_until_fetch host) p)).
Proof.
  unfold execP, runDecipher_until_fetch, bindP, get_page, core.
  cbn [fst snd host_read isAnalyzing].
  destruct (negb (videoRef_current host (reads (sys p))) || isAnalyzing p).
  - apply quiet_same_app; reflexivity.
  - cbn [setIsAnalyzing fst snd sys].
    set (s1 := mkSys (app (sys p)) (timers (sys p)) (inflight (sys p)) (S (reads (sys p)))).
    assert (H1 : quiet (sys p) s1) by (apply quiet_same_app; reflexivity).
    pose proof (quiet_addLog host "QML" "Aligning Spectrum Nodes..." None s1) as H2.
    rewrite addLog_run in H2 |- *. cbn [fst snd sys] in H2 |- *.
    apply (quiet_trans _ _ _ H1). apply (quiet_trans _ _ _ H2).
    apply quiet_same_app; reflexivity.
Qed.

Lemma after_fetch_quiet host (fetched : Promise (Promise json_value)) (p : Page) :
  quiet (sys p) (sys (execP (runDecipher_after_fetch host fetched) p)).
Proof.
  destruct fetched as [|[|data]]; [| |destruct data].
  all: first
    [ change (quiet (sys p) (snd (addLog host "ERR" "QML Secure Link Timeout." None (sys p))))
    | change (quiet (sys p) (snd (addLog host "AI" "Spectrum Sync Verified." None (sys p)))) ];
    apply quiet_addLog.
Qed.

Lemma camera_effect_sys (p : Page) : sys (execP camera_effect p) = sys p.
Proof.
  unfold execP, camera_effect, bindP, get_page.
  cbn [stop_current set_camera fst snd isLocked isBooting sys].
  destruct (negb (isLocked p) && negb (isBooting p)); reflexivity.
Qed.

Lemma after_render_sys (before p : Page) : sys (execP (after_render before) p) = sys p.
Proof.
  unfold execP, after_render, bindP, get_page. cbn [fst snd].
  destruct (_ && _ && _); [reflexivity | apply camera_effect_sys].
Qed.

(** What a settled [getUserMedia] does to the core: nothing but a log
    entry when refused; when granted one read of the host, and a log entry
    when no video element is there to play. *)
Lemma after_media_sys host (i : nat) (granted : Promise nat) (p : Page) :
  let mode := nth i (asking (camera p)) "" in
  sys (execP (startCamera_after_media host i granted) p) =
  match granted with
  | Rejects => snd (addLog host "ERR" "Optic sensory blocked." None (sys p))
  | Fulfils _ =>
      if videoRef_current host (reads (sys p))
      then snd (host_read (videoRef_current host) (sys p))
      else snd (addLog host "HW" ("Optic Link: " ++ mode) None
                  (snd (host_read (videoRef_current host) (sys p))))
  end.
Proof.
  cbv zeta. unfold execP, startCamera_after_media, bindP, get_page, try_catchP, core.
  destruct granted as [|n]; [reflexivity|].
  cbn -[addLog nth without].
  destruct (videoRef_current host (reads (sys p))); reflexivity.
Qed.

Lemma after_play_sys host (j : nat) (played : Promise unit) (p : Page) :
  let mode := nth j (playing (camera p)) "" in
  sys (execP (startCamera_after_play host j played) p) =
  match played with
  | Rejects => snd (addLog host "ERR" "Optic sensory blocked." None (sys p))
  | Fulfils _ => snd (addLog host "HW" ("Optic Link: " ++ mode) None (sys p))
  end.
Proof. destruct played as [|[]]; reflexivity. Qed.

Lemma after_media_quiet host (i : nat) (granted : Promise nat) (p : Page) :
  quiet (sys p) (sys (execP (startCamera_after_media host i granted) p)).
Proof.
  pose proof (after_media_sys host i granted p) as H. cbv zeta in H. rewrite H.
  destruct granted; [apply quiet_addLog|].
  destruct (videoRef_current host (reads (sys p))); [apply quiet_host_read|].
  exact (quiet_trans _ _ _ (quiet_host_read (videoRef_current host) (sys p))
           (quiet_addLog host _ _ _ _)).
Qed.

Lemma after_play_quiet host (j : nat) (played : Promise unit) (p : Page) :
  quiet (sys p) (sys (execP (startCamera_after_play host j played) p)).
Proof.
  pose proof (after_play_sys host j played p) as H. cbv zeta in H. rewrite H.
  destruct played; apply quiet_addLog.
Qed.

(** What a step of the page is to the core: a step of the core, or
    something quiet. *)
Lemma handled_core host (ev : PageEvent) (p p' : Page) :
  handled host ev p = Some p' ->
  (exists e, ev = Core e /\ step host e (sys p) = Some (sys p')) \/
  ((forall e, ev <> Core e) /\ quiet (sys p) (sys p')).
Proof.
  intros Hstep. unfold handled in Hstep.
  destruct (enabledP ev p) eqn:Hen; [|discriminate Hstep]. injection Hstep as <-.
  destruct ev as [e | num | | | r | | id | | i granted | j played]; cbn [handleP];
    [left | right; split; [intros e; discriminate|] ..].
  - exists e. split; [reflexivity|]. unfold step.
    assert (He : enabled e (sys p) = true).
    { cbn [enabledP] in Hen. destruct e; try exact Hen;
        apply andb_true_iff in Hen; apply Hen. }
    rewrite He. reflexivity.
  - apply handlePinEntry_quiet.
  - apply quiet_refl.
  - pose proof (until_fetch_quiet host p) as H. unfold execP, bindP in *.
    destruct (runDecipher_until_fetch host p) as [[e|b] p1]; exact H.
  - apply after_fetch_quiet.
  - apply quiet_refl.
  - unfold execP, purge, core. cbn [fst snd sys].
    split; [reflexivity|]. split; [|auto]. eexists. reflexivity.
  - apply quiet_refl.
  - apply after_media_quiet.
  - apply after_play_quiet.
Qed.

Lemma stepP_core host (ev : PageEvent) (p p' : Page) :
  stepP host ev p = Some p' ->
  (exists e, ev = Core e /\ step host e (sys p) = Some (sys p')) \/
  ((forall e, ev <> Core e) /\ quiet (sys p) (sys p')).
Proof.
  intros Hstep. destruct (stepP_handled host ev p p' Hstep) as (q & Hq & ->).
  rewrite after_render_sys. exact (handled_core host ev p q Hq).
Qed.

Lemma core_ok_initial : core_ok initialSys.
Proof.
  split; [exact link_ok_initial|]. split; [exact coherent_initial|].
  unfold log_bounded. cbn. lia.
Qed.

Lemma step_core_ok host (e : Event) (s s' : Sys) :
  core_ok s -> step host e s = Some s' -> core_ok s'.
Proof.
  intros (Hl & Hc & Hb) Hstep. unfold step in Hstep.
  destruct (enabled e s) eqn:Hen; [|discriminate Hstep]. injection Hstep as <-.
  split; [|split].
  - rewrite handle_link. apply link_step_ok; [exact Hl|].
    rewrite <- enabled_link. exact Hen.
  - apply handle_coherent. exact Hc.
  - apply log_bounded_handle. exact Hb.
Qed.

Lemma Forall_filter_keep {A} (P : A -> Prop) (keep : A -> bool) (l : list A) :
  Forall P l -> Forall P (filter keep l).
Proof.
  induction 1 as [|x l Hx _ IH]; cbn [filter]; [constructor|].
  destruct (keep x); [constructor; assumption | exact IH].
Qed.

Lemma quiet_link (s s' : Sys) : quiet s s' -> link_of s' = link_of s.
Proof.
  intros (Hcells & _). exact (f_equal (fun c => fst (fst (fst (fst c)))) Hcells).
Qed.

Lemma quiet_published (s s' : Sys) : quiet s s' -> published (app s') = published (app s).
Proof.
  intros (Hcells & _). exact (f_equal (fun c => snd (fst (fst (fst c)))) Hcells).
Qed.

Lemma quiet_core_ok (s s' : Sys) : core_ok s -> quiet s s' -> core_ok s'.
Proof.
  intros (Hl & Hc & Hb) Hq.
  pose proof (quiet_link _ _ Hq) as Hlink. pose proof (quiet_published _ _ Hq) as Hpub.
  destruct Hq as (_ & (keep & Hph) & Hlog).
  split; [rewrite Hlink; exact Hl|]. split; [|exact (Hlog Hb)].
  destruct Hc as (Hreg & Hbits & Hw & Hp).
  unfold published in Hpub. injection Hpub as Hr Hbs Hqw.
  unfold coherent. rewrite Hr, Hbs, Hqw, Hph.
  repeat split; try apply Hreg; try assumption.
  apply Forall_filter_keep. exact Hp.
Qed.

Lemma stepP_core_ok host (ev : PageEvent) (p p' : Page) :
  core_ok (sys p) -> stepP host ev p = Some p' -> core_ok (sys p').
Proof.
  intros Hok Hstep.
  destruct (stepP_core host ev p p' Hstep) as [(e & _ & He) | (_ & Hq)].
  - exact (step_core_ok host e _ _ Hok He).
  - exact (quiet_core_ok _ _ Hok Hq).
Qed.

Lemma core_ok_along_runs host (evs : list PageEvent) : forall p p',
  core_ok (sys p) -> runP host evs p = Some p' -> core_ok (sys p').
Proof.
  induction evs as [|ev evs IH]; intros p p' Hp Hrun; cbn [runP] in Hrun.
  - injection Hrun as <-. exact Hp.
  - destruct (stepP host ev p) as [p1|] eqn:Hstep; [|discriminate Hrun].
    exact (IH _ _ (stepP_core_ok host ev p p1 Hp Hstep) Hrun).
Qed.

Lemma reached_core_ok host (evs : list PageEvent) (p : Page) :
  runP host evs initialPage = Some p -> core_ok (sys p).
Proof. apply core_ok_along_runs. exact core_ok_initial. Qed.

(** X8: in every state the page reaches from its start, whatever the
    events, the log holds at most 30 entries. *)
Theorem log_within_capacity_on_every_run host (evs : list PageEvent) (p : Page) :
  runP host evs initialPage = Some p ->
  (List.length (logs (app (sys p))) <= 30)%nat.
Proof. intros Hrun. apply (reached_core_ok host evs p Hrun). Qed.


Lemma stepP_linked host (ev : PageEvent) (p p' : Page) :
  core_ok (sys p) -> stepP host ev p = Some p' ->
  linked (hardwareStatus (app (sys p))) = true ->
  linked (hardwareStatus (app (sys p'))) = true.
Proof.
  intros (Hl & _ & _) Hstep Hlk.
  destruct (stepP_core host ev p p' Hstep) as [(e & _ & He) | (_ & Hq)].
  - unfold step in He. destruct (enabled e (sys p)) eqn:Hen; [|discriminate He].
    injection He as <-. rewrite enabled_link in Hen.
    change (hardwareStatus (app (exec (handle host e) (sys p))))
      with (link_status (link_of (exec (handle host e) (sys p)))).
    rewrite handle_link. apply link_step_linked; assumption.
  - change (hardwareStatus (app (sys p'))) with (link_status (link_of (sys p'))).
    rewrite (quiet_link _ _ Hq). exact Hlk.
Qed.

(** X10: once the status is READY or BUSY it stays READY or BUSY on every
    later run: nothing on the page takes the link down again. *)
Theorem link_never_drops host (before after : list PageEvent) (p p' : Page) :
  runP host before initialPage = Some p ->
  linked (hardwareStatus (app (sys p))) = true ->
  runP host after p = Some p' ->
  linked (hardwareStatus (app (sys p'))) = true.
Proof.
  intros Hreach. pose proof (reached_core_ok host before p Hreach) as Hok. clear Hreach.
  revert p Hok. induction after as [|ev evs IH]; intros p Hok Hl Hrun; cbn [runP] in Hrun.
  - injection Hrun as <-. exact Hl.
  - destruct (stepP host ev p) as [p1|] eqn:Hstep; [|discriminate Hrun].
    exact (IH p1 (stepP_core_ok host ev p p1 Hok Hstep)
              (stepP_linked host ev p p1 Hok Hstep Hl) Hrun).
Qed.

Lemma remote_timer_exists (ts : list Timer) :
  remote_pending ts = 1%nat -> exists i t, nth_error ts i = Some t /\ is_remote t = true.
Proof.
  unfold remote_pending. induction ts as [|u ts IH]; cbn [filter]; [discriminate|].
  destruct (callback u) eqn:Hu.
  - intros _. exists 0%nat, u. unfold is_remote. rewrite Hu. split; reflexivity.
  - intros H. destruct (IH H) as (i & t & Hi & Ht). exists (S i), t. auto.
Qed.

(** X11: in a reached state whose status is BUSY, the timer of the remote
    job can fire and brings the status to READY, and no other event changes
    the status. *)
Theorem busy_is_left host (evs : list PageEvent) (p : Page) :
  runP host evs initialPage = Some p ->
  hardwareStatus (app (sys p)) = BUSY ->
  (exists i p', stepP host (Core (TimerFired i)) p = Some p' /\
                hardwareStatus (app (sys p')) = READY) /\
  (forall ev p', stepP host ev p = Some p' ->
                 hardwareStatus (app (sys p')) = BUSY \/
                 (exists i t, ev = Core (TimerFired i) /\
                              nth_error (timers (sys p)) i = Some t /\
                              callback t = TeleportResolved /\
                              hardwareStatus (app (sys p')) = READY)).
Proof.
  intros Hreach Hbusy.
  destruct (reached_core_ok host evs p Hreach) as (Hok & _ & _).
  unfold link_ok in Hok. cbn [link_of link_status link_inflight link_timers] in Hok.
  rewrite Hbusy in Hok. destruct Hok as [Hrq Hts]. split.
  - destruct (remote_timer_exists _ Hts) as (i & t & Hi & Ht).
    exists i, (execP (after_render p) (execP (handleP host (Core (TimerFired i))) p)). split.
    + unfold stepP, handled. cbn [enabledP enabled].
      assert (Hlt : (i < List.length (timers (sys p)))%nat)
        by (apply nth_error_Some; rewrite Hi; discriminate).
      apply Nat.ltb_lt in Hlt. rewrite Hlt. reflexivity.
    + rewrite after_render_sys.
      change (hardwareStatus (app (sys (execP (handleP host (Core (TimerFired i))) p))))
        with (link_status (link_of (exec (handle host (TimerFired i)) (sys p)))).
      rewrite handle_link. cbn [link_step link_of link_timers]. rewrite Hi.
      unfold is_remote in Ht. destruct (callback t); [reflexivity | discriminate Ht].
  - intros ev p' Hstep.
    destruct (stepP_core host ev p p' Hstep) as [(e & -> & He) | (_ & Hq)].
    + unfold step in He. destruct (enabled e (sys p)) eqn:Hen; [|discriminate He].
      injection He as He. rewrite <- He. rewrite enabled_link in Hen.
      change (hardwareStatus (app (exec (handle host e) (sys p))))
        with (link_status (link_of (exec (handle host e) (sys p)))).
      rewrite handle_link. unfold link_of in Hen |- *.
      destruct e as [v | | r | | i | | | m];
        cbn [link_enabled link_step link_status link_inflight link_timers link_token]
          in Hen |- *;
        rewrite ?Hbusy, ?Hrq in Hen; rewrite ?Hbusy;
        cbn [Status_eqb orb negb List.length Nat.eqb] in Hen |- *;
        try discriminate Hen; try (left; reflexivity).
      destruct (nth_error (timers (sys p)) i) as [t|] eqn:Hi; [|left; reflexivity].
      cbn [link_status]. destruct (callback t) eqn:Ht.
      * right. exists i, t. auto.
      * left. reflexivity.
    + left. change (hardwareStatus (app (sys p'))) with (link_status (link_of (sys p'))).
      rewrite (quiet_link _ _ Hq). exact Hbusy.
Qed.

(** X12: in every state the page reaches, the register has ten bits, the
    bit string is its text (ten characters), and the weight is the weight
    of the register, or the page still shows the initial 0.5 over the
    initial register; the weight is a number in the interval from 0 to 1,
    1 excluded. *)
Theorem published_cells_agree host (evs : list PageEvent) (p : Page) :
  runP host evs initialPage = Some p ->
  let a := app (sys p) in
  is_register (localRegister a) /\
  lastBitstring a = JS.join_empty (localRegister a) /\
  String.length (lastBitstring a) = 10%nat /\
  (qubitWeight a = deriveWeight (localRegister a) \/
   (localRegister a = repeat 0 10 /\ qubitWeight a = JS.Fin (1 # 2))) /\
  exists q, qubitWeight a = JS.Fin q /\ (0 <= q)%Q /\ (q < 1)%Q.
Proof.
  intros Hrun. cbv zeta.
  destruct (reached_core_ok host evs p Hrun) as (_ & (Hreg & Hbits & Hw & _) & _).
  split; [exact Hreg|]. split; [exact Hbits|].
  split; [rewrite Hbits, join_bits_length; apply Hreg|]. split; [exact Hw|].
  destruct Hw as [-> | [_ ->]].
  - exact (register_weight_range _ Hreg).
  - exists (1 # 2). split; [reflexivity|]. split; [vm_compute; discriminate | reflexivity].
Qed.

(** X13: in every state the page reaches, the bit string and the weight
    text of every photo of the gallery belong to one register (or are the
    initial pair), and the bit string has ten characters. *)
Theorem photos_are_not_torn host (evs : list PageEvent) (p : Page) :
  runP host evs initialPage = Some p ->
  Forall (fun x => paired (Photo.bits x) (Photo.weight x) /\
                   String.length (Photo.bits x) = 10%nat)
         (photos (app (sys p))).
Proof.
  intros Hrun.
  destruct (reached_core_ok host evs p Hrun) as (_ & (_ & _ & _ & Hph) & _).
  apply Forall_forall. intros x Hx.
  pose proof (proj1 (Forall_forall _ _) Hph x Hx) as Hp. split; [exact Hp|].
  destruct Hp as (reg & Hreg & -> & _). rewrite join_bits_length; apply Hreg.
Qed.

(** * Behind the lock *)

Lemma until_fetch_returns host (p : Page) :
  exists b, fst (runDecipher_until_fetch host p) = inr b.
Proof.
  unfold runDecipher_until_fetch, bindP, get_page, core.
  cbn [fst snd host_read isAnalyzing].
  destruct (negb (videoRef_current host (reads (sys p))) || isAnalyzing p);
    eexists; reflexivity.
Qed.

Lemma after_media_returns host (i : nat) (granted : Promise nat) (p : Page) :
  fst (startCamera_after_media host i granted p) = inr tt.
Proof.
  unfold startCamera_after_media, bindP, get_page, try_catchP, core.
  destruct granted as [|n]; [reflexivity|].
  cbn -[addLog nth without].
  destruct (videoRef_current host (reads (sys p))); reflexivity.
Qed.

Lemma after_play_returns host (j : nat) (played : Promise unit) (p : Page) :
  fst (startCamera_after_play host j played p) = inr tt.
Proof. destruct played as [|[]]; reflexivity. Qed.

Lemma camera_effect_returns (p : Page) : fst (camera_effect p) = inr tt.
Proof.
  unfold camera_effect, bindP, get_page.
  cbn [stop_current set_camera fst snd isLocked isBooting].
  destruct (negb (isLocked p) && negb (isBooting p)); reflexivity.
Qed.

(** X14: no handler of the page lets an exception out, whatever the state,
    the answers of the network and the host are: every handler returns
    normally, and so does the effect run after a render. *)
Theorem no_handler_throws host (ev : PageEvent) (before p : Page) :
  fst (handleP host ev p) = inr tt /\ fst (after_render before p) = inr tt.
Proof.
  split.
  2:{ unfold after_render, bindP, get_page. cbn [fst snd].
      destruct (_ && _ && _); [reflexivity | apply camera_effect_returns]. }
  destruct ev as [e | num | | | r | | id | | i granted | j played]; cbn [handleP].
  - unfold core. cbn [fst]. destruct (safe_handle host e (sys p)) as [[] H]. exact H.
  - apply handlePinEntry_pad.
  - reflexivity.
  - unfold bindP. destruct (until_fetch_returns host p) as [b Hb].
    destruct (runDecipher_until_fetch host p) as [[e|b'] p1]; cbn [fst] in Hb;
      [discriminate Hb | reflexivity].
  - exact (proj1 (after_fetch_run host r p)).
  - reflexivity.
  - reflexivity.
  - reflexivity.
  - apply after_media_returns.
  - apply after_play_returns.
Qed.

Lemma handlePinEntry_rest host (num : Z) (p : Page) :
  let p' := execP (handlePinEntry host num) p in
  analysis p' = analysis p /\ isAnalyzing p' = isAnalyzing p /\ deciphering p' = deciphering p /\
  camera p' = camera p.
Proof.
  cbv zeta. unfold execP, handlePinEntry, bindP, get_page.
  destruct (Nat.ltb (String.length (pinBuffer p)) 4); [|repeat split].
  cbn [setPinBuffer fst snd pinBuffer].
  destruct ((pinBuffer p ++ JS.string_of_Z num =? ACCESS_PIN)%string); [repeat split|].
  destruct (Nat.eqb (String.length (pinBuffer p ++ JS.string_of_Z num)) 4); repeat split.
Qed.

(** Behind the lock the effect asks for no camera. *)
Lemma camera_effect_locked (p : Page) :
  isLocked p = true -> currentStream (camera p) = None ->
  camera (execP camera_effect p) = camera p.
Proof.
  intros Hl Hc. unfold execP, camera_effect, bindP, get_page.
  cbn [stop_current set_camera fst snd isLocked isBooting camera].
  rewrite Hl, Hc. reflexivity.
Qed.

Lemma untouched_link (p : Page) :
  untouched p -> inflight (sys p) = [] /\ timers (sys p) = [].
Proof.
  intros (Hc & _). pose proof (f_equal (fun c => fst (fst (fst (fst c)))) Hc) as Hl.
  cbn [fst] in Hl. unfold link_of in Hl. injection Hl as _ _ Hi Ht. auto.
Qed.

Lemma handled_untouched host (ev : PageEvent) (p p' : Page) :
  (isLocked p = true -> untouched p) ->
  handled host ev p = Some p' ->
  isLocked p' = true -> untouched p'.
Proof.
  intros Hinv Hstep Hl'.
  assert (Hen : enabledP ev p = true)
    by (unfold handled in Hstep; destruct (enabledP ev p); [reflexivity | discriminate Hstep]).
  assert (Hp' : p' = execP (handleP host ev) p)
    by (unfold handled in Hstep; rewrite Hen in Hstep; injection Hstep as <-; reflexivity).
  assert (Hmain : on_main p = true -> isLocked p = false).
  { unfold on_main, screen. destruct (isBooting p); [discriminate|].
    destruct (isLocked p); [discriminate | reflexivity]. }
  assert (Hframe : (forall num, ev <> PinPressed num) -> ev <> BootTimerFired ->
                   isLocked p = true).
  { intros H1 H2. pose proof (handleP_pad_frame host ev p H1 H2) as Hc.
    rewrite <- Hp' in Hc. unfold pad_cells in Hc. injection Hc as _ Hl _ _.
    rewrite <- Hl. exact Hl'. }
  destruct ev as [e | num | | | r | | id | | i granted | j played].
  - assert (Hl : isLocked p = true) by (apply Hframe; [intros n|]; discriminate).
    destruct (untouched_link p (Hinv Hl)) as [Hi Ht].
    cbn [enabledP] in Hen. exfalso.
    destruct e; cbn [enabled] in Hen; rewrite ?Hi, ?Ht in Hen;
      try (apply andb_true_iff in Hen; destruct Hen as [Hm _];
           rewrite (Hmain Hm) in Hl; discriminate Hl);
      try discriminate Hen.
  - assert (Hl : isLocked p = true).
    { destruct (handlePinEntry_pad host num p) as (_ & H & _). cbn [handleP] in Hp'.
      rewrite <- Hp' in H. rewrite <- H. exact Hl'. }
    destruct (Hinv Hl) as (Hc & Hph & Ha & Hia & Hd & Hcam).
    pose proof (handlePinEntry_quiet host num p) as Hq.
    pose proof (handlePinEntry_rest host num p) as Hr. cbv zeta in Hr.
    cbn [handleP] in Hp'. rewrite <- Hp' in Hq, Hr.
    destruct Hq as (Hc' & (keep & Hph') & _). destruct Hr as (Ha' & Hia' & Hd' & Hcam').
    split; [rewrite Hc'; exact Hc|]. split; [rewrite Hph', Hph; reflexivity|].
    split; [rewrite Ha'; exact Ha|]. split; [rewrite Hia'; exact Hia|].
    split; [rewrite Hd'; exact Hd | rewrite Hcam'; exact Hcam].
  - rewrite Hp' in Hl'. discriminate Hl'.
  - assert (Hl : isLocked p = true) by (apply Hframe; [intros n|]; discriminate).
    cbn [enabledP] in Hen. rewrite (Hmain Hen) in Hl. discriminate Hl.
  - assert (Hl : isLocked p = true) by (apply Hframe; [intros n|]; discriminate).
    destruct (Hinv Hl) as (_ & _ & _ & _ & Hd & _).
    cbn [enabledP] in Hen. rewrite Hd in Hen. discriminate Hen.
  - assert (Hl : isLocked p = true) by (apply Hframe; [intros n|]; discriminate).
    cbn [enabledP] in Hen. apply andb_true_iff in Hen. destruct Hen as [Hm _].
    rewrite (Hmain Hm) in Hl. discriminate Hl.
  - assert (Hl : isLocked p = true) by (apply Hframe; [intros n|]; discriminate).
    cbn [enabledP] in Hen. apply andb_true_iff in Hen. destruct Hen as [Hm _].
    rewrite (Hmain Hm) in Hl. discriminate Hl.
  - assert (Hl : isLocked p = true) by (apply Hframe; [intros n|]; discriminate).
    cbn [enabledP] in Hen. rewrite (Hmain Hen) in Hl. discriminate Hl.
  - assert (Hl : isLocked p = true) by (apply Hframe; [intros n|]; discriminate).
    destruct (Hinv Hl) as (_ & _ & _ & _ & _ & Hcam).
    cbn [enabledP] in Hen. rewrite Hcam in Hen. discriminate Hen.
  - assert (Hl : isLocked p = true) by (apply Hframe; [intros n|]; discriminate).
    destruct (Hinv Hl) as (_ & _ & _ & _ & _ & Hcam).
    cbn [enabledP] in Hen. rewrite Hcam in Hen. discriminate Hen.
Qed.

Lemma after_render_locked (before p : Page) :
  isLocked p = true -> currentStream (camera p) = None ->
  camera (execP (after_render before) p) = camera p.
Proof.
  intros Hl Hc. unfold execP, after_render, bindP, get_page. cbn [fst snd].
  destruct (_ && _ && _); [reflexivity | apply camera_effect_locked; assumption].
Qed.

Lemma stepP_untouched host (ev : PageEvent) (p p' : Page) :
  (isLocked p = true -> untouched p) ->
  stepP host ev p = Some p' ->
  isLocked p' = true -> untouched p'.
Proof.
  intros Hinv Hstep Hl'. destruct (stepP_handled host ev p p' Hstep) as (q & Hq & ->).
  pose proof (after_render_cells p q) as Hpad. unfold pad_cells in Hpad.
  injection Hpad as _ Hl _ _. rewrite Hl in Hl'.
  destruct (handled_untouched host ev p q Hinv Hq Hl') as (Hc & Hph & Ha & Hia & Hd & Hcam).
  pose proof (after_render_decipher_cells p q) as Hdc. unfold decipher_cells in Hdc.
  injection Hdc as Ha' Hia' Hd'.
  unfold untouched. rewrite after_render_sys, Ha', Hia', Hd'.
  rewrite (after_render_locked p q Hl') by (rewrite Hcam; reflexivity). auto 6.
Qed.

(** X15: while the page is locked (the lock screen or the boot screen)
    nothing but the log and the lock pad has changed since the start: the
    link, the published cells, the gallery, the mode, the analysis and the
    camera are untouched, and no camera has been asked for. *)
Theorem locked_page_is_inert host (evs : list PageEvent) (p : Page) :
  runP host evs initialPage = Some p ->
  isLocked p = true ->
  link_of (sys p) = link_of initialSys /\
  published (app (sys p)) = published initialApp /\
  photos (app (sys p)) = [] /\
  activeMode (app (sys p)) = "STANDARD" /\
  analysis p = JsString "" /\ isAnalyzing p = false /\ deciphering p = [] /\
  camera p = camera initialPage.
Proof.
  intros Hrun Hl.
  assert (Hinv : forall evs p0 p1, (isLocked p0 = true -> untouched p0) ->
                   runP host evs p0 = Some p1 -> isLocked p1 = true -> untouched p1).
  { clear. induction evs as [|ev evs IH]; intros p0 p1 H0 Hrun; cbn [runP] in Hrun.
    - injection Hrun as <-. exact H0.
    - destruct (stepP host ev p0) as [q|] eqn:Hstep; [|discriminate Hrun].
      apply (IH q p1); [|exact Hrun]. exact (stepP_untouched host ev p0 q H0 Hstep). }
  assert (H0 : isLocked initialPage = true -> untouched initialPage)
    by (intros _; repeat split).
  destruct (Hinv evs initialPage p H0 Hrun Hl) as (Hc & Hph & Ha & Hia & Hd & Hcam).
  split; [exact (f_equal (fun c => fst (fst (fst (fst c)))) Hc)|].
  split; [exact (f_equal (fun c => snd (fst (fst (fst c)))) Hc)|].
  split; [exact Hph|].
  split; [exact (f_equal (fun c => snd (fst c)) Hc)|]. auto 6.
Qed.

(** * The parity label *)

Lemma register_listed (n : nat) : forall reg,
  List.length reg = n -> Forall is_bit reg -> In reg (registers n).
Proof.
  induction n as [|n IH]; intros [|b reg] Hlen Hbits; try discriminate Hlen.
  - left. reflexivity.
  - cbn [registers]. apply in_flat_map. exists reg.
    apply Forall_cons_iff in Hbits. destruct Hbits as [Hb Hbits].
    injection Hlen as Hlen. split; [apply IH; assumption|].
    destruct Hb as [-> | ->]; [left | right; left]; reflexivity.
Qed.

Lemma list_Z_eqb_eq (a b : list Z) : list_Z_eqb a b = true -> a = b.
Proof.
  revert b. induction a as [|x a IH]; intros [|y b] H; try discriminate H; [reflexivity|].
  cbn [list_Z_eqb] in H. apply andb_true_iff in H. destruct H as [Hx Hr].
  apply Z.eqb_eq in Hx. rewrite Hx, (IH b Hr). reflexivity.
Qed.

Lemma labels_checked :
  forallb (fun reg =>
             (String.length (btoa (JS.join_empty reg)) =? 16)%nat
             && (parity_label (JS.join_empty reg) =? btoa (JS.join_empty reg))%string
             && list_Z_eqb (read_label (parity_label (JS.join_empty reg))) reg)
          (registers 10) = true.
Proof. vm_compute. reflexivity. Qed.

(** A label can be read back. *)
Lemma label_read_back (reg : list Z) :
  is_register reg ->
  String.length (btoa (JS.join_empty reg)) = 16%nat /\
  parity_label (JS.join_empty reg) = btoa (JS.join_empty reg) /\
  read_label (parity_label (JS.join_empty reg)) = reg.
Proof.
  intros [Hlen Hbits].
  pose proof (register_listed 10 reg Hlen Hbits) as Hin.
  pose proof (proj1 (forallb_forall _ _) labels_checked reg Hin) as H.
  apply andb_true_iff in H. destruct H as [H H3].
  apply andb_true_iff in H. destruct H as [H1 H2].
  split; [apply Nat.eqb_eq; exact H1|].
  split; [apply String.eqb_eq; exact H2 | apply list_Z_eqb_eq; exact H3].
Qed.

(** X16: the parity label of a photo, [btoa(bits).substring(0, 16)], is
    the whole base64 text of the ten-character bit string (nothing is cut
    off), and two registers with the same label are the same register. *)
Theorem parity_label_tells_the_register (reg other : list Z) :
  is_register reg -> is_register other ->
  let bits := JS.join_empty reg in
  String.length (btoa bits) = 16%nat /\
  parity_label bits = btoa bits /\
  (parity_label bits = parity_label (JS.join_empty other) -> reg = other).
Proof.
  intros Hreg Hother. cbv zeta.
  destruct (label_read_back reg Hreg) as (H1 & H2 & H3).
  destruct (label_read_back other Hother) as (_ & _ & H4).
  split; [exact H1|]. split; [exact H2|].
  intros E. rewrite <- H3, E. exact H4.
Qed.

(** * The gallery and the camera *)

(** ** The gallery *)

Lemma filter_all {A} (keep : A -> bool) (l : list A) :
  filter keep l = l <-> Forall (fun x => keep x = true) l.
Proof.
  induction l as [|x l IH]; cbn [filter]; [split; [constructor | reflexivity]|].
  destruct (keep x) eqn:Hx.
  - split.
    + intros H. injection H as H. constructor; [exact Hx | apply IH; exact H].
    + intros H. inversion H; subst. f_equal. apply IH. assumption.
  - split.
    + intros H. exfalso.
      assert (Hlen : (List.length (filter keep l) <= List.length l)%nat) by apply filter_length_le.
      rewrite H in Hlen. cbn [List.length] in Hlen. lia.
    + intros H. inversion H; subst. congruence.
Qed.

Lemma number_differs_refl (z : Z) : number_differs (JS.of_Z z) (JS.of_Z z) = false.
Proof.
  unfold number_differs, JS.of_Z. apply negb_false_iff. apply Qeq_bool_iff. reflexivity.
Qed.

(** The cells after a capture with a video element to draw. *)
Lemma capture_taken host (s : Sys) :
  videoRef_current host (reads s) = true ->
  app (exec (captureArtifact host) s) =
  mkApp (ibmToken (app s)) (ibmAccessToken (app s)) (hardwareStatus (app s))
        (Photo.mk (JS.of_Z (Date_now host (S (reads s))))
                  (toDataURL host (S (S (reads s))))
                  (activeMode (app s)) (lastBitstring (app s))
                  (JS.toFixed (qubitWeight (app s)) 4)
                  (toLocaleTimeString host (S (S (S (reads s)))))
         :: photos (app s))
        (localRegister (app s)) (qubitWeight (app s)) (lastBitstring (app s))
        (activeMode (app s)) (isTeleporting (app s))
        (JS.slice0 30
           (Log.mk (JS.add (JS.of_Z (Date_now host (S (S (S (S (reads s)))))))
                           (JS.Fin (Math_random host (S (S (S (S (S (reads s)))))))))
                   "SYS" ("Registry Locked to Archive: " ++ lastBitstring (app s)) None
                   (JS.before_space
                      (toLocaleTimeString host (S (S (S (S (S (S (reads s)))))))))
            :: logs (app s))).
Proof.
  intros Hm. destruct s as [a ts rq n]. cbn [reads app] in Hm |- *.
  cbv beta iota delta [exec captureArtifact bind host_read reads].
  cbn [fst snd]. rewrite Hm. cbn [negb].
  lazy -[JS.toFixed JS.slice0 JS.before_space append Z.add JS.add JS.of_Z]. reflexivity.
Qed.

Lemma capture_skipped host (s : Sys) :
  videoRef_current host (reads s) = false ->
  app (exec (captureArtifact host) s) = app s.
Proof.
  intros Hm. destruct s as [a ts rq n]. cbn [reads app] in Hm |- *.
  cbv beta iota delta [exec captureArtifact bind host_read reads].
  cbn [fst snd]. rewrite Hm. reflexivity.
Qed.

(** X17: a capture returns normally and leaves the link, the published
    cells and the mode alone; without a video element it changes no cell
    at all; with one it puts one photo first, identified by the clock and
    carrying the mode, the bit string and the weight to four decimals of
    the page at that moment, and logs one entry naming the bit string. *)
Theorem capture_outcome host (s : Sys) :
  let s' := exec (captureArtifact host) s in
  returns (captureArtifact host) s /\
  link_of s' = link_of s /\
  published (app s') = published (app s) /\
  activeMode (app s') = activeMode (app s) /\
  if videoRef_current host (reads s)
  then
    exists x e,
      photos (app s') = x :: photos (app s) /\
      Photo.id x = JS.of_Z (Date_now host (S (reads s))) /\
      Photo.mode x = activeMode (app s) /\
      Photo.bits x = lastBitstring (app s) /\
      Photo.weight x = JS.toFixed (qubitWeight (app s)) 4 /\
      is_entry "SYS" ("Registry Locked to Archive: " ++ lastBitstring (app s)) None e /\
      logs (app s') = e :: JS.slice0 29 (logs (app s))
  else app s' = app s.
Proof.
  cbv zeta.
  split; [exact (safe_handle host CaptureClicked s)|].
  split; [apply captureArtifact_link|].
  destruct (videoRef_current host (reads s)) eqn:Hm.
  - rewrite (capture_taken host s Hm). cbn [published activeMode photos logs localRegister
                                             lastBitstring qubitWeight].
    split; [reflexivity|]. split; [reflexivity|].
    eexists (Photo.mk _ _ _ _ _ _), (Log.mk _ _ _ _ _).
    rewrite (slice0_cons 29). repeat split.
  - rewrite (capture_skipped host s Hm). repeat split.
Qed.

Lemma purge_run host (id : JS.number) (p : Page) :
  app (sys (execP (handleP host (PurgeClicked id)) p)) =
  mkApp (ibmToken (app (sys p))) (ibmAccessToken (app (sys p)))
        (hardwareStatus (app (sys p)))
        (filter (fun x => number_differs (Photo.id x) id) (photos (app (sys p))))
        (localRegister (app (sys p))) (qubitWeight (app (sys p)))
        (lastBitstring (app (sys p))) (activeMode (app (sys p)))
        (isTeleporting (app (sys p))) (logs (app (sys p))).
Proof. reflexivity. Qed.

(** X18: a capture puts one photo first, identified by the clock; purging
    by that identifier removes it together with every older photo taken
    at the same millisecond, so the gallery is as before exactly when no
    older photo has that identifier; the purge logs nothing: the entry of
    the capture stays first in the log. *)
Theorem purge_after_capture host (p : Page) :
  videoRef_current host (reads (sys p)) = true ->
  let now := JS.of_Z (Date_now host (S (reads (sys p)))) in
  let taken := execP (handleP host (Core CaptureClicked)) p in
  let purged := execP (handleP host (PurgeClicked now)) taken in
  let others := fun x => number_differs (Photo.id x) now in
  (exists x, photos (app (sys taken)) = x :: photos (app (sys p)) /\ Photo.id x = now) /\
  photos (app (sys purged)) = filter others (photos (app (sys p))) /\
  (photos (app (sys purged)) = photos (app (sys p)) <->
   Forall (fun x => others x = true) (photos (app (sys p)))) /\
  logs (app (sys purged)) = logs (app (sys taken)) /\
  (exists e, is_entry "SYS" ("Registry Locked to Archive: " ++ lastBitstring (app (sys p)))
                      None e /\
             logs (app (sys purged)) = e :: JS.slice0 29 (logs (app (sys p)))).
Proof.
  intros Hm now taken purged others.
  assert (Htaken : app (sys taken) = app (exec (captureArtifact host) (sys p))) by reflexivity.
  rewrite (capture_taken host (sys p) Hm) in Htaken.
  subst purged. rewrite purge_run. cbn [photos logs]. rewrite Htaken. cbn [photos logs].
  split; [eexists; split; reflexivity|].
  assert (Hf : forall x l, Photo.id x = now -> filter others (x :: l) = filter others l).
  { intros x l E. cbn [filter]. unfold others at 1. rewrite E. unfold now.
    rewrite number_differs_refl. reflexivity. }
  change (fun x => number_differs (Photo.id x) now) with others.
  rewrite Hf by reflexivity.
  split; [reflexivity|]. split; [apply filter_all|]. split; [reflexivity|].
  rewrite (slice0_cons 29). eexists (Log.mk _ _ _ _ _).
  split; [repeat split | reflexivity].
Qed.

(** ** The camera *)

Lemma without_last {A} (l : list A) (x : A) : without (List.length l) (l ++ [x]) = l.
Proof.
  unfold without. rewrite firstn_app, Nat.sub_diag, firstn_all. cbn [firstn].
  rewrite app_nil_r. rewrite skipn_all2; [apply app_nil_r|].
  rewrite length_app. cbn [List.length]. lia.
Qed.

Lemma nth_last {A} (l : list A) (x d : A) : nth (List.length l) (l ++ [x]) d = x.
Proof. rewrite app_nth2, Nat.sub_diag; [reflexivity | lia]. Qed.

Lemma without_length {A} (i : nat) (l : list A) :
  (i < List.length l)%nat -> S (List.length (without i l)) = List.length l.
Proof.
  intros Hi. unfold without. rewrite length_app, length_firstn, length_skipn. lia.
Qed.

Lemma handled_camera host (ev : PageEvent) (p q : Page) :
  handled host ev p = Some q -> camera q = camera_handled host ev p.
Proof.
  unfold handled. destruct (enabledP ev p); [|discriminate]. intros H. injection H as <-.
  destruct ev as [e | num | | | r | | id | | i granted | j played]; cbn [handleP camera_handled].
  - reflexivity.
  - apply handlePinEntry_rest.
  - reflexivity.
  - unfold execP, runDecipher_until_fetch, bindP, get_page, core.
    cbn [fst snd host_read isAnalyzing].
    destruct (negb (videoRef_current host (reads (sys p))) || isAnalyzing p); reflexivity.
  - destruct r as [|[|data]]; [| |destruct data]; reflexivity.
  - reflexivity.
  - reflexivity.
  - reflexivity.
  - unfold execP, startCamera_after_media, bindP, get_page, try_catchP, core.
    destruct granted as [|n]; [reflexivity|].
    cbn -[addLog nth without].
    destruct (videoRef_current host (reads (sys p))); reflexivity.
  - destruct played as [|[]]; reflexivity.
Qed.

Lemma after_render_camera (before p : Page) :
  camera (execP (after_render before) p) = rendered before p.
Proof.
  unfold execP, after_render, rendered, bindP, get_page. cbn [fst snd].
  destruct (_ && _ && _); [reflexivity|].
  destruct p as [s pb lk bo an ia bt de [fm st cur so sp ask pl]].
  destruct cur, lk, bo; reflexivity.
Qed.

Lemma stepP_camera host (ev : PageEvent) (p p' : Page) :
  stepP host ev p = Some p' ->
  exists q, camera q = camera_handled host ev p /\ camera p' = rendered p q.
Proof.
  intros Hstep. destruct (stepP_handled host ev p p' Hstep) as (q & Hq & ->).
  exists q. split; [exact (handled_camera host ev p q Hq) | apply after_render_camera].
Qed.

(** The render stops no stream but the current one, and takes none. *)
Lemma rendered_streams (before q : Page) :
  let c := rendered before q in
  currentStream c = currentStream (camera q) /\
  (forall n, In n (stopped (camera q)) -> In n (stopped c)) /\
  (forall n, In n (stopped c) ->
             In n (stopped (camera q)) \/ currentStream (camera q) = Some n) /\
  (asking c = asking (camera q) \/
   (exists mode, asking c = (asking (camera q) ++ [mode])%list) /\
   forall n, currentStream (camera q) = Some n -> In n (stopped c)).
Proof.
  cbv zeta. unfold rendered, stopped_current.
  destruct (_ && _ && _); [repeat split; auto|].
  destruct (currentStream (camera q)) as [m|] eqn:Hm.
  - destruct (negb (isLocked q) && negb (isBooting q));
      cbn [currentStream stream srcObject playing stopped asking In];
      (split; [reflexivity|]); (split; [auto|]); split.
    + intros n [<- | [<- | H]]; auto.
    + right. split; [eexists; reflexivity|]. intros n H. injection H as <-. auto.
    + intros n [<- | H]; auto.
    + left. reflexivity.
  - destruct (negb (isLocked q) && negb (isBooting q));
      cbn [currentStream stream srcObject playing stopped asking]; rewrite ?Hm;
      (split; [reflexivity|]); (split; [auto|]); split; auto.
    right. split; [eexists; reflexivity|]. intros n H. discriminate H.
Qed.

(** ** A stream out of reach stays out of reach *)

Lemma stepP_leaked host (ev : PageEvent) (p p' : Page) (n : nat) :
  stepP host ev p = Some p' ->
  ~ In n (granted_in [ev]) ->
  ~ held (camera p) n -> ~ held (camera p') n.
Proof.
  intros Hstep Hfresh Hfree.
  destruct (stepP_camera host ev p p' Hstep) as (q & Hq & ->).
  pose proof (rendered_streams p q) as Hr. cbv zeta in Hr.
  destruct Hr as (Hcur & _ & Hst & _).
  assert (Hq' : ~ held (camera q) n).
  { rewrite Hq. unfold held in *.
    destruct ev as [e | num | | | r | | id | | i granted | j played];
      cbn [camera_handled]; try exact Hfree.
    - destruct granted as [|m]; [exact Hfree|].
      cbn [granted_in In] in Hfresh.
      destruct (videoRef_current host (reads (sys p))); cbn [currentStream stopped];
        intros [H | H]; [injection H as ->; apply Hfresh; auto | apply Hfree; auto
                        |injection H as ->; apply Hfresh; auto | apply Hfree; auto]. }
  unfold held in *. rewrite Hcur. intros [H | H]; [apply Hq'; auto|].
  apply Hst in H. destruct H as [H | H]; apply Hq'; auto.
Qed.

Lemma granted_in_app (evs1 evs2 : list PageEvent) :
  granted_in (evs1 ++ evs2) = (granted_in evs1 ++ granted_in evs2)%list.
Proof.
  induction evs1 as [|ev evs1 IH]; [reflexivity|].
  destruct ev as [e | num | | | r | | id | | i [|m] | j played]; cbn [granted_in List.app];
    rewrite ?IH; reflexivity.
Qed.

Lemma runP_leaked host (evs : list PageEvent) (n : nat) : forall p p',
  runP host evs p = Some p' ->
  ~ In n (granted_in evs) ->
  ~ held (camera p) n -> ~ held (camera p') n.
Proof.
  induction evs as [|ev evs IH]; intros p p' Hrun Hfresh Hfree; cbn [runP] in Hrun.
  - injection Hrun as <-. exact Hfree.
  - destruct (stepP host ev p) as [p1|] eqn:Hstep; [|discriminate Hrun].
    change (ev :: evs) with ([ev] ++ evs)%list in Hfresh. rewrite granted_in_app in Hfresh.
    apply (IH p1 p' Hrun).
    + intros H. apply Hfresh. apply in_or_app. auto.
    + apply (stepP_leaked host ev p p1 n Hstep); [|exact Hfree].
      intros H. apply Hfresh. apply in_or_app. auto.
Qed.

(** X19: when two calls of [getUserMedia] wait at once and both are
    granted one after the other, the stream of the first is neither the
    current one nor stopped, and stays so on every later run that does not
    grant it again: its tracks are never stopped. *)
Theorem overlapping_calls_leak host (i1 i2 n1 n2 : nat) (later : list PageEvent)
        (p p1 p2 p' : Page) :
  stepP host (MediaSettled i1 (Fulfils n1)) p = Some p1 ->
  stepP host (MediaSettled i2 (Fulfils n2)) p1 = Some p2 ->
  n1 <> n2 ->
  ~ In n1 (stopped (camera p)) ->
  runP host later p2 = Some p' ->
  ~ In n1 (granted_in later) ->
  (2 <= List.length (asking (camera p)))%nat /\
  currentStream (camera p1) = Some n1 /\
  currentStream (camera p') <> Some n1 /\
  ~ In n1 (stopped (camera p')).
Proof.
  intros H1 H2 Hne Hfree Hrun Hfresh.
  assert (Hcam : forall i n a b, stepP host (MediaSettled i (Fulfils n)) a = Some b ->
            (i < List.length (asking (camera a)))%nat /\
            currentStream (camera b) = Some n /\
            stopped (camera b) = stopped (camera a) /\
            asking (camera b) = without i (asking (camera a))).
  { intros i n a b Hstep.
    assert (Hen : (i < List.length (asking (camera a)))%nat).
    { unfold stepP, handled in Hstep. cbn [enabledP] in Hstep.
      destruct (Nat.ltb_spec i (List.length (asking (camera a)))); [assumption | discriminate]. }
    split; [exact Hen|].
    destruct (stepP_handled host _ a b Hstep) as (q & Hq & ->).
    pose proof (handled_camera host _ a q Hq) as Hc. cbn [camera_handled] in Hc.
    assert (Hsame : rendered a q = camera q).
    { unfold rendered.
      pose proof (handleP_pad_frame host (MediaSettled i (Fulfils n)) a) as Hf.
      assert (Hq' : q = execP (handleP host (MediaSettled i (Fulfils n))) a).
      { unfold handled in Hq. destruct (enabledP _ a); [|discriminate Hq].
        injection Hq as <-. reflexivity. }
      rewrite <- Hq' in Hf. unfold pad_cells in Hf.
      assert (Hcells : (pinBuffer q, isLocked q, isBooting q, boot_timers q) =
                       (pinBuffer a, isLocked a, isBooting a, boot_timers a))
        by (apply Hf; [intros k|]; discriminate).
      injection Hcells as _ -> -> _.
      assert (Hfm : facingMode (camera q) = facingMode (camera a))
        by (rewrite Hc; destruct (videoRef_current host (reads (sys a))); reflexivity).
      rewrite Hfm, !eqb_reflx, String.eqb_refl. reflexivity. }
    rewrite after_render_camera, Hsame, Hc.
    destruct (videoRef_current host (reads (sys a))); repeat split. }
  destruct (Hcam _ _ _ _ H1) as (Hi1 & Hc1 & Hs1 & Ha1).
  destruct (Hcam _ _ _ _ H2) as (Hi2 & Hc2 & Hs2 & Ha2).
  assert (Hlen : (2 <= List.length (asking (camera p)))%nat).
  { rewrite Ha1 in Hi2. pose proof (without_length i1 (asking (camera p)) Hi1). lia. }
  split; [exact Hlen|]. split; [exact Hc1|].
  assert (Hfree2 : ~ held (camera p2) n1).
  { unfold held. rewrite Hc2, Hs2, Hs1. intros [H | H]; [injection H as H; auto | auto]. }
  pose proof (runP_leaked host later n1 p2 p' Hrun Hfresh Hfree2) as H.
  unfold held in H. split; intros F; apply H; auto.
Qed.

(** ** Calls that do not overlap *)

Lemma stepP_calm host (ev : PageEvent) (p p' : Page) (seen : list nat) :
  stepP host ev p = Some p' ->
  (List.length (asking (camera p')) <= 1)%nat ->
  camera_calm (camera p) -> Forall (held (camera p)) seen ->
  camera_calm (camera p') /\ Forall (held (camera p')) (seen ++ granted_in [ev]).
Proof.
  intros Hstep Hone [Hlen Hold] Hseen.
  assert (Hen : enabledP ev p = true).
  { unfold stepP, handled in Hstep. destruct (enabledP ev p); [reflexivity | discriminate]. }
  destruct (stepP_camera host ev p p' Hstep) as (q & Hq & Hp').
  pose proof (rendered_streams p q) as Hr. cbv zeta in Hr. rewrite <- Hp' in Hr.
  destruct Hr as (Hcur & Hkeep & _ & Hask).
  (* after the handler *)
  assert (Hmid : (asking (camera q) <> [] ->
                  forall n, currentStream (camera q) = Some n -> In n (stopped (camera q))) /\
                 Forall (held (camera q)) (seen ++ granted_in [ev])).
  { rewrite Hq.
    destruct ev as [e | num | | | r | | id | | i granted | j played];
      cbn [camera_handled granted_in]; rewrite ?app_nil_r;
      try (split; [exact Hold | exact Hseen]); [].
    cbn [enabledP] in Hen. apply Nat.ltb_lt in Hen.
    assert (Hnil : without i (asking (camera p)) = []).
    { pose proof (without_length i _ Hen) as Hw.
      destruct (without i (asking (camera p))); [reflexivity|].
      cbn [List.length] in Hw. lia. }
    assert (Hne : asking (camera p) <> [])
      by (intros E; rewrite E in Hen; cbn in Hen; lia).
    destruct granted as [|m].
    - cbn [asking currentStream stopped]. rewrite Hnil.
      split; [intros F; contradiction F; reflexivity|].
      rewrite app_nil_r. exact Hseen.
    - assert (Hall : forall c', currentStream c' = Some m -> stopped c' = stopped (camera p) ->
                Forall (held c') (seen ++ [m])).
      { intros c' Hc' Hs'. apply Forall_app. split.
        - apply Forall_forall. intros n Hn.
          pose proof (proj1 (Forall_forall _ _) Hseen n Hn) as [H | H].
          + right. rewrite Hs'. exact (Hold Hne n H).
          + right. rewrite Hs'. exact H.
        - constructor; [left; exact Hc' | constructor]. }
      destruct (videoRef_current host (reads (sys p))); cbn [asking currentStream stopped];
        rewrite Hnil; (split; [intros F; contradiction F; reflexivity|]);
        apply Hall; reflexivity. }
  destruct Hmid as [Hold' Hseen'].
  split.
  - split; [exact Hone|]. intros Hne n Hn. rewrite Hcur in Hn.
    destruct Hask as [Hsame | [_ Hstop]].
    + rewrite Hsame in Hne. apply Hkeep. exact (Hold' Hne n Hn).
    + exact (Hstop n Hn).
  - apply Forall_forall. intros n Hn.
    pose proof (proj1 (Forall_forall _ _) Hseen' n Hn) as [H | H].
    + left. rewrite Hcur. exact H.
    + right. apply Hkeep. exact H.
Qed.

Lemma runP_calm host (evs : list PageEvent) : forall p p' seen,
  runP host evs p = Some p' -> calm host evs p = true ->
  camera_calm (camera p) -> Forall (held (camera p)) seen ->
  camera_calm (camera p') /\ Forall (held (camera p')) (seen ++ granted_in evs).
Proof.
  induction evs as [|ev evs IH]; intros p p' seen Hrun Hcalm Hc Hseen;
    cbn [runP calm] in Hrun, Hcalm.
  - injection Hrun as <-. cbn [granted_in]. rewrite app_nil_r. auto.
  - destruct (stepP host ev p) as [p1|] eqn:Hstep; [|discriminate Hrun].
    apply andb_true_iff in Hcalm. destruct Hcalm as [Hone Hcalm].
    apply Nat.leb_le in Hone.
    destruct (stepP_calm host ev p p1 seen Hstep Hone Hc Hseen) as [Hc1 Hseen1].
    destruct (IH p1 p' _ Hrun Hcalm Hc1 Hseen1) as [Hc' Hseen'].
    split; [exact Hc'|].
    change (ev :: evs) with ([ev] ++ evs)%list. rewrite granted_in_app, app_assoc.
    exact Hseen'.
Qed.

(** X20: on a run from the start in which at most one call of
    [getUserMedia] waits at any moment, every stream granted is the
    current one or has been stopped. *)
Theorem calm_camera_holds_every_stream host (evs : list PageEvent) (p : Page) :
  runP host evs initialPage = Some p ->
  calm host evs initialPage = true ->
  Forall (fun n => currentStream (camera p) = Some n \/ In n (stopped (camera p)))
         (granted_in evs).
Proof.
  intros Hrun Hcalm.
  assert (H0 : camera_calm (camera initialPage)).
  { split; [cbn; lia | intros F; contradiction F; reflexivity]. }
  exact (proj2 (runP_calm host evs initialPage p [] Hrun Hcalm H0 (Forall_nil _))).
Qed.

(** ** One whole call of [startCamera] *)

Lemma addLog_entry host type msg (s : Sys) :
  exists e, is_entry type msg None e /\
            logs (app (snd (addLog host type msg None s))) = e :: JS.slice0 29 (logs (app s)).
Proof.
  rewrite addLog_run. cbn [snd app logs]. rewrite (slice0_cons 29).
  eexists (Log.mk _ _ _ _ _). split; [repeat split | reflexivity].
Qed.

Lemma after_media_camera host (i : nat) (granted : Promise nat) (p : Page) :
  camera (execP (startCamera_after_media host i granted) p) =
  camera_handled host (MediaSettled i granted) p.
Proof.
  unfold execP, startCamera_after_media, bindP, get_page, try_catchP, core.
  destruct granted as [|n]; [reflexivity|].
  cbn -[addLog nth without].
  destruct (videoRef_current host (reads (sys p))); reflexivity.
Qed.

Lemma after_play_camera host (j : nat) (played : Promise unit) (p : Page) :
  camera (execP (startCamera_after_play host j played) p) =
  camera_handled host (PlaySettled j played) p.
Proof. destruct played as [|[]]; reflexivity. Qed.

Lemma until_media_run (mode : string) (p : Page) :
  let c := camera p in
  fst (startCamera_until_media mode p) = inr tt /\
  sys (execP (startCamera_until_media mode) p) = sys p /\
  camera (execP (startCamera_until_media mode) p) =
  mkCamera (facingMode c) (stream c) (currentStream c) (srcObject c)
           (match currentStream c with Some m => m :: stopped c | None => stopped c end)
           (asking c ++ [mode]) (playing c).
Proof.
  destruct p as [s pb lk bo an ia bt de [fm st cur so sp ask pl]].
  destruct cur; repeat split.
Qed.

Lemma run_pair {A} (c : PM A) (p : Page) (a : A) :
  fst (c p) = inr a -> c p = (inr a, execP c p).
Proof. unfold execP. destruct (c p) as [r q]. cbn [fst snd]. intros ->. reflexivity. Qed.

(** X21: one whole call of [startCamera] returns normally; the stream that
    was current is stopped whatever follows; a granted stream becomes the
    current one even when [play] then fails, and a refusal leaves the
    stopped stream as the current one; exactly one entry is logged: the
    optic link with the facing mode of the call, or the error when the
    camera is refused or [play] fails. *)
Theorem startCamera_outcome host (granted : Promise nat) (played : Promise unit) (p : Page) :
  let c := camera p in
  let p' := execP (startCamera host granted played) p in
  let mounted := videoRef_current host (reads (sys p)) in
  let fine := match granted, played with
              | Rejects, _ => false
              | Fulfils _, Rejects => negb mounted
              | Fulfils _, Fulfils _ => true
              end in
  fst (startCamera host granted played p) = inr tt /\
  stopped (camera p') = match currentStream c with
                        | Some m => m :: stopped c
                        | None => stopped c
                        end /\
  asking (camera p') = asking c /\ playing (camera p') = playing c /\
  facingMode (camera p') = facingMode c /\
  match granted with
  | Rejects =>
      currentStream (camera p') = currentStream c /\ stream (camera p') = stream c /\
      srcObject (camera p') = srcObject c
  | Fulfils n =>
      currentStream (camera p') = Some n /\ stream (camera p') = Some n /\
      srcObject (camera p') = if mounted then Some n else srcObject c
  end /\
  exists e,
    is_entry (if fine then "HW" else "ERR")
             (if fine then "Optic Link: " ++ facingMode c else "Optic sensory blocked.")
             None e /\
    logs (app (sys p')) = e :: JS.slice0 29 (logs (app (sys p))).
Proof.
  cbv zeta.
  set (c := camera p).
  set (p1 := execP (startCamera_until_media (facingMode c)) p).
  destruct (until_media_run (facingMode c) p) as (R1 & S1 & C1).
  fold c p1 in S1, C1. cbv zeta in C1. fold c in C1.
  set (i := List.length (asking c)).
  set (p2 := execP (startCamera_after_media host i granted) p1).
  pose proof (run_pair _ p tt R1) as E1. fold p1 in E1.
  pose proof (run_pair _ p1 tt (after_media_returns host i granted p1)) as E2. fold p2 in E2.
  pose proof (after_media_camera host i granted p1) as C2. fold p2 in C2.
  pose proof (after_media_sys host i granted p1) as S2. cbv zeta in S2. fold p2 in S2.
  rewrite S1 in S2.
  assert (Hmode : nth i (asking (camera p1)) "" = facingMode c)
    by (rewrite C1; cbn [asking]; apply nth_last).
  assert (Hrest : without i (asking (camera p1)) = asking c)
    by (rewrite C1; cbn [asking]; apply without_last).
  rewrite Hmode in S2.
  unfold execP, startCamera, bindP, get_page. cbn [fst snd].
  fold c i. rewrite E1, E2.
  destruct granted as [|n].
  - (* refused *)
    cbn [camera_handled] in C2. rewrite Hrest, C1 in C2.
    cbn [facingMode stream currentStream srcObject stopped playing] in C2.
    rewrite C2. cbn [playing]. rewrite Nat.ltb_irrefl. cbn [retP fst snd].
    rewrite C2, S2. cbn [facingMode stream currentStream srcObject stopped playing asking].
    repeat (split; [solve [repeat split]|]). apply addLog_entry.
  - cbn [camera_handled] in C2. rewrite S1, Hmode, Hrest, C1 in C2.
    cbn [facingMode stream currentStream srcObject stopped playing] in C2.
    destruct (videoRef_current host (reads (sys p))) eqn:Hm.
    + (* granted, a video element to play *)
      rewrite C2. cbn [playing].
      assert (Hlt : (List.length (playing c) <? List.length (playing c ++ [facingMode c]))%nat
                    = true)
        by (apply Nat.ltb_lt; rewrite length_app; cbn [List.length]; lia).
      rewrite Hlt.
      set (j := List.length (playing c)).
      set (p3 := execP (startCamera_after_play host j played) p2).
      pose proof (run_pair _ p2 tt (after_play_returns host j played p2)) as E3. fold p3 in E3.
      pose proof (after_play_camera host j played p2) as C3. fold p3 in C3.
      pose proof (after_play_sys host j played p2) as S3. cbv zeta in S3. fold p3 in S3.
      cbn [camera_handled] in C3. rewrite C2 in C3, S3.
      cbn [facingMode stream currentStream srcObject stopped playing asking] in C3, S3.
      unfold j in C3, S3. rewrite without_last in C3. rewrite nth_last in S3.
      rewrite E3. cbn [fst snd]. rewrite C3, S3, S2.
      cbn [facingMode stream currentStream srcObject stopped playing asking].
      repeat (split; [solve [repeat split]|]).
      assert (Hread : forall type msg,
                exists e, is_entry type msg None e /\
                  logs (app (snd (addLog host type msg None
                                    (snd (host_read (videoRef_current host) (sys p)))))) =
                  e :: JS.slice0 29 (logs (app (sys p))))
        by (intros type msg; apply (addLog_entry host type msg
                                      (snd (host_read (videoRef_current host) (sys p))))).
      destruct played as [|[]]; cbn [negb]; apply Hread.
    + (* granted, no video element *)
      rewrite C2. cbn [playing]. rewrite Nat.ltb_irrefl. cbn [retP fst snd].
      rewrite C2, S2. cbn [facingMode stream currentStream srcObject stopped playing asking].
      repeat (split; [solve [repeat split]|]).
      assert (Hfine : forall A (x : Promise A),
                match x with Rejects => negb false | Fulfils _ => true end = true)
        by (intros A []; reflexivity).
      rewrite Hfine.
      apply (addLog_entry host "HW" _ (snd (host_read (videoRef_current host) (sys p)))).
Qed.

(** * The interrupted pipeline is never signalled *)

Lemma uninterrupted_frame {A} (c : M A) :
  (forall s, logs (app (snd (c s))) = logs (app s)) -> preserves uninterrupted c.
Proof. intros H s Hs. unfold uninterrupted. rewrite H. exact Hs. Qed.

Lemma uninterrupted_entry (s s' : Sys) (e : Log.entry) :
  logs (app s') = JS.slice0 30 (e :: logs (app s)) ->
  Log.msg e <> "Job Pipeline Interrupted." ->
  uninterrupted s -> uninterrupted s'.
Proof.
  intros Hlog He Hs. unfold uninterrupted. rewrite Hlog.
  apply Forall_forall. intros x Hx. apply In_slice0 in Hx.
  destruct Hx as [<- | Hx]; [exact He | exact (proj1 (Forall_forall _ _) Hs x Hx)].
Qed.

Lemma uninterrupted_addLog host type msg details :
  msg <> "Job Pipeline Interrupted." -> preserves uninterrupted (addLog host type msg details).
Proof.
  intros Hmsg s Hs. rewrite addLog_run. cbn [snd].
  eapply uninterrupted_entry; [reflexivity | exact Hmsg | exact Hs].
Qed.

(** The [catch] of a body that never throws is never run. *)
Lemma preserves_try_catch_safe (P : Sys -> Prop) {A} (body : M A) (handler : Exn -> M A) :
  safe body -> preserves P body -> preserves P (try_catch body handler).
Proof.
  intros Hsafe Hb s H. unfold try_catch. specialize (Hb s H).
  destruct (Hsafe s) as [a Ha].
  destruct (body s) as [[e | a'] s1]; cbn [fst snd] in *; [discriminate Ha | exact Hb].
Qed.

Ltac other_message :=
  let H := fresh in
  intros H; apply (f_equal (String.get 0)) in H; cbn in H; discriminate H.

Ltac uninterrupted_step :=
  lazymatch goal with
  | |- preserves _ (ret _) => apply preserves_ret
  | |- preserves _ (throw _) => apply preserves_throw
  | |- preserves _ (bind _ _) => apply preserves_bind; [|intros ?]
  | |- preserves _ (try_catch (setTimeout _ _) _) =>
      apply preserves_try_catch_safe; [apply safe_setTimeout|]
  | |- preserves _ (try_catch _ _) => apply preserves_try_catch; [|intros ?]
  | |- preserves _ (if _ then _ else _) => apply preserves_if
  | |- preserves _ get_app => apply preserves_get_app
  | |- preserves _ (await _) => apply preserves_await
  | |- preserves _ (get_id _) => apply preserves_get_id
  | |- preserves _ (substring_method _ _) => apply preserves_substring_method
  | |- preserves _ (Array_from _ _) => apply preserves_Array_from
  | |- preserves uninterrupted (addLog _ _ _ _) => apply uninterrupted_addLog; other_message
  | |- preserves uninterrupted _ => apply uninterrupted_frame; intros ?; reflexivity
  end.

Lemma uninterrupted_run_callback host cb : preserves uninterrupted (run_callback host cb).
Proof.
  destruct cb; cbn [run_callback];
    unfold teleport_resolved, local_collapsed, random_register, random_bit;
    repeat uninterrupted_step.
Qed.

Lemma uninterrupted_handle host (ev : Event) : preserves uninterrupted (handle host ev).
Proof.
  destruct ev as [v | | r | | i | | | m]; cbn [handle].
  - repeat uninterrupted_step.
  - unfold connectToIBM_until_fetch. repeat uninterrupted_step.
  - unfold connectToIBM_after_fetch. repeat uninterrupted_step.
  - unfold executeRealTeleport, executeRealTeleport_with, runLocalSimulation,
      simulated_retrieval. repeat uninterrupted_step.
  - intros s Hs. unfold fire. destruct (nth_error (timers s) i) as [t|]; [|exact Hs].
    apply uninterrupted_run_callback. exact Hs.
  - unfold captureArtifact. repeat uninterrupted_step.
  - intros s _. constructor.
  - repeat uninterrupted_step.
Qed.

Lemma uninterrupted_reads (s s' : Sys) :
  app s' = app s -> uninterrupted s -> uninterrupted s'.
Proof. intros H. unfold uninterrupted. rewrite H. auto. Qed.

Lemma handled_uninterrupted host (ev : PageEvent) (p q : Page) :
  uninterrupted (sys p) -> handled host ev p = Some q -> uninterrupted (sys q).
Proof.
  intros Hp Hq. unfold handled in Hq.
  destruct (enabledP ev p); [|discriminate Hq]. injection Hq as <-.
  destruct ev as [e | num | | | r | | id | | i granted | j played]; cbn [handleP].
  - exact (uninterrupted_handle host e (sys p) Hp).
  - unfold execP, handlePinEntry, bindP, get_page.
    destruct (Nat.ltb (String.length (pinBuffer p)) 4); [|exact Hp].
    cbn [setPinBuffer fst snd pinBuffer].
    destruct ((pinBuffer p ++ JS.string_of_Z num =? ACCESS_PIN)%string).
    + change (uninterrupted (snd (addLog host "SEC" "Nexus Handshake: Verified." None (sys p)))).
      apply uninterrupted_addLog; [other_message | exact Hp].
    + destruct (Nat.eqb (String.length (pinBuffer p ++ JS.string_of_Z num)) 4); [|exact Hp].
      change (uninterrupted (snd (addLog host "ERR" "Invalid Hash." None (sys p)))).
      apply uninterrupted_addLog; [other_message | exact Hp].
  - exact Hp.
  - unfold execP, runDecipher_until_fetch, bindP, get_page, core.
    cbn [fst snd host_read isAnalyzing].
    destruct (negb (videoRef_current host (reads (sys p))) || isAnalyzing p).
    + exact Hp.
    + cbn [setIsAnalyzing fst snd sys].
      set (s1 := mkSys (app (sys p)) (timers (sys p)) (inflight (sys p)) (S (reads (sys p)))).
      assert (H1 : uninterrupted s1) by exact Hp.
      pose proof (uninterrupted_addLog host "QML" "Aligning Spectrum Nodes..." None
                    ltac:(other_message) s1 H1) as H2.
      rewrite addLog_run in H2 |- *. exact H2.
  - pose proof (after_fetch_run host r p) as H. cbv zeta in H.
    destruct H as (_ & _ & _ & _ & _ & _ & _ & H).
    destruct (answered r); destruct H as (_ & e & (_ & He & _) & Hlog);
      (eapply (uninterrupted_entry (sys p) _ e);
       [rewrite Hlog; symmetry; apply (slice0_cons 29) | rewrite He; other_message | exact Hp]).
  - exact Hp.
  - exact Hp.
  - exact Hp.
  - pose proof (after_media_sys host i granted p) as H. cbv zeta in H. rewrite H.
    destruct granted as [|n].
    + apply uninterrupted_addLog; [other_message | exact Hp].
    + destruct (videoRef_current host (reads (sys p))); [exact Hp|].
      apply uninterrupted_addLog; [other_message | exact Hp].
  - pose proof (after_play_sys host j played p) as H. cbv zeta in H. rewrite H.
    destruct played; (apply uninterrupted_addLog; [other_message | exact Hp]).
Qed.

Lemma uninterrupted_along_runs host (evs : list PageEvent) : forall p p',
  uninterrupted (sys p) -> runP host evs p = Some p' -> uninterrupted (sys p').
Proof.
  induction evs as [|ev evs IH]; intros p p' Hp Hrun; cbn [runP] in Hrun.
  - injection Hrun as <-. exact Hp.
  - destruct (stepP host ev p) as [p1|] eqn:Hstep; [|discriminate Hrun].
    apply (IH p1 p'); [|exact Hrun].
    destruct (stepP_handled host ev p p1 Hstep) as (q & Hq & ->).
    rewrite after_render_sys. exact (handled_uninterrupted host ev p q Hp Hq).
Qed.

(** X22: on every run of the page from its start, no entry of the log is
    the one of the interrupted pipeline: the [try] body of
    [executeRealTeleport] is one call of [setTimeout], which returns in
    every state, so its [catch] (lines 135-139) is never run. *)
Theorem pipeline_never_interrupted host (evs : list PageEvent) (p : Page) :
  runP host evs initialPage = Some p ->
  Forall (fun e => Log.msg e <> "Job Pipeline Interrupted.") (logs (app (sys p))) /\
  (forall s, fst (simulated_retrieval s) = inr tt).
Proof.
  intros Hrun. split; [|reflexivity].
  apply (uninterrupted_along_runs host evs initialPage p); [|exact Hrun].
  repeat constructor. discriminate.
Qed.

(** * The statements at concrete inputs *)

Lemma initial_weight_mismatch_witness :
  existsb completes_job [ModeSelected "HEAT"; CaptureClicked] = false /\
  exists s,
    run still_host [ModeSelected "HEAT"; CaptureClicked] initialSys = Some s /\
    List.length (photos (app s)) = 1%nat /\
    qubitWeight (app s) = JS.Fin (1 # 2).
Proof.
  split; [reflexivity|]. eexists. split; [vm_compute; reflexivity|]. split; [reflexivity|].
  exact (proj1 (proj2 (proj2 (proj2 (proj2
    (initial_weight_mismatch still_host [ModeSelected "HEAT"; CaptureClicked] _
       eq_refl eq_refl)))))).
Defined.

Lemma log_capacity_witness :
  (List.length (logs (app initialSys)) <= 30)%nat /\
  (List.length (logs (app (exec (addLogs still_host (repeat ("SYS", "tick", None) 40))
                             initialSys))) <= 30)%nat.
Proof.
  assert (H : (List.length (logs (app initialSys)) <= 30)%nat) by (cbn; lia).
  split; [exact H|].
  exact (proj1 (log_capacity still_host (repeat ("SYS", "tick", None) 40)
                  "SYS" "last" None initialSys H)).
Defined.

Lemma missing_credential_witness :
  ibmToken (app initialSys) = "" /\
  link_session (app (exec (connectToIBM still_host Rejects) initialSys)) =
  link_session (app initialSys).
Proof.
  split; [reflexivity|].
  exact (proj1 (proj2 (proj2
    (missing_credential still_host Rejects initialSys eq_refl)))).
Defined.

Lemma handshake_granted_witness :
  let s := with_token "abc" initialSys in
  ibmToken (app s) <> "" /\
  granted (answer_granted "0123456789abcdef") = Some "0123456789abcdef" /\
  hardwareStatus (app (exec (connectToIBM still_host (answer_granted "0123456789abcdef")) s))
  = READY.
Proof.
  cbv zeta.
  assert (H : ibmToken (app (with_token "abc" initialSys)) <> "") by (cbn; discriminate).
  split; [exact H|]. split; [reflexivity|].
  exact (proj1 (proj2 (proj2
    (handshake_granted still_host (with_token "abc" initialSys)
       (mkResponse true 200 (Fulfils (JValue (JS.VString "0123456789abcdef"))) Rejects)
       "0123456789abcdef" H eq_refl)))).
Defined.

(** The scenario of the specification: credential "abc", backend
    unreachable. *)
Lemma handshake_refused_witness :
  let s := with_token "abc" initialSys in
  ibmToken (app s) <> "" /\
  granted (@Rejects Response) = None /\
  hardwareStatus (app (exec (connectToIBM still_host Rejects) s)) = DISCONNECTED.
Proof.
  cbv zeta.
  assert (H : ibmToken (app (with_token "abc" initialSys)) <> "") by (cbn; discriminate).
  split; [exact H|]. split; [reflexivity|].
  exact (proj1 (proj2
    (handshake_refused still_host (with_token "abc" initialSys) Rejects H eq_refl))).
Defined.

Lemma log_independent_of_credential_witness :
  "abc" <> "" /\ "tok123" <> "" /\
  logs (app (exec (connectToIBM still_host (answer_rejected 401 "tok123 is not valid"))
               (with_token "abc" initialSys))) =
  logs (app (exec (connectToIBM still_host (answer_rejected 401 "tok123 is not valid"))
               (with_token "tok123" initialSys))).
Proof.
  assert (H1 : "abc" <> "") by discriminate.
  assert (H2 : "tok123" <> "") by discriminate.
  split; [exact H1|]. split; [exact H2|].
  exact (proj1 (log_independent_of_credential still_host initialSys "abc" "tok123"
                  (answer_rejected 401 "tok123 is not valid") H1 H2)).
Defined.

Lemma local_path_witness :
  hardwareStatus (app initialSys) <> READY /\
  link_session (app (exec (runJob flip_host) initialSys)) = link_session (app initialSys) /\
  List.length (localRegister (app (exec (runJob flip_host) initialSys))) = 10%nat.
Proof.
  assert (H : hardwareStatus (app initialSys) <> READY) by (cbn; discriminate).
  pose proof (local_path flip_host initialSys H) as L. cbv zeta in L.
  split; [exact H|].
  split; [exact (proj1 (proj2 (proj2 (proj2 (proj2 L)))))
         | exact (proj1 (proj2 (proj2 (proj2 (proj2 (proj2 (proj2 L)))))))].
Defined.

Lemma job_leaves_status_witness :
  let s := exec (setHardwareStatus READY) initialSys in
  hardwareStatus (app s) <> BUSY /\
  hardwareStatus (app (exec (executeRealTeleport flip_host) s)) = BUSY /\
  hardwareStatus (app (exec (runJob flip_host) s)) = READY.
Proof.
  cbv zeta.
  assert (H : hardwareStatus (app (exec (setHardwareStatus READY) initialSys)) <> BUSY)
    by (cbn; discriminate).
  pose proof (job_leaves_status flip_host (exec (setHardwareStatus READY) initialSys) H) as L.
  cbv zeta in L.
  split; [exact H|].
  split; [exact (proj1 (proj2 L)) | exact (proj1 (proj2 (proj2 (proj2 L))))].
Defined.


Lemma weight_formula_witness :
  List.length [1; 0; 1; 0; 1; 0; 1; 0; 1; 0] = 10%nat /\
  Forall is_bit [1; 0; 1; 0; 1; 0; 1; 0; 1; 0] /\
  JS.is_num (deriveWeight [1; 0; 1; 0; 1; 0; 1; 0; 1; 0])
            (spec_weight [1; 0; 1; 0; 1; 0; 1; 0; 1; 0]).
Proof.
  assert (H : Forall is_bit [1; 0; 1; 0; 1; 0; 1; 0; 1; 0])
    by (repeat constructor; unfold is_bit; lia).
  split; [reflexivity|]. split; [exact H|].
  exact (proj1 (weight_formula [1; 0; 1; 0; 1; 0; 1; 0; 1; 0] eq_refl H)).
Defined.

Lemma log_within_capacity_on_every_run_witness :
  runP flip_host working initialPage = Some (reached flip_host working) /\
  (List.length (logs (app (sys (reached flip_host working)))) <= 30)%nat.
Proof.
  assert (H : runP flip_host working initialPage = Some (reached flip_host working))
    by (vm_compute; reflexivity).
  split; [exact H|]. exact (log_within_capacity_on_every_run flip_host working _ H).
Defined.


Lemma link_never_drops_witness :
  let p := reached still_host linking in
  let later := [Core TeleportClicked; Core (TimerFired 0); Core ClearClicked] in
  let p' := arrive still_host later p in
  runP still_host linking initialPage = Some p /\
  linked (hardwareStatus (app (sys p))) = true /\
  runP still_host later p = Some p' /\
  linked (hardwareStatus (app (sys p'))) = true.
Proof.
  cbv zeta.
  assert (H1 : runP still_host linking initialPage = Some (reached still_host linking))
    by (vm_compute; reflexivity).
  assert (H2 : linked (hardwareStatus (app (sys (reached still_host linking)))) = true)
    by (vm_compute; reflexivity).
  assert (H3 : runP still_host [Core TeleportClicked; Core (TimerFired 0); Core ClearClicked]
                 (reached still_host linking) =
               Some (arrive still_host
                       [Core TeleportClicked; Core (TimerFired 0); Core ClearClicked]
                       (reached still_host linking)))
    by (vm_compute; reflexivity).
  split; [exact H1|]. split; [exact H2|]. split; [exact H3|].
  exact (link_never_drops still_host _ _ _ _ H1 H2 H3).
Defined.

Lemma busy_is_left_witness :
  let p := reached still_host (linking ++ [Core TeleportClicked]) in
  runP still_host (linking ++ [Core TeleportClicked]) initialPage = Some p /\
  hardwareStatus (app (sys p)) = BUSY /\
  exists i p', stepP still_host (Core (TimerFired i)) p = Some p' /\
               hardwareStatus (app (sys p')) = READY.
Proof.
  cbv zeta.
  assert (H1 : runP still_host (linking ++ [Core TeleportClicked]) initialPage =
               Some (reached still_host (linking ++ [Core TeleportClicked])))
    by (vm_compute; reflexivity).
  assert (H2 : hardwareStatus
                 (app (sys (reached still_host (linking ++ [Core TeleportClicked])))) = BUSY)
    by (vm_compute; reflexivity).
  split; [exact H1|]. split; [exact H2|].
  exact (proj1 (busy_is_left still_host _ _ H1 H2)).
Defined.

Lemma published_cells_agree_witness :
  let p := reached flip_host working in
  runP flip_host working initialPage = Some p /\
  lastBitstring (app (sys p)) = JS.join_empty (localRegister (app (sys p))) /\
  String.length (lastBitstring (app (sys p))) = 10%nat.
Proof.
  cbv zeta.
  assert (H : runP flip_host working initialPage = Some (reached flip_host working))
    by (vm_compute; reflexivity).
  split; [exact H|].
  split; [exact (proj1 (proj2 (published_cells_agree flip_host working _ H)))
         | exact (proj1 (proj2 (proj2 (published_cells_agree flip_host working _ H))))].
Defined.

Lemma photos_are_not_torn_witness :
  let p := reached flip_host working in
  runP flip_host working initialPage = Some p /\
  List.length (photos (app (sys p))) = 2%nat /\
  Forall (fun x => paired (Photo.bits x) (Photo.weight x) /\
                   String.length (Photo.bits x) = 10%nat)
         (photos (app (sys p))).
Proof.
  cbv zeta.
  assert (H : runP flip_host working initialPage = Some (reached flip_host working))
    by (vm_compute; reflexivity).
  split; [exact H|]. split; [vm_compute; reflexivity|].
  exact (photos_are_not_torn flip_host working _ H).
Defined.

Lemma weight_by_ones_witness :
  is_register [1; 0; 1; 0; 1; 0; 1; 0; 1; 0] /\
  is_register [0; 1; 1; 1; 0; 0; 0; 1; 1; 0] /\
  deriveWeight [1; 0; 1; 0; 1; 0; 1; 0; 1; 0] = deriveWeight [0; 1; 1; 1; 0; 0; 0; 1; 1; 0].
Proof.
  assert (H1 : is_register [1; 0; 1; 0; 1; 0; 1; 0; 1; 0])
    by (split; [reflexivity | repeat constructor; (left; reflexivity) || (right; reflexivity)]).
  assert (H2 : is_register [0; 1; 1; 1; 0; 0; 0; 1; 1; 0])
    by (split; [reflexivity | repeat constructor; (left; reflexivity) || (right; reflexivity)]).
  split; [exact H1|]. split; [exact H2|].
  destruct (weight_by_ones _ _ H1 H2) as (q1 & q2 & _ & _ & _ & _ & Hsame & _).
  exact (Hsame eq_refl).
Defined.

Lemma unlocked_by_the_pin_witness :
  let p := reached still_host unlocking in
  runP still_host unlocking initialPage = Some p /\
  (accepted p = true <-> exists k, group k (keys_of unlocking) = [5; 2; 8; 0]) /\
  (isLocked p = false -> accepted p = true /\ pinBuffer p = ACCESS_PIN).
Proof.
  cbv zeta.
  assert (H : runP still_host unlocking initialPage = Some (reached still_host unlocking))
    by (vm_compute; reflexivity).
  split; [exact H|].
  split; [exact (proj1 (unlocked_by_the_pin still_host unlocking _ H))
         | exact (proj1 (proj2 (unlocked_by_the_pin still_host unlocking _ H)))].
Defined.

Lemma decipher_guard_witness :
  (videoRef_current dark_host (reads (sys initialPage)) = false \/
   isAnalyzing initialPage = true) /\
  cells (execP (runDecipher dark_host Rejects) initialPage) = cells initialPage.
Proof.
  assert (H : videoRef_current dark_host (reads (sys initialPage)) = false \/
              isAnalyzing initialPage = true) by (left; reflexivity).
  split; [exact H|]. exact (proj2 (decipher_guard dark_host Rejects initialPage H)).
Defined.

Lemma decipher_outcome_witness :
  let fetched := Fulfils (Fulfils (regular_answer (JsString "Two nodes."))) in
  let p' := execP (runDecipher still_host fetched) initialPage in
  videoRef_current still_host (reads (sys initialPage)) = true /\
  isAnalyzing initialPage = false /\
  isAnalyzing p' = false /\
  pad_cells p' = pad_cells initialPage /\
  List.length (logs (app (sys p'))) = 3%nat /\
  analysis p' = JsString "Two nodes.".
Proof.
  cbv zeta.
  pose proof (decipher_outcome still_host
                (Fulfils (Fulfils (regular_answer (JsString "Two nodes."))))
                initialPage eq_refl eq_refl) as H.
  cbv zeta in H.
  split; [reflexivity|]. split; [reflexivity|].
  split; [exact (proj1 (proj2 H))|]. split; [exact (proj1 (proj2 (proj2 H)))|].
  destruct H as (_ & _ & _ & _ & _ & _ & (e1 & e2 & Hlog & _) & Han & _).
  split; [rewrite Hlog; reflexivity | exact Han].
Defined.

Lemma one_decipher_at_a_time_witness :
  let p := reached still_host (unlocking ++ [DecipherClicked]) in
  runP still_host (unlocking ++ [DecipherClicked]) initialPage = Some p /\
  (List.length (deciphering p) <= 1)%nat /\
  (isAnalyzing p = true <-> deciphering p <> []).
Proof.
  cbv zeta.
  assert (H : runP still_host (unlocking ++ [DecipherClicked]) initialPage =
              Some (reached still_host (unlocking ++ [DecipherClicked])))
    by (vm_compute; reflexivity).
  split; [exact H|]. exact (one_decipher_at_a_time still_host _ _ H).
Defined.

Lemma locked_page_is_inert_witness :
  let keys := [PinPressed 1; PinPressed 2; PinPressed 3; PinPressed 4;
               PinPressed 5; PinPressed 2; PinPressed 8; PinPressed 0] in
  let p := reached still_host keys in
  runP still_host keys initialPage = Some p /\
  isLocked p = true /\
  photos (app (sys p)) = [] /\
  camera p = camera initialPage.
Proof.
  cbv zeta.
  set (keys := [PinPressed 1; PinPressed 2; PinPressed 3; PinPressed 4;
                PinPressed 5; PinPressed 2; PinPressed 8; PinPressed 0]).
  assert (H1 : runP still_host keys initialPage = Some (reached still_host keys))
    by (vm_compute; reflexivity).
  assert (H2 : isLocked (reached still_host keys) = true) by (vm_compute; reflexivity).
  pose proof (locked_page_is_inert still_host keys _ H1 H2) as H.
  split; [exact H1|]. split; [exact H2|].
  split; [exact (proj1 (proj2 (proj2 H)))|].
  exact (proj2 (proj2 (proj2 (proj2 (proj2 (proj2 (proj2 H))))))).
Defined.

Lemma parity_label_tells_the_register_witness :
  is_register [1; 0; 1; 0; 1; 0; 1; 0; 1; 0] /\
  is_register [1; 1; 1; 0; 1; 0; 1; 0; 1; 0] /\
  String.length (btoa "1010101010") = 16%nat /\
  parity_label "1010101010" = btoa "1010101010".
Proof.
  assert (H1 : is_register [1; 0; 1; 0; 1; 0; 1; 0; 1; 0])
    by (split; [reflexivity | repeat constructor; (left; reflexivity) || (right; reflexivity)]).
  assert (H2 : is_register [1; 1; 1; 0; 1; 0; 1; 0; 1; 0])
    by (split; [reflexivity | repeat constructor; (left; reflexivity) || (right; reflexivity)]).
  split; [exact H1|]. split; [exact H2|].
  pose proof (parity_label_tells_the_register _ _ H1 H2) as H. cbv zeta in H.
  split; [exact (proj1 H) | exact (proj1 (proj2 H))].
Defined.

Lemma purge_after_capture_witness :
  let p := reached still_host unlocking in
  let now := JS.of_Z (Date_now still_host (S (reads (sys p)))) in
  let taken := execP (handleP still_host (Core CaptureClicked)) p in
  let purged := execP (handleP still_host (PurgeClicked now)) taken in
  videoRef_current still_host (reads (sys p)) = true /\
  photos (app (sys purged)) =
  filter (fun x => number_differs (Photo.id x) now) (photos (app (sys p))) /\
  logs (app (sys purged)) = logs (app (sys taken)).
Proof.
  cbv zeta.
  assert (H : videoRef_current still_host (reads (sys (reached still_host unlocking))) = true)
    by reflexivity.
  pose proof (purge_after_capture still_host (reached still_host unlocking) H) as P.
  cbv zeta in P.
  split; [exact H|].
  split; [exact (proj1 (proj2 P)) | exact (proj1 (proj2 (proj2 (proj2 P))))].
Defined.

Lemma overlapping_calls_leak_witness :
  let p := reached still_host overlapping in
  let p1 := arrive still_host [MediaSettled 0 (Fulfils 1%nat)] p in
  let p2 := arrive still_host [MediaSettled 0 (Fulfils 2%nat)] p1 in
  let later := [PlaySettled 0 (Fulfils tt); FacingFlipped; MediaSettled 0 (Fulfils 3%nat)] in
  let p' := arrive still_host later p2 in
  stepP still_host (MediaSettled 0 (Fulfils 1%nat)) p = Some p1 /\
  stepP still_host (MediaSettled 0 (Fulfils 2%nat)) p1 = Some p2 /\
  1%nat <> 2%nat /\
  ~ In 1%nat (stopped (camera p)) /\
  runP still_host later p2 = Some p' /\
  ~ In 1%nat (granted_in later) /\
  currentStream (camera p') <> Some 1%nat /\
  ~ In 1%nat (stopped (camera p')).
Proof.
  cbv zeta.
  set (p := reached still_host overlapping).
  set (p1 := arrive still_host [MediaSettled 0 (Fulfils 1%nat)] p).
  set (p2 := arrive still_host [MediaSettled 0 (Fulfils 2%nat)] p1).
  set (later := [PlaySettled 0 (Fulfils tt); FacingFlipped; MediaSettled 0 (Fulfils 3%nat)]).
  set (p' := arrive still_host later p2).
  assert (H1 : stepP still_host (MediaSettled 0 (Fulfils 1%nat)) p = Some p1)
    by (vm_compute; reflexivity).
  assert (H2 : stepP still_host (MediaSettled 0 (Fulfils 2%nat)) p1 = Some p2)
    by (vm_compute; reflexivity).
  assert (H3 : 1%nat <> 2%nat) by discriminate.
  assert (H4 : ~ In 1%nat (stopped (camera p))) by (vm_compute; intros F; exact F).
  assert (H5 : runP still_host later p2 = Some p') by (vm_compute; reflexivity).
  assert (H6 : ~ In 1%nat (granted_in later))
    by (cbn; intros [F | F]; [discriminate F | exact F]).
  split; [exact H1|]. split; [exact H2|]. split; [exact H3|]. split; [exact H4|].
  split; [exact H5|]. split; [exact H6|].
  exact (proj2 (proj2 (overlapping_calls_leak still_host _ _ _ _ _ _ _ _ _ H1 H2 H3 H4 H5 H6))).
Defined.

Lemma calm_camera_holds_every_stream_witness :
  let p := reached still_host in_turn in
  runP still_host in_turn initialPage = Some p /\
  calm still_host in_turn initialPage = true /\
  granted_in in_turn = [1%nat; 2%nat] /\
  Forall (fun n => currentStream (camera p) = Some n \/ In n (stopped (camera p)))
         (granted_in in_turn).
Proof.
  cbv zeta.
  assert (H1 : runP still_host in_turn initialPage = Some (reached still_host in_turn))
    by (vm_compute; reflexivity).
  assert (H2 : calm still_host in_turn initialPage = true) by (vm_compute; reflexivity).
  split; [exact H1|]. split; [exact H2|]. split; [reflexivity|].
  exact (calm_camera_holds_every_stream still_host in_turn _ H1 H2).
Defined.

Lemma pipeline_never_interrupted_witness :
  runP still_host remote_run initialPage = Some (reached still_host remote_run) /\
  List.length (logs (app (sys (reached still_host remote_run)))) = 6%nat /\
  Forall (fun e => Log.msg e <> "Job Pipeline Interrupted.")
         (logs (app (sys (reached still_host remote_run)))).
Proof.
  assert (H : runP still_host remote_run initialPage = Some (reached still_host remote_run))
    by (vm_compute; reflexivity).
  split; [exact H|]. split; [vm_compute; reflexivity|].
  exact (proj1 (pipeline_never_interrupted still_host remote_run _ H)).
Defined.

(** * Examples *)

Example toFixed_half : JS.toFixed (JS.Fin (1 # 2)) 4 = "0.5000".
Proof. reflexivity. Qed.

Example toFixed_small_negative : JS.toFixed (JS.Fin (- (1 # 100000))) 4 = "-0.0000".
Proof. reflexivity. Qed.

Example toFixed_integer : JS.toFixed (JS.Fin (5 # 2)) 0 = "3".
Proof. reflexivity. Qed.

Example parseFloat_fixed : JS.parseFloat "0.8987" = JS.Fin (inject_Z 0 + inject_Z 8987 / inject_Z 10000).
Proof. reflexivity. Qed.

Example ToNumber_garbage : JS.ToNumber "0.10x" = JS.NaN.
Proof. reflexivity. Qed.

Example before_space_time : JS.before_space "10:42:07 PM" = "10:42:07".
Proof. reflexivity. Qed.

Example PI_SQUARED_INV_text : PI_SQUARED_INV = "0.10132118".
Proof. vm_compute. reflexivity. Qed.

Example weights_by_count :
  map (fun k => JS.toFixed (deriveWeight (repeat 1 k)) 4) (seq 0 11) =
  ["0.0000"; "0.0899"; "0.1797"; "0.2696"; "0.3595"; "0.4493"; "0.5392"; "0.6291";
   "0.7189"; "0.8088"; "0.8987"].
Proof. vm_compute. reflexivity. Qed.

(** A full log: the newest entry comes first and the oldest, the entry of
    the locked kernel, is gone. *)
Example full_log_evicts_oldest :
  let s := exec (addLogs still_host (repeat ("SYS", "tick", None) 29)) initialSys in
  let s' := exec (addLog still_host "SYS" "last" None) s in
  List.length (logs (app s)) = 30%nat /\
  option_map Log.msg (last (map Some (logs (app s))) None) = Some "Quantum Kernel Locked. Enter PIN." /\
  List.length (logs (app s')) = 30%nat /\
  option_map Log.msg (hd_error (logs (app s'))) = Some "last" /\
  option_map Log.msg (last (map Some (logs (app s'))) None) = Some "tick".
Proof. vm_compute. repeat split. Qed.

(** An [ok] answer without an [id]: the identifier cell holds [undefined]
    and the status ends DISCONNECTED. *)
Example answer_without_id :
  let s := exec (connectToIBM still_host
                   (Fulfils (mkResponse true 200 (Fulfils (JValue JS.VUndefined)) Rejects)))
                (with_token "abc" initialSys) in
  hardwareStatus (app s) = DISCONNECTED /\ ibmAccessToken (app s) = JS.VUndefined.
Proof. vm_compute. split; reflexivity. Qed.

(** One job on each path, on a host whose draws alternate. *)
Example remote_job :
  let s := exec (runJob flip_host) (exec (setHardwareStatus READY) initialSys) in
  lastBitstring (app s) = "0101010101" /\
  JS.toFixed (qubitWeight (app s)) 4 = "0.4493" /\
  hardwareStatus (app s) = READY.
Proof. vm_compute. repeat split. Qed.
